(** * The log filter engine of evmrpc (FilterAPI and LogFetcher)

    A shallow embedding of [evmrpc/filter.go]: the filter registry
    ([FilterAPI]) with its cursors and deadline timers, and the two-phase
    log search ([LogFetcher]).  Go's integers are kept at their width: an
    [int64] is a [Z] and a [uint64] an [N], and every increment is followed
    by the wrap-around of its type.  A call that does not return (a loop
    that never exits, a receive on an empty channel, a nil timer) is the
    result [None]. *)

From Stdlib Require Import ZArith NArith Lia List Bool Sorted.
From stdpp Require Import base option list sorting gmap strings.
Import ListNotations.

Local Open Scope Z_scope.

(** ** Machine integers *)

Module Int64.
Definition Max : Z := 2 ^ 63 - 1.
Definition Min : Z := - 2 ^ 63.
(** The value an [int64] holds after an operation whose exact result is [z]. *)
Definition wrap (z : Z) : Z := (z + 2 ^ 63) mod 2 ^ 64 - 2 ^ 63.
Definition InRange (z : Z) : Prop := Min <= z <= Max.
End Int64.

Module Uint64.
Definition modulus : N := (2 ^ 64)%N.
Definition wrap (n : N) : N := (n mod modulus)%N.
End Uint64.

(** ** Types of the libraries the package uses *)

(** go-ethereum's [common]: a 20-byte address and a 32-byte hash, each read
    as one big-endian number; only equality is ever used on them. *)
Module common.
Definition Address := N.
Definition Hash := N.
End common.

Definition error := string.

Module ethtypes.
(** [ethtypes.Bloom] is a 2048-bit vector. *)
Definition Bloom := N.

Record Log := mkLog {
  Address : common.Address;
  Topics : list common.Hash;
  Data : list N;
  BlockNumber : N;
  TxHash : common.Hash;
  TxIndex : N;
  BlockHash : common.Hash;
  Index : N;
  Removed : bool
}.

Definition setBlockHash (h : common.Hash) (l : Log) : Log :=
  mkLog (Address l) (Topics l) (Data l) (BlockNumber l) (TxHash l)
        (TxIndex l) h (Index l) (Removed l).

Definition setIndex (i : N) (l : Log) : Log :=
  mkLog (Address l) (Topics l) (Data l) (BlockNumber l) (TxHash l)
        (TxIndex l) (BlockHash l) i (Removed l).
End ethtypes.

Module filters.
(** [filters.FilterCriteria]; the three pointer fields are [None] when nil.
    [FromBlock] and [ToBlock] are big integers. *)
Record FilterCriteria := mkCriteria {
  BlockHash : option common.Hash;
  FromBlock : option Z;
  ToBlock : option Z;
  Addresses : list common.Address;
  Topics : list (list common.Hash)
}.
End filters.

(** The method [Int64] of a big integer: its low 64 bits, in two's
    complement. *)
Definition BigInt_Int64 (x : Z) : Z := Int64.wrap x.

Module coretypes.
(** The two fields of [coretypes.ResultBlock] the package reads:
    [BlockID.Hash] and [Block.Height]. *)
Record ResultBlock := mkResultBlock {
  BlockID_Hash : common.Hash;
  Block_Height : Z
}.

(** [coretypes.ResultEvents].  An item stands for what the two
    [json.Unmarshal] calls and [block.Block.Hash()] make of its [Data]:
    the hash of the new block, or the decoding error. *)
Record ResultEvents := mkResultEvents {
  Items : list (common.Hash + error);
  More : bool;
  Newest : string
}.
End coretypes.

Module types.
(** [x/evm/types.Receipt] (receipt.pb.go), with the stored logs. *)
Record StoredLog := mkStoredLog {
  SAddress : string;
  STopics : list string;
  SData : list N
}.

Record Receipt := mkReceipt {
  TxType : N;
  CumulativeGasUsed : N;
  ContractAddress : string;
  TxHashHex : string;
  GasUsed : N;
  EffectiveGasPrice : N;
  BlockNumber : N;
  TransactionIndex : N;
  Status : N;
  From : string;
  To : string;
  VmError : string;
  Logs : list StoredLog;
  LogsBloom : ethtypes.Bloom
}.
End types.

(** ** Collaborators *)

(** The pure helpers of the repository that [filter.go] calls and that live
    in files outside this development: the bloom indexer and matcher
    (with the type [bloomIndexes] they share), the resolution of a block
    number against the latest height, the conversion of a receipt to
    go-ethereum logs (fresh [Log] objects on every call) and [utils.Filter]
    at the type of logs. *)
Class Helpers := {
  bloomIndexes : Type;
  EncodeFilters :
    list common.Address -> list (list common.Hash) -> list (list bloomIndexes);
  MatchFilters : ethtypes.Bloom -> list (list bloomIndexes) -> bool;
  getHeightFromBigIntBlockNumber : Z -> Z -> Z;
  GetLogsForTx : types.Receipt -> list ethtypes.Log;
  Filter : list ethtypes.Log -> (ethtypes.Log -> bool) -> list ethtypes.Log
}.

(** What a [LogFetcher] (and the [tmClient] of the [FilterAPI]) can see of
    the chain at the time of one call: the consensus client ([tmClient],
    through [blockWithRetry], [blockByHashWithRetry] and [Events]), the
    latest height ([f.ctxProvider(LatestCtxHeight).BlockHeight()]) and the
    keeper's reads.  A fallible collaborator answers [inl] a value or [inr]
    an error. *)
Record LogFetcher := mkLogFetcher {
  blockByHashWithRetry : common.Hash -> coretypes.ResultBlock + error;
  blockWithRetry : Z -> coretypes.ResultBlock + error;
  Events : string -> coretypes.ResultEvents + error;
  BlockHeight : Z;
  GetBlockBloom : Z -> ethtypes.Bloom;
  GetTxHashesOnHeight : Z -> list common.Hash;
  GetReceipt : common.Hash -> types.Receipt + error
}.

(** ** Exact match *)

(** The inner loop of [matchTopics]: is [eventTopic] one of [topicList]? *)
Fixpoint topicListMatches (topicList : list common.Hash) (eventTopic : common.Hash)
  : bool :=
  match topicList with
  | [] => false
  | topic :: rest =>
      if (topic =? eventTopic)%N then true else topicListMatches rest eventTopic
  end.

(** [matchTopics], from position [i] on. *)
Fixpoint matchTopicsFrom (i : nat) (topics : list (list common.Hash))
  (eventTopics : list common.Hash) : bool :=
  match topics with
  | [] => true
  | topicList :: rest =>
      if (length topicList =? 0)%nat then matchTopicsFrom (S i) rest eventTopics
      else if (length eventTopics <=? i)%nat then false
      else match eventTopics !! i with
           | None => false
           | Some eventTopic =>
               if topicListMatches topicList eventTopic
               then matchTopicsFrom (S i) rest eventTopics
               else false
           end
  end.

Definition matchTopics (topics : list (list common.Hash))
  (eventTopics : list common.Hash) : bool :=
  matchTopicsFrom 0 topics eventTopics.

(** The address loop of [IsLogExactMatch], entered with the current
    [addrMatch]. *)
Fixpoint addressLoop (addrMatch : bool) (addresses : list common.Address)
  (logAddress : common.Address) : bool :=
  match addresses with
  | [] => addrMatch
  | addrFilter :: rest =>
      if (logAddress =? addrFilter)%N then true
      else addressLoop addrMatch rest logAddress
  end.

Definition IsLogExactMatch (log : ethtypes.Log) (crit : filters.FilterCriteria)
  : bool :=
  let addrMatch := (length (filters.Addresses crit) =? 0)%nat in
  let addrMatch := addressLoop addrMatch (filters.Addresses crit) (ethtypes.Address log) in
  addrMatch && matchTopics (filters.Topics crit) (ethtypes.Topics log).

(** ** LogFetcher *)

Section Fetcher.
Context `{H : Helpers}.

(** The loop of [FindLogsByBloom] over the transaction hashes of a
    height.  A receipt that cannot be read is logged and skipped
    ([continue]); the function has no error result. *)
Fixpoint FindLogsByBloomLoop (f : LogFetcher) (filters : list (list bloomIndexes))
  (txHashes : list common.Hash) (res : list ethtypes.Log) : list ethtypes.Log :=
  match txHashes with
  | [] => res
  | hash :: rest =>
      match GetReceipt f hash with
      | inr _ => FindLogsByBloomLoop f filters rest res
      | inl receipt =>
          if MatchFilters (types.LogsBloom receipt) filters
          then FindLogsByBloomLoop f filters rest (res ++ GetLogsForTx receipt)
          else FindLogsByBloomLoop f filters rest res
      end
  end.

Definition FindLogsByBloom (f : LogFetcher) (height : Z)
  (filters : list (list bloomIndexes)) : list ethtypes.Log :=
  let txHashes := GetTxHashesOnHeight f height in
  FindLogsByBloomLoop f filters txHashes [].

(** The renumbering loop of [GetLogsForBlock]: the log at position [i]
    gets the block's hash and [Index = uint(i)]. *)
Fixpoint renumberFrom (i : nat) (blockHash : common.Hash)
  (matchedLogs : list ethtypes.Log) : list ethtypes.Log :=
  match matchedLogs with
  | [] => []
  | l :: rest =>
      ethtypes.setIndex (N.of_nat i) (ethtypes.setBlockHash blockHash l)
        :: renumberFrom (S i) blockHash rest
  end.

Definition GetLogsForBlock (f : LogFetcher) (block : coretypes.ResultBlock)
  (crit : filters.FilterCriteria) (filters : list (list bloomIndexes))
  : list ethtypes.Log :=
  let possibleLogs := FindLogsByBloom f (coretypes.Block_Height block) filters in
  let matchedLogs := Filter possibleLogs (fun l => IsLogExactMatch l crit) in
  renumberFrom 0 (coretypes.BlockID_Hash block) matchedLogs.

(** The loop [for height := begin; height <= end; height++] of
    [FindBlockesByBloom]; [height++] is an [int64] increment.  [fuel]
    bounds the number of tests of the loop condition. *)
Fixpoint FindBlockesByBloomLoop (fuel : nat) (f : LogFetcher)
  (height end_ : Z) (filters : list (list bloomIndexes)) (res : list Z)
  : option (list Z) :=
  match fuel with
  | O => None
  | S fuel' =>
      if height <=? end_ then
        let blockBloom := GetBlockBloom f height in
        let res := if MatchFilters blockBloom filters then res ++ [height] else res in
        FindBlockesByBloomLoop fuel' f (Int64.wrap (height + 1)) end_ filters res
      else Some res
  end.

Definition FindBlockesByBloom (fuel : nat) (f : LogFetcher) (begin end_ : Z)
  (filters : list (list bloomIndexes)) : option (list Z) :=
  FindBlockesByBloomLoop fuel f begin end_ filters [].

(** The loop of [GetLogsByFilters] over the candidate heights: the
    first block that cannot be fetched ends the call with
    [nil, 0, err]. *)
Fixpoint GetLogsByFiltersLoop (f : LogFetcher) (crit : filters.FilterCriteria)
  (bloomIndexes_ : list (list bloomIndexes)) (end_ : Z)
  (blockHeights : list Z) (res : list ethtypes.Log)
  : list ethtypes.Log * Z * option error :=
  match blockHeights with
  | [] => (res, end_, None)
  | height :: rest =>
      match blockWithRetry f height with
      | inr err => ([], 0, Some err)
      | inl block =>
          GetLogsByFiltersLoop f crit bloomIndexes_ end_ rest
            (res ++ GetLogsForBlock f block crit bloomIndexes_)
      end
  end.

(** [GetLogsByFilters]: the three results are the logs (a nil slice is
    the empty list), the resolved height and the error. *)
Definition GetLogsByFilters (fuel : nat) (f : LogFetcher)
  (crit : filters.FilterCriteria) (lastToHeight : Z)
  : option (list ethtypes.Log * Z * option error) :=
  let bloomIndexes_ := EncodeFilters (filters.Addresses crit) (filters.Topics crit) in
  match filters.BlockHash crit with
  | Some blockHash =>
      match blockByHashWithRetry f blockHash with
      | inr err => Some ([], 0, Some err)
      | inl block =>
          Some (GetLogsForBlock f block crit bloomIndexes_,
                coretypes.Block_Height block, None)
      end
  | None =>
      let latest := BlockHeight f in
      let begin := 0 in
      let end_ := latest in
      let begin :=
        match filters.FromBlock crit with
        | Some fromBlock => getHeightFromBigIntBlockNumber latest fromBlock
        | None => begin
        end in
      let end_ :=
        match filters.ToBlock crit with
        | Some toBlock => getHeightFromBigIntBlockNumber latest toBlock
        | None => end_
        end in
      let begin := if lastToHeight >? begin then lastToHeight else begin in
      blockHeights ← FindBlockesByBloom fuel f begin end_ bloomIndexes_;
      Some (GetLogsByFiltersLoop f crit bloomIndexes_ end_ blockHeights [])
  end.
End Fetcher.

(** ** Deadline timers *)

(** A [time.Timer] with its one-slot channel [C], on a clock read as a
    number.  [active] says that the timer is armed and has neither fired
    nor been stopped; it fires at [when], which puts a value in [C] unless
    one is already there (the runtime's send never blocks).  These are the
    timers the stop-and-drain idiom of the package is written for: [Stop]
    answers false on a timer that has fired, whose value is then still in
    the channel. *)
Module timer.
Record Timer := mkTimer {
  active : bool;
  when : Z;
  C : option Z
}.

Definition NewTimer (now d : Z) : Timer := mkTimer true (now + d) None.

(** The state of the timer as an operation at time [now] finds it. *)
Definition fire (now : Z) (t : Timer) : Timer :=
  if active t && (when t <=? now)
  then mkTimer false (when t) (match C t with Some v => Some v | None => Some (when t) end)
  else t.

(** [t.Stop()]: reports whether the call stopped an armed timer. *)
Definition Stop (now : Z) (t : Timer) : bool * Timer :=
  let t := fire now t in
  (active t, mkTimer false (when t) (C t)).

(** [<-t.C]: [None] when the channel is empty, the receive blocks. *)
Definition receive (t : Timer) : option Timer :=
  match C t with
  | Some _ => Some (mkTimer (active t) (when t) None)
  | None => None
  end.

(** [t.Reset(d)]. *)
Definition Reset (now d : Z) (t : Timer) : Timer :=
  let t := fire now t in
  mkTimer true (now + d) (C t).
End timer.

(** ** The registry *)

Inductive FilterType := UnknownSubscription | LogsSubscription | BlocksSubscription.

(** [deadline] is a pointer to a timer: an index into the heap of timers of
    the registry, [None] for nil. *)
Record filter := mkFilter {
  typ : FilterType;
  fc : filters.FilterCriteria;
  deadline : option nat;
  blockCursor : string;
  lastToHeight : Z
}.

(** The zero value of [filter], which indexing the map at a missing key
    gives. *)
Definition zeroFilter : filter :=
  mkFilter UnknownSubscription (filters.mkCriteria None None None [] []) None "" 0.

(** The [FilterAPI]: the counter, the map, the timers the filters point to
    and [filterConfig.timeout].  The mutex is held for the whole of every
    operation, so an operation is one step on this state; the chain the
    [tmClient] and the [logFetcher] read is an argument of each call. *)
Record FilterAPI := mkFilterAPI {
  nextFilterID : N;
  filters : gmap N filter;
  timers : list timer.Timer;
  timeout : Z
}.

Definition setFilterMap (m : gmap N filter) (a : FilterAPI) : FilterAPI :=
  mkFilterAPI (nextFilterID a) m (timers a) (timeout a).

Definition setTimers (ts : list timer.Timer) (a : FilterAPI) : FilterAPI :=
  mkFilterAPI (nextFilterID a) (filters a) ts (timeout a).

(** [a.filters[filterID]] without the [ok]. *)
Definition filterAt (a : FilterAPI) (filterID : N) : filter :=
  default zeroFilter (filters a !! filterID).

Definition NewFilterAPI (timeout : Z) : FilterAPI := mkFilterAPI 1 ∅ [] timeout.

(** What [GetFilterChanges] returns in its [interface{}]. *)
Inductive changes :=
| Nil
| Hashes (hashes : list common.Hash)
| Logs (logs : list ethtypes.Log).

Definition NewFilter (now : Z) (a : FilterAPI) (crit : filters.FilterCriteria)
  : N * option error * FilterAPI :=
  let curFilterID := nextFilterID a in
  let p := length (timers a) in
  (curFilterID, None,
   mkFilterAPI (Uint64.wrap (curFilterID + 1))
     (<[curFilterID := mkFilter LogsSubscription crit (Some p) "" 0]> (filters a))
     (timers a ++ [timer.NewTimer now (timeout a)])
     (timeout a)).

Definition NewBlockFilter (now : Z) (a : FilterAPI) : N * option error * FilterAPI :=
  let curFilterID := nextFilterID a in
  let p := length (timers a) in
  (curFilterID, None,
   mkFilterAPI (Uint64.wrap (curFilterID + 1))
     (<[curFilterID :=
          mkFilter BlocksSubscription (filters.mkCriteria None None None [] [])
                   (Some p) "" 0]> (filters a))
     (timers a ++ [timer.NewTimer now (timeout a)])
     (timeout a)).

(** The stop, drain and reset of [filter.deadline] that opens
    [GetFilterChanges] and [GetFilterLogs].  It acts on the timer the
    filter points to. *)
Definition resetDeadline (now : Z) (a : FilterAPI) (flt : filter) : option FilterAPI :=
  p ← deadline flt;
  t ← timers a !! p;
  let '(stopped, t) := timer.Stop now t in
  t ← (if stopped then Some t else timer.receive t);
  Some (setTimers (<[p := timer.Reset now (timeout a) t]> (timers a)) a).

(** The loop over [res.Items] of [getBlockHeadersAfter]. *)
Fixpoint appendHeaders (items : list (common.Hash + error))
  (headers : list common.Hash) : list common.Hash + error :=
  match items with
  | [] => inl headers
  | inr err :: _ => inr err
  | inl hash :: rest => appendHeaders rest (headers ++ [hash])
  end.

(** The loop [for hasMore] of [getBlockHeadersAfter], entered with
    [hasMore] true; [fuel] bounds the number of pages. *)
Fixpoint getBlockHeadersLoop (fuel : nat) (f : LogFetcher) (cursor : string)
  (headers : list common.Hash) : option (list common.Hash * string * option error) :=
  match fuel with
  | O => None
  | S fuel' =>
      match Events f cursor with
      | inr err => Some ([], "", Some err)
      | inl res =>
          let hasMore := coretypes.More res in
          let cursor := coretypes.Newest res in
          match appendHeaders (coretypes.Items res) headers with
          | inr err => Some ([], "", Some err)
          | inl headers =>
              if hasMore then getBlockHeadersLoop fuel' f cursor headers
              else Some (headers, cursor, None)
          end
      end
  end.

Definition getBlockHeadersAfter (fuel : nat) (f : LogFetcher) (cursor : string)
  : option (list common.Hash * string * option error) :=
  getBlockHeadersLoop fuel f cursor [].

Section Registry.
Context `{H : Helpers}.

Definition GetFilterChanges (fuel : nat) (f : LogFetcher) (now : Z)
  (a : FilterAPI) (filterID : N) : option (changes * option error * FilterAPI) :=
  match filters a !! filterID with
  | None => Some (Nil, Some "filter does not exist", a)
  | Some flt =>
      a ← resetDeadline now a flt;
      match typ flt with
      | BlocksSubscription =>
          '(hashes, cursor, err) ← getBlockHeadersAfter fuel f (blockCursor flt);
          match err with
          | Some err => Some (Nil, Some err, a)
          | None =>
              let updatedFilter := filterAt a filterID in
              let updatedFilter :=
                mkFilter (typ updatedFilter) (fc updatedFilter)
                         (deadline updatedFilter) cursor (lastToHeight updatedFilter) in
              Some (Hashes hashes, None,
                    setFilterMap (<[filterID := updatedFilter]> (filters a)) a)
          end
      | LogsSubscription =>
          if bool_decide (is_Some (filters.BlockHash (fc flt))) && (lastToHeight flt >? 0)
          then Some (Nil, None, a)
          else if match filters.ToBlock (fc flt) with
                  | Some toBlock => lastToHeight flt >=? BigInt_Int64 toBlock
                  | None => false
                  end
          then Some (Nil, None, a)
          else
            '(logs, lastToHeight_, err) ← GetLogsByFilters fuel f (fc flt) (lastToHeight flt);
            match err with
            | Some err => Some (Nil, Some err, a)
            | None =>
                let updatedFilter := filterAt a filterID in
                let updatedFilter :=
                  mkFilter (typ updatedFilter) (fc updatedFilter)
                           (deadline updatedFilter) (blockCursor updatedFilter)
                           (Int64.wrap (lastToHeight_ + 1)) in
                Some (Logs logs, None,
                      setFilterMap (<[filterID := updatedFilter]> (filters a)) a)
            end
      | UnknownSubscription => Some (Nil, Some "unknown filter type", a)
      end
  end.

Definition GetFilterLogs (fuel : nat) (f : LogFetcher) (now : Z)
  (a : FilterAPI) (filterID : N)
  : option (list ethtypes.Log * option error * FilterAPI) :=
  match filters a !! filterID with
  | None => Some ([], Some "filter does not exist", a)
  | Some flt =>
      a ← resetDeadline now a flt;
      '(logs, lastToHeight_, err) ← GetLogsByFilters fuel f (fc flt) 0;
      match err with
      | Some err => Some ([], Some err, a)
      | None =>
          let updatedFilter := filterAt a filterID in
          let updatedFilter :=
            mkFilter (typ updatedFilter) (fc updatedFilter)
                     (deadline updatedFilter) (blockCursor updatedFilter)
                     lastToHeight_ in
          Some (logs, None,
                setFilterMap (<[filterID := updatedFilter]> (filters a)) a)
      end
  end.

Definition GetLogs (fuel : nat) (f : LogFetcher) (crit : filters.FilterCriteria)
  : option (list ethtypes.Log * option error) :=
  '(logs, _, err) ← GetLogsByFilters fuel f crit 0;
  Some (logs, err).
End Registry.

Definition UninstallFilter (a : FilterAPI) (filterID : N) : bool * FilterAPI :=
  match filters a !! filterID with
  | None => (false, a)
  | Some _ => (true, setFilterMap (delete filterID (filters a)) a)
  end.

(** One iteration of the [select] in [timeoutLoop]: a filter whose timer
    has a value in its channel is removed, the value received. *)
Definition sweepFilter (now : Z) (a : option FilterAPI) (entry : N * filter)
  : option FilterAPI :=
  a ← a;
  p ← deadline entry.2;
  t ← timers a !! p;
  let t := timer.fire now t in
  match timer.receive t with
  | Some t =>
      Some (setFilterMap (delete entry.1 (filters a)) (setTimers (<[p := t]> (timers a)) a))
  | None => Some a
  end.

(** One tick of [timeoutLoop]: the sweep over all the filters (in the order
    of the keys; Go ranges over the map in no fixed order, which matters
    only to filters that would share a timer, and none do). *)
Definition timeoutTick (now : Z) (a : FilterAPI) : option FilterAPI :=
  foldl (sweepFilter now) (Some a) (map_to_list (filters a)).

(** The timer at [p] is armed to fire at [at_]. *)
Definition armedAt (a : FilterAPI) (p : nat) (at_ : Z) : Prop :=
  exists t, timers a !! p = Some t /\ timer.active t = true /\ timer.when t = at_.

(** The shape of the registries that the operations build: every filter
    points to a timer of the heap that is armed or has its value still in
    the channel, and no two filters point to the same timer. *)
Definition wellFormed (a : FilterAPI) : Prop :=
  (forall id flt,
     filters a !! id = Some flt ->
     exists p t, deadline flt = Some p /\ timers a !! p = Some t
                 /\ (timer.active t = true \/ is_Some (timer.C t)))
  /\ (forall id1 id2 flt1 flt2,
        filters a !! id1 = Some flt1 -> filters a !! id2 = Some flt2 ->
        deadline flt1 = deadline flt2 -> id1 = id2).

(** ** Sequences of calls *)

(** A call on the registry, with the clock and the chain it meets. *)
Inductive call :=
| CallNewFilter (now : Z) (crit : filters.FilterCriteria)
| CallNewBlockFilter (now : Z)
| CallGetFilterChanges (f : LogFetcher) (now : Z) (filterID : N)
| CallGetFilterLogs (f : LogFetcher) (now : Z) (filterID : N)
| CallUninstallFilter (filterID : N)
| CallTimeoutTick (now : Z).

Definition isCreation (c : call) : bool :=
  match c with
  | CallNewFilter _ _ | CallNewBlockFilter _ => true
  | _ => false
  end.

(** The number of [NewFilter] and [NewBlockFilter] calls of a sequence. *)
Definition creations (cs : list call) : nat := length (List.filter isCreation cs).

Section Calls.
Context `{H : Helpers}.

(** One call: the filter ID it returns when it creates a filter, and the
    registry after it; [None] when the call does not return. *)
Definition step (fuel : nat) (c : call) (a : FilterAPI) : option (option N * FilterAPI) :=
  match c with
  | CallNewFilter now crit =>
      let '(id, _, a) := NewFilter now a crit in Some (Some id, a)
  | CallNewBlockFilter now =>
      let '(id, _, a) := NewBlockFilter now a in Some (Some id, a)
  | CallGetFilterChanges f now filterID =>
      r ← GetFilterChanges fuel f now a filterID; Some (None, r.2)
  | CallGetFilterLogs f now filterID =>
      r ← GetFilterLogs fuel f now a filterID; Some (None, r.2)
  | CallUninstallFilter filterID => Some (None, (UninstallFilter a filterID).2)
  | CallTimeoutTick now => a ← timeoutTick now a; Some (None, a)
  end.

(** The registry after the calls of [cs], when they all return. *)
Fixpoint runCalls (fuel : nat) (cs : list call) (a : FilterAPI) : option FilterAPI :=
  match cs with
  | [] => Some a
  | c :: rest => r ← step fuel c a; runCalls fuel rest r.2
  end.

(** The filter IDs that the calls of [cs] return, in order.  A call that
    never returns keeps the mutex, so no later call returns either. *)
Fixpoint issued (fuel : nat) (cs : list call) (a : FilterAPI) : list N :=
  match cs with
  | [] => []
  | c :: rest =>
      match step fuel c a with
      | None => []
      | Some (Some id, a) => id :: issued fuel rest a
      | Some (None, a) => issued fuel rest a
      end
  end.

(** The log stage for one candidate height: the block is fetched and its
    logs searched; used to describe what a scan returns. *)
Definition blockLogs (f : LogFetcher) (crit : filters.FilterCriteria) (height : Z)
  : list ethtypes.Log :=
  match blockWithRetry f height with
  | inl block =>
      GetLogsForBlock f block crit
        (EncodeFilters (filters.Addresses crit) (filters.Topics crit))
  | inr _ => []
  end.

(** The heights of [begin .. end_] whose block bloom matches. *)
Definition candidateHeights (f : LogFetcher) (filters : list (list bloomIndexes))
  (begin end_ : Z) : list Z :=
  List.filter (fun h => MatchFilters (GetBlockBloom f h) filters)
              (seqZ begin (end_ - begin + 1)).

(** The range [begin .. end_] that [GetLogsByFilters] scans for criteria
    without a block hash. *)
Definition scanRange (f : LogFetcher) (crit : filters.FilterCriteria)
  (lastToHeight : Z) : Z * Z :=
  let latest := BlockHeight f in
  let begin :=
    match filters.FromBlock crit with
    | Some fromBlock => getHeightFromBigIntBlockNumber latest fromBlock
    | None => 0
    end in
  let end_ :=
    match filters.ToBlock crit with
    | Some toBlock => getHeightFromBigIntBlockNumber latest toBlock
    | None => latest
    end in
  (if lastToHeight >? begin then lastToHeight else begin, end_).

(** The logs of one transaction as [FindLogsByBloom] keeps them: none
    when its receipt cannot be read or its bloom does not match. *)
Definition txLogs (f : LogFetcher) (filters : list (list bloomIndexes))
  (hash : common.Hash) : list ethtypes.Log :=
  match GetReceipt f hash with
  | inl receipt =>
      if MatchFilters (types.LogsBloom receipt) filters
      then GetLogsForTx receipt else []
  | inr _ => []
  end.
End Calls.

(** The helpers return [int64] values. *)
Definition HelpersInt64 (H : Helpers) : Prop :=
  forall latest n, Int64.InRange (getHeightFromBigIntBlockNumber latest n).

(** ** A small chain for the examples *)

Definition sampleReceipt (txIndex : N) : types.Receipt :=
  (types.mkReceipt 2 21000 "" "" 21000 1 0 txIndex 1 "" "" "" [] 0)%N.

(** Helpers for the examples: every bloom matches; a negative block number
    is a tag for the latest height; a receipt carries two logs, stored
    with the indexes 9 and 4; [Filter] keeps the logs that the predicate
    accepts, in order. *)
Definition sampleHelpers : Helpers := {|
  bloomIndexes := N * N * N;
  EncodeFilters := fun _ _ => [];
  MatchFilters := fun _ _ => true;
  getHeightFromBigIntBlockNumber :=
    fun latest n => if n <? 0 then Int64.wrap latest else Int64.wrap n;
  GetLogsForTx := fun receipt =>
    [ethtypes.mkLog 17 [291; 1110] [] 0 0 (types.TransactionIndex receipt) 0 9 false;
     ethtypes.mkLog 18 [291] [] 0 0 (types.TransactionIndex receipt) 0 4 false]%N;
  Filter := fun l p => List.filter p l
|}.

(** A chain of height [latest] with one transaction in every block. *)
Definition sampleChain (latest : Z) : LogFetcher := {|
  blockByHashWithRetry := fun hash => inl (coretypes.mkResultBlock hash (Z.of_N hash));
  blockWithRetry := fun height => inl (coretypes.mkResultBlock (Z.to_N height) height);
  Events := fun cursor => inl (coretypes.mkResultEvents [inl 5%N] false "c1");
  BlockHeight := latest;
  GetBlockBloom := fun _ => 0%N;
  GetTxHashesOnHeight := fun height => [Z.to_N height];
  GetReceipt := fun hash => inl (sampleReceipt hash)
|}.

(** The same chain seen through a client that cannot fetch blocks or
    events. *)
Definition brokenChain (latest : Z) : LogFetcher := {|
  blockByHashWithRetry := fun _ => inr "block unavailable";
  blockWithRetry := fun _ => inr "block unavailable";
  Events := fun _ => inr "events unavailable";
  BlockHeight := latest;
  GetBlockBloom := fun _ => 0%N;
  GetTxHashesOnHeight := fun height => [Z.to_N height];
  GetReceipt := fun hash => inl (sampleReceipt hash)
|}.

(** A chain of height 1 whose block holds the transactions 10 and 11; the
    receipt of 10 cannot be read. *)
Definition lostReceiptChain : LogFetcher := {|
  blockByHashWithRetry := fun hash => inl (coretypes.mkResultBlock hash 1);
  blockWithRetry := fun height => inl (coretypes.mkResultBlock 7%N height);
  Events := fun cursor => inl (coretypes.mkResultEvents [] false cursor);
  BlockHeight := 1;
  GetBlockBloom := fun _ => 0%N;
  GetTxHashesOnHeight := fun height => if height =? 1 then [10; 11]%N else [];
  GetReceipt := fun hash =>
    if (hash =? 10)%N then inr "receipt not found" else inl (sampleReceipt hash)
|}.

Definition anyCriteria : filters.FilterCriteria :=
  filters.mkCriteria None None None [] [].

Definition hashAndRange : filters.FilterCriteria :=
  filters.mkCriteria (Some 2748%N) (Some 1) (Some 2) [] [].

(** A registry with timeout 100 and the filter 1, created at time 0 with
    no criteria. *)
Definition oneFilter : FilterAPI := (NewFilter 0 (NewFilterAPI 100) anyCriteria).2.

Definition oneFilterEntry : filter :=
  mkFilter LogsSubscription anyCriteria (Some 0%nat) "" 0.

(** The logs of block 0 of the sample chain, as a scan returns them. *)
Definition blockZeroLogs : list ethtypes.Log :=
  [ethtypes.mkLog 17 [291; 1110] [] 0 0 0 0 0 false;
   ethtypes.mkLog 18 [291] [] 0 0 0 0 1 false]%N.

(** [oneFilter] after a [GetFilterChanges] at time 10 on the sample chain
    of height 0. *)
Definition polledOnce : FilterAPI :=
  mkFilterAPI 2 {[ 1%N := mkFilter LogsSubscription anyCriteria (Some 0%nat) "" 1 ]}
              [timer.mkTimer true 110 None] 100.

(** ** Notions for the further properties *)

(** The pages that [getBlockHeadersAfter] reads from a cursor on: every page
    but the last says that there is more, and each page is asked for
    after the newest cursor of the page before. *)
Inductive pagesFrom (f : LogFetcher) : string -> list coretypes.ResultEvents -> Prop :=
| pagesLast (cursor : string) (res : coretypes.ResultEvents) :
    Events f cursor = inl res -> coretypes.More res = false ->
    pagesFrom f cursor [res]
| pagesMore (cursor : string) (res : coretypes.ResultEvents)
    (rest : list coretypes.ResultEvents) :
    Events f cursor = inl res -> coretypes.More res = true ->
    pagesFrom f (coretypes.Newest res) rest ->
    pagesFrom f cursor (res :: rest).

(** The newest cursor of the last page of a list, [cursor] for no page. *)
Definition lastCursor (cursor : string) (pages : list coretypes.ResultEvents) : string :=
  default cursor (coretypes.Newest <$> last pages).

(** Every registered filter points to a timer of the heap whose record is
    armed, with nothing in its channel, and no two filters point to the
    same timer.  The record is the state in which the last operation on
    the timer left it; [timer.fire] gives the state of the timer at a
    later time. *)
Definition allArmed (a : FilterAPI) : Prop :=
  (forall id flt,
     filters a !! id = Some flt ->
     exists p t, deadline flt = Some p /\ timers a !! p = Some t
                 /\ timer.active t = true /\ timer.C t = None)
  /\ (forall id1 id2 flt1 flt2,
        filters a !! id1 = Some flt1 -> filters a !! id2 = Some flt2 ->
        deadline flt1 = deadline flt2 -> id1 = id2).

(** The time at which the timer of a filter is to fire. *)
Definition deadlineAt (a : FilterAPI) (flt : filter) : option Z :=
  p ← deadline flt; t ← timers a !! p; Some (timer.when t).

(** The registered IDs lie between 1 and the counter. *)
Definition idsBelowCounter (a : FilterAPI) : Prop :=
  forall id, is_Some (filters a !! id) -> (1 <= id < nextFilterID a)%N.

(** What is asked of [utils.Filter]: it returns only elements that the
    predicate accepts. *)
Definition FilterSound (H : Helpers) : Prop :=
  forall l p, Forall (fun x => p x = true) (Filter l p).

(** A block stream that always has more: every page holds one block and
    says that more are to come. *)
Definition endlessChain : LogFetcher := {|
  blockByHashWithRetry := fun hash => inl (coretypes.mkResultBlock hash (Z.of_N hash));
  blockWithRetry := fun height => inl (coretypes.mkResultBlock (Z.to_N height) height);
  Events := fun cursor => inl (coretypes.mkResultEvents [inl 5%N] true cursor);
  BlockHeight := 0;
  GetBlockBloom := fun _ => 0%N;
  GetTxHashesOnHeight := fun height => [Z.to_N height];
  GetReceipt := fun hash => inl (sampleReceipt hash)
|}.

(** A block stream of two pages: the blocks 5 and 6 with more to come,
    then the block 7. *)
Definition twoPageChain : LogFetcher := {|
  blockByHashWithRetry := fun hash => inl (coretypes.mkResultBlock hash (Z.of_N hash));
  blockWithRetry := fun height => inl (coretypes.mkResultBlock (Z.to_N height) height);
  Events := fun cursor =>
    if String.eqb cursor ""
    then inl (coretypes.mkResultEvents [inl 5%N; inl 6%N] true "p1")
    else inl (coretypes.mkResultEvents [inl 7%N] false "p2");
  BlockHeight := 0;
  GetBlockBloom := fun _ => 0%N;
  GetTxHashesOnHeight := fun height => [Z.to_N height];
  GetReceipt := fun hash => inl (sampleReceipt hash)
|}.

(** A registry with timeout 100 and the blocks filter 1, created at time
    0. *)
Definition oneBlockFilter : FilterAPI := (NewBlockFilter 0 (NewFilterAPI 100)).2.

(** Criteria by the hash of block 5, and criteria up to a block tag. *)
Definition byHashFive : filters.FilterCriteria :=
  filters.mkCriteria (Some 5%N) None None [] [].

Definition upToTag : filters.FilterCriteria :=
  filters.mkCriteria None None (Some (-2)) [] [].

(** The registry with the by-hash filter 1 after its first poll, at time
    5 on the sample chain. *)
Definition hashFilterPolled : FilterAPI :=
  mkFilterAPI 2 {[ 1%N := mkFilter LogsSubscription byHashFive (Some 0%nat) "" 6 ]}
              [timer.mkTimer true 105 None] 100.

(** The registries with one filter, created at time 0: by the hash of
    block 5, and up to block 2. *)
Definition hashFilter : FilterAPI := (NewFilter 0 (NewFilterAPI 100) byHashFive).2.



(** The two kinds of filter that the registry creates: a logs filter,
    which has no block cursor, and a block filter, which has the zero
    criteria. *)
Definition wellTyped (flt : filter) : Prop :=
  (typ flt = LogsSubscription /\ blockCursor flt = "")
  \/ (typ flt = BlocksSubscription /\ fc flt = filters.mkCriteria None None None [] []).

(** Criteria on one address and two topic positions, and wider ones. *)
Definition narrowCriteria : filters.FilterCriteria :=
  filters.mkCriteria None None None [18%N] [[291%N]; [1110%N]].

Definition wideCriteria : filters.FilterCriteria :=
  filters.mkCriteria None None None [17%N; 18%N] [[291%N; 292%N]].

(** The state at time [now] of a timer that was armed and has been
    neither stopped nor drained since: armed with an empty channel before
    its deadline, fired with its value in the channel from the deadline
    on. *)
Definition pending (now : Z) (t : timer.Timer) : Prop :=
  (now < timer.when t
   /\ timer.fire now t = timer.mkTimer true (timer.when t) None)
  \/ (timer.when t <= now
      /\ timer.fire now t = timer.mkTimer false (timer.when t) (Some (timer.when t))).

(** ** The request boundary *)

(** Modelled from the spec: the validation of the criteria of a newFilter
    request.  It is not in filter.go: [NewFilter] has no check and no
    error path, and the package's test of the request expects the error.
    The spec places the check before the registry (validation occurs
    before entering the registry, a boundary concern) and says of the
    block hash that it is mutually exclusive with fromBlock/toBlock,
    supplying both is an error; the error is its ValidationError,
    contradictory filter criteria.  A range is given when [FromBlock] or
    [ToBlock] is. *)
Definition ValidationError : error := "contradictory filter criteria".

Definition validateCriteria (crit : filters.FilterCriteria) : option error :=
  match filters.BlockHash crit with
  | Some _ =>
      match filters.FromBlock crit, filters.ToBlock crit with
      | None, None => None
      | _, _ => Some ValidationError
      end
  | None => None
  end.

(** Modelled from the spec: the newFilter request.  Criteria that fail
    the validation are turned down, no ID is returned and the filter is
    never registered; valid criteria go to [NewFilter]. *)
Definition newFilter (now : Z) (a : FilterAPI) (crit : filters.FilterCriteria)
  : option N * option error * FilterAPI :=
  match validateCriteria crit with
  | Some err => (None, Some err, a)
  | None => let '(id, err, a) := NewFilter now a crit in (Some id, err, a)
  end.

(** * Properties *)

(** ** Exact match *)

Lemma topicListMatches_elem_of (topicList : list common.Hash) (eventTopic : common.Hash) :
  topicListMatches topicList eventTopic = true <-> eventTopic ∈ topicList.
Proof.
  induction topicList as [|topic rest IH]; simpl.
  - split; [discriminate | intros Hin; inversion Hin].
  - destruct (N.eqb_spec topic eventTopic) as [->|Hne].
    + split; [intros _; left | reflexivity].
    + rewrite IH. split; [intros Hin; now right |].
      intros Hin. inversion Hin; subst; [congruence | assumption].
Qed.

Lemma addressLoop_elem_of (addrMatch : bool) (addresses : list common.Address)
  (logAddress : common.Address) :
  addressLoop addrMatch addresses logAddress = true
  <-> addrMatch = true \/ logAddress ∈ addresses.
Proof.
  induction addresses as [|addrFilter rest IH]; simpl.
  - split; [intros ->; now left | intros [Hb|Hin]; [assumption | inversion Hin]].
  - destruct (N.eqb_spec logAddress addrFilter) as [->|Hne].
    + split; [intros _; right; left | reflexivity].
    + rewrite IH. split; intros [Hb|Hin]; auto.
      * right. now right.
      * inversion Hin; subst; [congruence | now right].
Qed.

Lemma matchTopicsFrom_positions (i : nat) (topics : list (list common.Hash))
  (eventTopics : list common.Hash) :
  matchTopicsFrom i topics eventTopics = true
  <-> forall (j : nat) (topicList : list common.Hash),
        topics !! j = Some topicList -> topicList <> [] ->
        exists eventTopic, eventTopics !! (i + j)%nat = Some eventTopic
                           /\ eventTopic ∈ topicList.
Proof.
  revert i. induction topics as [|topicList rest IH]; intros i; simpl.
  - split; [intros _ j tl Hj; discriminate | reflexivity].
  - assert (Hshift : (forall (j : nat) (tl : list common.Hash),
               rest !! j = Some tl -> tl <> [] ->
               exists eventTopic, eventTopics !! (S i + j)%nat = Some eventTopic
                                  /\ eventTopic ∈ tl)
            <-> (forall (j : nat) (tl : list common.Hash),
               (topicList :: rest) !! S j = Some tl -> tl <> [] ->
               exists eventTopic, eventTopics !! (i + S j)%nat = Some eventTopic
                                  /\ eventTopic ∈ tl)).
    { split; intros Hall j tl Hj Hne.
      - replace (i + S j)%nat with (S i + j)%nat by lia. now apply Hall.
      - replace (S i + j)%nat with (i + S j)%nat by lia. now apply Hall. }
    destruct topicList as [|topic tl0].
    + simpl. rewrite IH, Hshift. split.
      * intros Hall [|j] tl Hj Hne; [simpl in Hj; congruence | now apply Hall].
      * intros Hall j tl Hj Hne. now apply Hall.
    + cbn [length Nat.eqb].
      destruct (Nat.leb_spec (length eventTopics) i) as [Hshort|Hlong].
      * split; [discriminate |]. intros Hall.
        destruct (Hall 0%nat (topic :: tl0) eq_refl) as (t & Ht & _); [discriminate |].
        apply lookup_lt_Some in Ht. lia.
      * destruct (eventTopics !! i) as [eventTopic|] eqn:Hi.
        2:{ apply lookup_ge_None in Hi. lia. }
        destruct (topicListMatches (topic :: tl0) eventTopic) eqn:Hm.
        -- apply topicListMatches_elem_of in Hm.
           rewrite IH, Hshift. split.
           ++ intros Hall [|j] tl Hj Hne; [| now apply Hall].
              simpl in Hj. injection Hj as <-. exists eventTopic.
              now rewrite Nat.add_0_r.
           ++ intros Hall j tl Hj Hne. now apply Hall.
        -- split; [discriminate |]. intros Hall.
           destruct (Hall 0%nat (topic :: tl0) eq_refl) as (t & Ht & Hin); [discriminate |].
           rewrite Nat.add_0_r, Hi in Ht. injection Ht as <-.
           apply topicListMatches_elem_of in Hin. congruence.
Qed.

(** C5.  [IsLogExactMatch log crit] is true exactly when the address set of
    the criteria is empty or holds the log's address, and, at every topic
    position whose accepted set is not empty, the log has a topic at that
    position and it is one of the accepted values (a position beyond the
    log's topics fails the match, an empty position accepts any log). *)
Theorem IsLogExactMatch_iff (log : ethtypes.Log) (crit : filters.FilterCriteria) :
  IsLogExactMatch log crit = true
  <-> (filters.Addresses crit = [] \/ ethtypes.Address log ∈ filters.Addresses crit)
      /\ (forall (i : nat) (topicList : list common.Hash),
            filters.Topics crit !! i = Some topicList -> topicList <> [] ->
            exists topic, ethtypes.Topics log !! i = Some topic /\ topic ∈ topicList).
Proof.
  unfold IsLogExactMatch, matchTopics.
  rewrite andb_true_iff, addressLoop_elem_of, matchTopicsFrom_positions.
  apply and_iff_compat_r.
  destruct (filters.Addresses crit) as [|addr rest]; simpl.
  - split; [now left | intros _; now left].
  - split; intros [Hd|Hin]; try discriminate; now right.
Qed.

(** The scenarios of the package's tests: a wildcard at the first topic
    position, a log with too few topics, and the address set. *)
Example IsLogExactMatch_wildcard_first_topic :
  IsLogExactMatch (ethtypes.mkLog 17 [291; 1110] [] 2 0 0 0 0 false)%N
    (filters.mkCriteria None None None [] [[]; [1110%N]]) = true.
Proof. reflexivity. Qed.

Example IsLogExactMatch_too_few_topics :
  IsLogExactMatch (ethtypes.mkLog 17 [291] [] 2 0 0 0 0 false)%N
    (filters.mkCriteria None None None [] [[]; [1110%N]]) = false.
Proof. reflexivity. Qed.

Example IsLogExactMatch_address_set :
  IsLogExactMatch (ethtypes.mkLog 17 [291] [] 2 0 0 0 0 false)%N
    (filters.mkCriteria None None None [18; 17]%N [[291%N]]) = true
  /\ IsLogExactMatch (ethtypes.mkLog 17 [291] [] 2 0 0 0 0 false)%N
       (filters.mkCriteria None None None [18; 19]%N [[291%N]]) = false.
Proof. split; reflexivity. Qed.

(** ** Logs of one block *)

Section BlockLogs.
Context `{H : Helpers}.

Lemma renumberFrom_lookup (i : nat) (blockHash : common.Hash)
  (matchedLogs : list ethtypes.Log) (j : nat) :
  renumberFrom i blockHash matchedLogs !! j
  = (fun l => ethtypes.setIndex (N.of_nat (i + j)) (ethtypes.setBlockHash blockHash l))
      <$> matchedLogs !! j.
Proof.
  revert i j. induction matchedLogs as [|l rest IH]; intros i j; simpl.
  - reflexivity.
  - destruct j as [|j]; simpl.
    + now rewrite Nat.add_0_r.
    + rewrite IH. now replace (S i + j)%nat with (i + S j)%nat by lia.
Qed.

Lemma renumberFrom_length (i : nat) (blockHash : common.Hash)
  (matchedLogs : list ethtypes.Log) :
  length (renumberFrom i blockHash matchedLogs) = length matchedLogs.
Proof.
  revert i. induction matchedLogs as [|l rest IH]; intros i; simpl; [reflexivity|].
  now rewrite IH.
Qed.

(** C9.  Every log that [GetLogsForBlock] returns carries the hash of the
    fetched block in [BlockHash] and its position in the returned list
    in [Index], whatever the receipt had stored there. *)
Theorem GetLogsForBlock_renumbered (f : LogFetcher) (block : coretypes.ResultBlock)
  (crit : filters.FilterCriteria) (filters : list (list bloomIndexes))
  (i : nat) (l : ethtypes.Log) :
  GetLogsForBlock f block crit filters !! i = Some l ->
  ethtypes.BlockHash l = coretypes.BlockID_Hash block
  /\ ethtypes.Index l = N.of_nat i.
Proof.
  unfold GetLogsForBlock. rewrite renumberFrom_lookup.
  destruct (Filter _ _ !! i) as [l0|]; simpl; [|discriminate].
  intros [= <-]. split; reflexivity.
Qed.

(** The returned list is the list of the exactly matching logs, one for
    one. *)
Lemma GetLogsForBlock_length (f : LogFetcher) (block : coretypes.ResultBlock)
  (crit : filters.FilterCriteria) (filters : list (list bloomIndexes)) :
  length (GetLogsForBlock f block crit filters)
  = length (Filter (FindLogsByBloom f (coretypes.Block_Height block) filters)
                   (fun l => IsLogExactMatch l crit)).
Proof. apply renumberFrom_length. Qed.

Lemma FindLogsByBloomLoop_bind (f : LogFetcher) (filters : list (list bloomIndexes))
  (txHashes : list common.Hash) (res : list ethtypes.Log) :
  FindLogsByBloomLoop f filters txHashes res
  = res ++ (txHashes ≫= txLogs f filters).
Proof.
  revert res. induction txHashes as [|hash rest IH]; intros res; simpl.
  - now rewrite app_nil_r.
  - unfold txLogs at 1.
    destruct (GetReceipt f hash) as [receipt|err]; simpl.
    + destruct (MatchFilters _ _); rewrite IH; [now rewrite app_assoc | reflexivity].
    + apply IH.
Qed.
End BlockLogs.

Lemma GetLogsForBlock_renumbered_witness :
  GetLogsForBlock (H := sampleHelpers) (sampleChain 3)
    (coretypes.mkResultBlock 77%N 2) anyCriteria [] !! 1%nat
  = Some (ethtypes.mkLog 18 [291] [] 0 0 2 77 1 false)%N
  /\ ethtypes.BlockHash (ethtypes.mkLog 18 [291] [] 0 0 2 77 1 false)%N = 77%N
  /\ ethtypes.Index (ethtypes.mkLog 18 [291] [] 0 0 2 77 1 false)%N = 1%N.
Proof.
  split; [reflexivity |].
  apply (GetLogsForBlock_renumbered (H := sampleHelpers) (sampleChain 3)
           (coretypes.mkResultBlock 77%N 2) anyCriteria [] 1).
  reflexivity.
Defined.

(** ** The scan of the block blooms *)

(** Bounds of [int64] values: unfold the range and leave it to [lia]. *)
Ltac int64_range :=
  unfold Int64.InRange, Int64.Min, Int64.Max in *; simpl; lia.

Lemma Int64_wrap_InRange (z : Z) : Int64.InRange (Int64.wrap z).
Proof.
  unfold Int64.InRange, Int64.wrap, Int64.Min, Int64.Max.
  pose proof (Z.mod_pos_bound (z + 2 ^ 63) (2 ^ 64) ltac:(lia)). lia.
Qed.

Lemma Int64_wrap_id (z : Z) : Int64.InRange z -> Int64.wrap z = z.
Proof.
  unfold Int64.InRange, Int64.wrap, Int64.Min, Int64.Max. intros Hz.
  rewrite Z.mod_small; lia.
Qed.

Lemma Int64_wrap_succ (z : Z) :
  Int64.InRange z -> z < Int64.Max -> Int64.wrap (z + 1) = z + 1.
Proof.
  intros Hz Hlt. apply Int64_wrap_id. unfold Int64.InRange in *. lia.
Qed.

Section Scan.
Context `{H : Helpers}.

(** With an upper bound at the largest [int64] the loop condition can
    never fail: the scan does not return. *)
Lemma FindBlockesByBloomLoop_never_exits (fuel : nat) (f : LogFetcher)
  (height end_ : Z) (filters : list (list bloomIndexes)) (res : list Z) :
  Int64.InRange height -> Int64.Max <= end_ ->
  FindBlockesByBloomLoop fuel f height end_ filters res = None.
Proof.
  revert height res. induction fuel as [|fuel IH]; intros height res Hh He; simpl.
  - reflexivity.
  - destruct (Z.leb_spec height end_) as [_|Hgt].
    + apply IH; [apply Int64_wrap_InRange | assumption].
    + unfold Int64.InRange in Hh. lia.
Qed.

Lemma candidateHeights_nil (f : LogFetcher) (filters : list (list bloomIndexes))
  (begin end_ : Z) : end_ < begin -> candidateHeights f filters begin end_ = [].
Proof. intros Hlt. unfold candidateHeights. rewrite seqZ_nil by lia. reflexivity. Qed.

Lemma candidateHeights_cons (f : LogFetcher) (filters : list (list bloomIndexes))
  (begin end_ : Z) :
  begin <= end_ ->
  candidateHeights f filters begin end_
  = (if MatchFilters (GetBlockBloom f begin) filters then [begin] else [])
      ++ candidateHeights f filters (begin + 1) end_.
Proof.
  intros Hle. unfold candidateHeights. rewrite seqZ_cons by lia. simpl.
  replace (Z.pred (end_ - begin + 1)) with (end_ - (begin + 1) + 1) by lia.
  replace (Z.succ begin) with (begin + 1) by lia.
  destruct (MatchFilters _ _); reflexivity.
Qed.

(** When the loop returns, it returns the matching heights of
    [height .. end_], appended to [res]. *)
Lemma FindBlockesByBloomLoop_result (fuel : nat) (f : LogFetcher)
  (height end_ : Z) (filters : list (list bloomIndexes)) (res out : list Z) :
  Int64.InRange height ->
  FindBlockesByBloomLoop fuel f height end_ filters res = Some out ->
  out = res ++ candidateHeights f filters height end_
  /\ (height <= end_ -> end_ < Int64.Max).
Proof.
  revert height res. induction fuel as [|fuel IH]; intros height res Hh; simpl.
  - discriminate.
  - destruct (Z.leb_spec height end_) as [Hle|Hgt].
    + intros Hout.
      destruct (Z.le_gt_cases Int64.Max end_) as [Hmax|Hlt].
      { rewrite FindBlockesByBloomLoop_never_exits in Hout;
          [discriminate | apply Int64_wrap_InRange | assumption]. }
      rewrite Int64_wrap_succ in Hout by (assumption || lia).
      apply IH in Hout; [| unfold Int64.InRange in *; lia].
      destruct Hout as [-> _]. split; [| intros _; assumption].
      rewrite (candidateHeights_cons f filters height end_ Hle).
      destruct (MatchFilters _ _); simpl; [now rewrite <- app_assoc | reflexivity].
    + intros [= <-]. split; [| lia].
      rewrite candidateHeights_nil by lia. now rewrite app_nil_r.
Qed.

(** Below the largest [int64] the loop exits after one test per height
    and one more. *)
Lemma FindBlockesByBloomLoop_returns (fuel : nat) (f : LogFetcher)
  (height end_ : Z) (filters : list (list bloomIndexes)) (res : list Z) :
  Int64.InRange height -> end_ < Int64.Max ->
  (Z.to_nat (end_ - height + 1) < fuel)%nat ->
  FindBlockesByBloomLoop fuel f height end_ filters res
  = Some (res ++ candidateHeights f filters height end_).
Proof.
  revert height res. induction fuel as [|fuel IH]; intros height res Hh He Hfuel; simpl.
  - lia.
  - destruct (Z.leb_spec height end_) as [Hle|Hgt].
    + rewrite Int64_wrap_succ by (assumption || lia).
      rewrite IH by (unfold Int64.InRange in *; lia).
      rewrite (candidateHeights_cons f filters height end_ Hle).
      destruct (MatchFilters _ _); simpl; [now rewrite <- app_assoc | reflexivity].
    + rewrite candidateHeights_nil by lia. now rewrite app_nil_r.
Qed.

Lemma candidateHeights_bounds (f : LogFetcher) (filters : list (list bloomIndexes))
  (begin end_ : Z) :
  Forall (fun h => begin <= h <= end_) (candidateHeights f filters begin end_).
Proof.
  unfold candidateHeights. apply Forall_forall. intros h Hin.
  apply list_elem_of_In, filter_In in Hin as [Hin _].
  apply list_elem_of_In, elem_of_seqZ in Hin. lia.
Qed.

Lemma candidateHeights_sorted (f : LogFetcher) (filters : list (list bloomIndexes))
  (begin end_ : Z) :
  StronglySorted Z.lt (candidateHeights f filters begin end_).
Proof.
  remember (Z.to_nat (end_ - begin + 1)) as n eqn:Hn.
  revert begin Hn. induction n as [|n IH]; intros begin Hn.
  - rewrite candidateHeights_nil by lia. constructor.
  - rewrite candidateHeights_cons by lia.
    pose proof (candidateHeights_bounds f filters (begin + 1) end_) as Hb.
    destruct (MatchFilters _ _); simpl; [| apply IH; lia].
    constructor; [apply IH; lia |].
    eapply Forall_impl; [exact Hb |]. simpl. intros h Hh. lia.
Qed.

(** C10.  With [begin = 0] and [end] the largest [int64], which is a
    pair with [begin <= end], [FindBlockesByBloom] returns no list at all,
    however long it runs: [height <= end] holds for every [int64] and
    [height++] wraps around. *)
Theorem FindBlockesByBloom_MaxInt64_never_returns (fuel : nat) (f : LogFetcher)
  (filters : list (list bloomIndexes)) :
  FindBlockesByBloom fuel f 0 Int64.Max filters = None.
Proof.
  unfold FindBlockesByBloom. apply FindBlockesByBloomLoop_never_exits.
  - int64_range.
  - lia.
Qed.

(** For every other upper bound the claim holds: with fuel for one test
    per height and one more the scan returns, and what it returns are the
    matching heights in strictly increasing order. *)
Lemma FindBlockesByBloom_increasing (fuel : nat) (f : LogFetcher) (begin end_ : Z)
  (filters : list (list bloomIndexes)) :
  Int64.InRange begin -> end_ < Int64.Max ->
  (Z.to_nat (end_ - begin + 1) < fuel)%nat ->
  FindBlockesByBloom fuel f begin end_ filters
  = Some (candidateHeights f filters begin end_)
  /\ StronglySorted Z.lt (candidateHeights f filters begin end_).
Proof.
  intros Hb He Hfuel. split.
  - unfold FindBlockesByBloom. now rewrite FindBlockesByBloomLoop_returns.
  - apply candidateHeights_sorted.
Qed.
End Scan.

(** ** Fetch failures *)

Section Failures.
Context `{H : Helpers}.

Lemma GetLogsByFiltersLoop_result (f : LogFetcher) (crit : filters.FilterCriteria)
  (end_ : Z) (blockHeights : list Z) (res logs : list ethtypes.Log) (h : Z) :
  GetLogsByFiltersLoop f crit
    (EncodeFilters (filters.Addresses crit) (filters.Topics crit))
    end_ blockHeights res = (logs, h, None) ->
  logs = res ++ (blockHeights ≫= blockLogs f crit) /\ h = end_.
Proof.
  revert res. induction blockHeights as [|height rest IH]; intros res; simpl.
  - intros [= <- <-]. now rewrite app_nil_r.
  - unfold blockLogs at 1.
    destruct (blockWithRetry f height) as [block|err]; [|discriminate].
    intros Hloop. apply IH in Hloop as [-> ->]. now rewrite app_assoc.
Qed.

Lemma GetLogsByFiltersLoop_error (f : LogFetcher) (crit : filters.FilterCriteria)
  (idx : list (list bloomIndexes)) (end_ : Z) (blockHeights : list Z)
  (res logs : list ethtypes.Log) (h : Z) (err : error) :
  GetLogsByFiltersLoop f crit idx end_ blockHeights res = (logs, h, Some err) ->
  logs = [] /\ h = 0
  /\ exists height, height ∈ blockHeights /\ blockWithRetry f height = inr err.
Proof.
  revert res. induction blockHeights as [|height rest IH]; intros res; simpl.
  - discriminate.
  - destruct (blockWithRetry f height) as [block|err'] eqn:Hblock.
    + intros Hloop. apply IH in Hloop as (-> & -> & height' & Hin & Herr).
      repeat split. exists height'. split; [now right | assumption].
    + intros [= <- <- <-]. repeat split. exists height. split; [left | assumption].
Qed.

Lemma GetLogsByFiltersLoop_aborts (f : LogFetcher) (crit : filters.FilterCriteria)
  (idx : list (list bloomIndexes)) (end_ : Z) (blockHeights : list Z)
  (res : list ethtypes.Log) (height : Z) (err : error) :
  height ∈ blockHeights -> blockWithRetry f height = inr err ->
  exists err', GetLogsByFiltersLoop f crit idx end_ blockHeights res = ([], 0, Some err').
Proof.
  intros Hin Herr. revert res.
  induction blockHeights as [|height' rest IH]; intros res; simpl.
  - inversion Hin.
  - destruct (blockWithRetry f height') as [block|err'] eqn:Hblock.
    + apply IH. inversion Hin; subst; [congruence | assumption].
    + now exists err'.
Qed.

(** C1, as the code has it.  An error of [GetLogsByFilters] is the error
    of a block fetch, and comes with a nil log list and height 0; a block
    that cannot be fetched, by hash or at a candidate height, makes the
    call end so.  A receipt that cannot be read does not: the logs of a
    height are those of its transactions with a readable receipt and a
    matching bloom, an unreadable receipt contributes none, and the call
    by hash on a fetched block returns its logs with no error. *)
Theorem GetLogsByFilters_fetch_failures (fuel : nat) (f : LogFetcher)
  (crit : filters.FilterCriteria) (lastToHeight_ : Z) :
  (forall logs h err,
     GetLogsByFilters fuel f crit lastToHeight_ = Some (logs, h, Some err) ->
     logs = [] /\ h = 0
     /\ ((exists blockHash, filters.BlockHash crit = Some blockHash
                            /\ blockByHashWithRetry f blockHash = inr err)
         \/ (filters.BlockHash crit = None
             /\ exists height, blockWithRetry f height = inr err)))
  /\ (forall blockHash err,
        filters.BlockHash crit = Some blockHash ->
        blockByHashWithRetry f blockHash = inr err ->
        GetLogsByFilters fuel f crit lastToHeight_ = Some ([], 0, Some err))
  /\ (forall blockHeights height err,
        filters.BlockHash crit = None ->
        FindBlockesByBloom fuel f (scanRange f crit lastToHeight_).1
          (scanRange f crit lastToHeight_).2
          (EncodeFilters (filters.Addresses crit) (filters.Topics crit))
        = Some blockHeights ->
        height ∈ blockHeights -> blockWithRetry f height = inr err ->
        exists err',
          GetLogsByFilters fuel f crit lastToHeight_ = Some ([], 0, Some err'))
  /\ (forall height filters,
        FindLogsByBloom f height filters
        = GetTxHashesOnHeight f height ≫= txLogs f filters)
  /\ (forall hash filters err,
        GetReceipt f hash = inr err -> txLogs f filters hash = [])
  /\ (forall blockHash block,
        filters.BlockHash crit = Some blockHash ->
        blockByHashWithRetry f blockHash = inl block ->
        GetLogsByFilters fuel f crit lastToHeight_
        = Some (GetLogsForBlock f block crit
                  (EncodeFilters (filters.Addresses crit) (filters.Topics crit)),
                coretypes.Block_Height block, None)).
Proof.
  repeat apply conj.
  - intros logs h err. unfold GetLogsByFilters.
    destruct (filters.BlockHash crit) as [blockHash|] eqn:Hhash.
    + destruct (blockByHashWithRetry f blockHash) as [block|err'] eqn:Hblock.
      * discriminate.
      * intros [= <- <- <-]. repeat split. left. now exists blockHash.
    + destruct (FindBlockesByBloom _ _ _ _ _) as [blockHeights|]; simpl; [|discriminate].
      intros [= Hloop]. apply GetLogsByFiltersLoop_error in Hloop
        as (-> & -> & height & _ & Herr).
      repeat split. right. split; [reflexivity | now exists height].
  - intros blockHash err Hhash Hblock. unfold GetLogsByFilters.
    now rewrite Hhash, Hblock.
  - intros blockHeights height err Hhash Hscan Hin Herr. unfold GetLogsByFilters.
    rewrite Hhash.
    change (if lastToHeight_ >? _ then lastToHeight_ else _)
      with (scanRange f crit lastToHeight_).1.
    change (match filters.ToBlock crit with Some _ => _ | None => _ end)
      with (scanRange f crit lastToHeight_).2.
    rewrite Hscan.
    destruct (GetLogsByFiltersLoop_aborts f crit
                (EncodeFilters (filters.Addresses crit) (filters.Topics crit))
                (scanRange f crit lastToHeight_).2 blockHeights [] height err Hin Herr)
      as [err' Hloop].
    exists err'. cbn [mbind option_bind]. now rewrite Hloop.
  - intros height filters. unfold FindLogsByBloom.
    now rewrite FindLogsByBloomLoop_bind.
  - intros hash filters err Herr. unfold txLogs. now rewrite Herr.
  - intros blockHash block Hhash Hblock. unfold GetLogsByFilters.
    now rewrite Hhash, Hblock.
Qed.
End Failures.

Lemma GetLogsByFilters_fetch_failures_witness :
  GetLogsByFilters (H := sampleHelpers) 5 (brokenChain 3) anyCriteria 0
  = Some ([], 0, Some "block unavailable")
  /\ ([] : list ethtypes.Log) = [] /\ 0 = 0
  /\ ((exists blockHash, filters.BlockHash anyCriteria = Some blockHash
                         /\ blockByHashWithRetry (brokenChain 3) blockHash
                            = inr "block unavailable")
      \/ (filters.BlockHash anyCriteria = None
          /\ exists height, blockWithRetry (brokenChain 3) height
                            = inr "block unavailable")).
Proof.
  split; [reflexivity |].
  apply (proj1 (GetLogsByFilters_fetch_failures (H := sampleHelpers)
                  5 (brokenChain 3) anyCriteria 0)).
  reflexivity.
Defined.

(** C1 fails for receipts: the block at height 1 holds the transaction 10,
    whose receipt cannot be read, and the scan still returns the logs of
    the transaction 11 with no error. *)
Lemma GetLogsByFilters_lost_receipt :
  10%N ∈ GetTxHashesOnHeight lostReceiptChain 1
  /\ GetReceipt lostReceiptChain 10%N = inr "receipt not found"
  /\ GetLogsByFilters (H := sampleHelpers) 5 lostReceiptChain anyCriteria 0
     = Some ([ethtypes.mkLog 17 [291; 1110] [] 0 0 11 7 0 false;
              ethtypes.mkLog 18 [291] [] 0 0 11 7 1 false]%N, 1, None).
Proof.
  split; [left | split; reflexivity].
Qed.

(** ** The registry: deadlines and errors *)

Lemma resetDeadline_spec (now : Z) (a a' : FilterAPI) (flt : filter) :
  resetDeadline now a flt = Some a' ->
  filters a' = filters a /\ nextFilterID a' = nextFilterID a
  /\ timeout a' = timeout a
  /\ exists p, deadline flt = Some p /\ armedAt a' p (now + timeout a).
Proof.
  unfold resetDeadline.
  destruct (deadline flt) as [p|]; simpl; [|discriminate].
  destruct (timers a !! p) as [t|] eqn:Ht; simpl; [|discriminate].
  apply lookup_lt_Some in Ht.
  destruct (timer.active (timer.fire now t)); simpl.
  - intros [= <-]. simpl. repeat split. exists p. split; [reflexivity|].
    unfold armedAt. eexists. simpl.
    rewrite list_lookup_insert_eq by assumption. repeat split.
  - destruct (timer.receive _) as [t'|]; simpl; [|discriminate].
    intros [= <-]. simpl. repeat split. exists p. split; [reflexivity|].
    unfold armedAt. eexists. simpl.
    rewrite list_lookup_insert_eq by assumption. repeat split.
Qed.

Section Errors.
Context `{H : Helpers}.

(** What a returning [GetFilterChanges] on a registered filter has done:
    the deadline was reset first, and then either nothing else changed
    or one entry of the map was written. *)
Lemma GetFilterChanges_inv (fuel : nat) (f : LogFetcher) (now : Z)
  (a a' : FilterAPI) (filterID : N) (flt : filter)
  (v : changes) (err : option error) :
  filters a !! filterID = Some flt ->
  GetFilterChanges fuel f now a filterID = Some (v, err, a') ->
  exists a1, resetDeadline now a flt = Some a1 /\ timers a' = timers a1
    /\ nextFilterID a' = nextFilterID a1
    /\ ((filters a' = filters a1)
        \/ (err = None /\ exists flt', filters a' = <[filterID := flt']> (filters a1))).
Proof.
  intros Hflt. unfold GetFilterChanges. rewrite Hflt.
  destruct (resetDeadline now a flt) as [a1|]; simpl; [|discriminate].
  intros Hcall. exists a1. split; [reflexivity|].
  destruct (typ flt).
  - injection Hcall as <- <- <-. auto.
  - destruct (_ && _); [injection Hcall as <- <- <-; auto|].
    destruct (match filters.ToBlock (fc flt) with Some _ => _ | None => _ end);
      [injection Hcall as <- <- <-; auto|].
    destruct (GetLogsByFilters _ _ _ _) as [[[logs E] [e|]]|]; simpl in Hcall;
      [| |discriminate]; injection Hcall as <- <- <-; simpl; eauto 6.
  - destruct (getBlockHeadersAfter _ _ _) as [[[hashes cursor] [e|]]|]; simpl in Hcall;
      [| |discriminate]; injection Hcall as <- <- <-; simpl; eauto 6.
Qed.

Lemma GetFilterLogs_inv (fuel : nat) (f : LogFetcher) (now : Z)
  (a a' : FilterAPI) (filterID : N) (flt : filter)
  (logs : list ethtypes.Log) (err : option error) :
  filters a !! filterID = Some flt ->
  GetFilterLogs fuel f now a filterID = Some (logs, err, a') ->
  exists a1, resetDeadline now a flt = Some a1 /\ timers a' = timers a1
    /\ nextFilterID a' = nextFilterID a1
    /\ ((filters a' = filters a1)
        \/ (err = None /\ exists flt', filters a' = <[filterID := flt']> (filters a1))).
Proof.
  intros Hflt. unfold GetFilterLogs. rewrite Hflt.
  destruct (resetDeadline now a flt) as [a1|]; simpl; [|discriminate].
  intros Hcall. exists a1. split; [reflexivity|].
  destruct (GetLogsByFilters _ _ _ _) as [[[logs' E] [e|]]|]; simpl in Hcall;
    [| |discriminate]; injection Hcall as <- <- <-; simpl; eauto 6.
Qed.

(** C6.  A [GetFilterChanges] or [GetFilterLogs] call on a registered
    filter that returns an error leaves the filter's entry as it was:
    [lastToHeight] and [blockCursor] keep their values, and a retry scans
    from the same height. *)
Theorem cursor_kept_on_error (fuel : nat) (f : LogFetcher) (now : Z)
  (a : FilterAPI) (filterID : N) (flt : filter) :
  filters a !! filterID = Some flt ->
  (forall v err a',
     GetFilterChanges fuel f now a filterID = Some (v, Some err, a') ->
     filters a' !! filterID = Some flt
     /\ lastToHeight (filterAt a' filterID) = lastToHeight flt
     /\ blockCursor (filterAt a' filterID) = blockCursor flt)
  /\ (forall logs err a',
        GetFilterLogs fuel f now a filterID = Some (logs, Some err, a') ->
        filters a' !! filterID = Some flt
        /\ lastToHeight (filterAt a' filterID) = lastToHeight flt
        /\ blockCursor (filterAt a' filterID) = blockCursor flt).
Proof.
  intros Hflt. split.
  - intros v err a' Hcall.
    destruct (GetFilterChanges_inv _ _ _ _ _ _ _ _ _ Hflt Hcall)
      as (a1 & Hreset & _ & _ & [Hsame|[Hnone _]]); [|discriminate].
    apply resetDeadline_spec in Hreset as (Hf & _).
    unfold filterAt. rewrite Hsame, Hf, Hflt. auto.
  - intros logs err a' Hcall.
    destruct (GetFilterLogs_inv _ _ _ _ _ _ _ _ _ Hflt Hcall)
      as (a1 & Hreset & _ & _ & [Hsame|[Hnone _]]); [|discriminate].
    apply resetDeadline_spec in Hreset as (Hf & _).
    unfold filterAt. rewrite Hsame, Hf, Hflt. auto.
Qed.

(** C3, as the code has it.  [GetFilterChanges] and [GetFilterLogs]
    reset the deadline of a registered filter before they fetch
    anything: after every call that returns, with or without an error,
    the filter's timer is armed to fire at now + timeout.  Only the call
    on an unknown ID leaves the registry, timers included, as it was. *)
Theorem deadline_reset_on_every_call (fuel : nat) (f : LogFetcher) (now : Z)
  (a : FilterAPI) (filterID : N) :
  (forall flt,
     filters a !! filterID = Some flt ->
     (forall v err a',
        GetFilterChanges fuel f now a filterID = Some (v, err, a') ->
        exists p, deadline flt = Some p /\ armedAt a' p (now + timeout a))
     /\ (forall logs err a',
           GetFilterLogs fuel f now a filterID = Some (logs, err, a') ->
           exists p, deadline flt = Some p /\ armedAt a' p (now + timeout a)))
  /\ (filters a !! filterID = None ->
      GetFilterChanges fuel f now a filterID
      = Some (Nil, Some "filter does not exist", a)
      /\ GetFilterLogs fuel f now a filterID
         = Some ([], Some "filter does not exist", a)).
Proof.
  split.
  - intros flt Hflt. split.
    + intros v err a' Hcall.
      destruct (GetFilterChanges_inv _ _ _ _ _ _ _ _ _ Hflt Hcall)
        as (a1 & Hreset & Htimers & _).
      apply resetDeadline_spec in Hreset as (_ & _ & _ & p & Hp & Harmed).
      exists p. unfold armedAt in *. now rewrite Htimers.
    + intros logs err a' Hcall.
      destruct (GetFilterLogs_inv _ _ _ _ _ _ _ _ _ Hflt Hcall)
        as (a1 & Hreset & Htimers & _).
      apply resetDeadline_spec in Hreset as (_ & _ & _ & p & Hp & Harmed).
      exists p. unfold armedAt in *. now rewrite Htimers.
  - intros Hnone. unfold GetFilterChanges, GetFilterLogs. now rewrite Hnone.
Qed.
End Errors.

Lemma cursor_kept_on_error_witness :
  filters oneFilter !! 1%N = Some oneFilterEntry
  /\ GetFilterChanges (H := sampleHelpers) 5 (brokenChain 3) 50 oneFilter 1
     = Some (Nil, Some "block unavailable",
             setTimers [timer.mkTimer true 150 None] oneFilter)
  /\ filters (setTimers [timer.mkTimer true 150 None] oneFilter) !! 1%N
     = Some oneFilterEntry
  /\ lastToHeight (filterAt (setTimers [timer.mkTimer true 150 None] oneFilter) 1)
     = lastToHeight oneFilterEntry
  /\ blockCursor (filterAt (setTimers [timer.mkTimer true 150 None] oneFilter) 1)
     = blockCursor oneFilterEntry.
Proof.
  split; [reflexivity |]. split; [reflexivity |].
  apply (proj1 (cursor_kept_on_error (H := sampleHelpers) 5 (brokenChain 3) 50
                  oneFilter 1 oneFilterEntry eq_refl)
           Nil "block unavailable").
  reflexivity.
Defined.

Lemma deadline_reset_on_every_call_witness :
  filters oneFilter !! 1%N = Some oneFilterEntry
  /\ GetFilterLogs (H := sampleHelpers) 5 (brokenChain 3) 50 oneFilter 1
     = Some ([], Some "block unavailable",
             setTimers [timer.mkTimer true 150 None] oneFilter)
  /\ exists p, deadline oneFilterEntry = Some p
               /\ armedAt (setTimers [timer.mkTimer true 150 None] oneFilter) p
                    (50 + timeout oneFilter).
Proof.
  split; [reflexivity |]. split; [reflexivity |].
  apply (proj2 (proj1 (deadline_reset_on_every_call (H := sampleHelpers) 5
                         (brokenChain 3) 50 oneFilter 1)
                  oneFilterEntry eq_refl)
           [] (Some "block unavailable")).
  reflexivity.
Defined.

(** C3 fails: the filter 1 was created at time 0 with timeout 100, so its
    timer is to fire at 100.  At time 50 the block fetch fails,
    [GetFilterChanges] and [GetFilterLogs] return the error, and the timer
    is to fire at 150. *)
Lemma deadline_reset_despite_error :
  timers oneFilter = [timer.mkTimer true 100 None]
  /\ (r ← GetFilterChanges (H := sampleHelpers) 5 (brokenChain 3) 50 oneFilter 1;
      Some (r.1, timers r.2))
     = Some (Nil, Some "block unavailable", [timer.mkTimer true 150 None])
  /\ (r ← GetFilterLogs (H := sampleHelpers) 5 (brokenChain 3) 50 oneFilter 1;
      Some (r.1, timers r.2))
     = Some ([], Some "block unavailable", [timer.mkTimer true 150 None]).
Proof. repeat split. Qed.

(** ** The registry: creation *)

(** [NewFilter] itself validates nothing: whatever the criteria, it
    returns the next filter ID with no error and registers a logs filter
    with these criteria.  Criteria that hold a block hash together with a
    block range are turned down before [NewFilter] is called. *)
Lemma NewFilter_registers_any_criteria (now : Z) (a : FilterAPI)
  (crit : filters.FilterCriteria) :
  (NewFilter now a crit).1 = (nextFilterID a, None)
  /\ filters (NewFilter now a crit).2 !! nextFilterID a
     = Some (mkFilter LogsSubscription crit (Some (length (timers a))) "" 0).
Proof.
  split; [reflexivity |]. simpl. apply lookup_insert_eq.
Qed.

(** C7.  A newFilter request whose criteria hold both a block hash and a
    block range ([FromBlock], [ToBlock] or both) is rejected with the
    validation error: no filter ID is returned and the registry is as it
    was, so that no filter is registered. *)
Theorem newFilter_rejects_hash_and_range (now : Z) (a : FilterAPI)
  (crit : filters.FilterCriteria) :
  is_Some (filters.BlockHash crit) ->
  is_Some (filters.FromBlock crit) \/ is_Some (filters.ToBlock crit) ->
  newFilter now a crit = (None, Some ValidationError, a).
Proof.
  intros [blockHash Hhash] Hrange. unfold newFilter, validateCriteria. rewrite Hhash.
  destruct Hrange as [[fromBlock ->]|[toBlock ->]]; [reflexivity |].
  now destruct (filters.FromBlock crit).
Qed.

(** Criteria without this conflict reach [NewFilter], which registers
    them under the next ID. *)
Lemma newFilter_registers_valid_criteria (now : Z) (a : FilterAPI)
  (crit : filters.FilterCriteria) :
  filters.BlockHash crit = None
  \/ (filters.FromBlock crit = None /\ filters.ToBlock crit = None) ->
  newFilter now a crit = (Some (nextFilterID a), None, (NewFilter now a crit).2)
  /\ filters (NewFilter now a crit).2 !! nextFilterID a
     = Some (mkFilter LogsSubscription crit (Some (length (timers a))) "" 0).
Proof.
  intros Hvalid. split; [| simpl; apply lookup_insert_eq].
  unfold newFilter, validateCriteria.
  destruct Hvalid as [->|[-> ->]]; [reflexivity |].
  now destruct (filters.BlockHash crit).
Qed.

(** The request of the package's test: the block hash 0xabc with the range
    1 to 2, on the empty registry. *)
Lemma newFilter_rejects_hash_and_range_witness :
  filters.BlockHash hashAndRange = Some 2748%N
  /\ filters.FromBlock hashAndRange = Some 1
  /\ filters.ToBlock hashAndRange = Some 2
  /\ newFilter 0 (NewFilterAPI 100) hashAndRange
     = (None, Some ValidationError, NewFilterAPI 100).
Proof.
  do 3 (split; [reflexivity |]).
  apply (newFilter_rejects_hash_and_range 0 (NewFilterAPI 100) hashAndRange).
  - now exists 2748%N.
  - left. now exists 1.
Defined.

(** ** The registry: cursors *)

Section Cursors.
Context `{H : Helpers}.

Lemma scanRange_begin_ge (f : LogFetcher) (crit : filters.FilterCriteria)
  (lastToHeight_ : Z) : lastToHeight_ <= (scanRange f crit lastToHeight_).1.
Proof.
  unfold scanRange. simpl.
  destruct (Z.gtb_spec lastToHeight_
              (match filters.FromBlock crit with
               | Some fromBlock => getHeightFromBigIntBlockNumber (BlockHeight f) fromBlock
               | None => 0
               end)); lia.
Qed.

Lemma scanRange_begin_InRange (f : LogFetcher) (crit : filters.FilterCriteria)
  (lastToHeight_ : Z) :
  HelpersInt64 H -> Int64.InRange lastToHeight_ ->
  Int64.InRange (scanRange f crit lastToHeight_).1.
Proof.
  intros Hint Hlast. unfold scanRange. simpl.
  destruct (_ >? _); [assumption |].
  destruct (filters.FromBlock crit); [apply Hint |].
  unfold Int64.InRange, Int64.Min, Int64.Max. lia.
Qed.

(** A successful scan without a block hash resolves to the end of its
    range, which is then below the largest [int64] unless the range is
    empty, and returns the logs of the candidate heights of the range, in
    the order of the heights. *)
Lemma GetLogsByFilters_range (fuel : nat) (f : LogFetcher)
  (crit : filters.FilterCriteria) (lastToHeight_ : Z)
  (logs : list ethtypes.Log) (E : Z) :
  filters.BlockHash crit = None ->
  Int64.InRange (scanRange f crit lastToHeight_).1 ->
  GetLogsByFilters fuel f crit lastToHeight_ = Some (logs, E, None) ->
  E = (scanRange f crit lastToHeight_).2
  /\ logs = candidateHeights f
              (EncodeFilters (filters.Addresses crit) (filters.Topics crit))
              (scanRange f crit lastToHeight_).1 E
            ≫= blockLogs f crit
  /\ ((scanRange f crit lastToHeight_).1 <= E -> E < Int64.Max).
Proof.
  intros Hhash Hrange. unfold GetLogsByFilters. rewrite Hhash.
  change (if lastToHeight_ >? _ then lastToHeight_ else _)
    with (scanRange f crit lastToHeight_).1.
  change (match filters.ToBlock crit with Some _ => _ | None => _ end)
    with (scanRange f crit lastToHeight_).2.
  destruct (FindBlockesByBloom _ _ _ _ _) as [blockHeights|] eqn:Hscan;
    simpl; [|discriminate].
  intros [= Hloop]. apply GetLogsByFiltersLoop_result in Hloop as [-> ->].
  apply FindBlockesByBloomLoop_result in Hscan as [-> Hmax]; [|assumption].
  repeat split; assumption.
Qed.

(** What a [GetFilterChanges] call that returns no error has done to the
    entry of its filter. *)
Lemma GetFilterChanges_success (fuel : nat) (f : LogFetcher) (now : Z)
  (a a' : FilterAPI) (filterID : N) (flt : filter) (v : changes) :
  filters a !! filterID = Some flt ->
  GetFilterChanges fuel f now a filterID = Some (v, None, a') ->
  (typ flt = BlocksSubscription
   /\ exists cursor,
        filters a' !! filterID
        = Some (mkFilter (typ flt) (fc flt) (deadline flt) cursor (lastToHeight flt)))
  \/ (typ flt = LogsSubscription /\ v = Nil /\ filters a' !! filterID = Some flt
      /\ (is_Some (filters.BlockHash (fc flt)) \/ is_Some (filters.ToBlock (fc flt))))
  \/ (typ flt = LogsSubscription
      /\ exists logs E,
           GetLogsByFilters fuel f (fc flt) (lastToHeight flt) = Some (logs, E, None)
           /\ v = Logs logs
           /\ filters a' !! filterID
              = Some (mkFilter (typ flt) (fc flt) (deadline flt) (blockCursor flt)
                               (Int64.wrap (E + 1)))).
Proof.
  intros Hflt. unfold GetFilterChanges. rewrite Hflt.
  destruct (resetDeadline now a flt) as [a1|] eqn:Hreset; simpl; [|discriminate].
  apply resetDeadline_spec in Hreset as (Hf & _).
  assert (Hat : filterAt a1 filterID = flt) by (unfold filterAt; now rewrite Hf, Hflt).
  destruct (typ flt) eqn:Htyp.
  - discriminate.
  - intros Hcall. right.
    destruct (bool_decide _ && _) eqn:Hexhausted.
    { injection Hcall as <- <-. left. rewrite Hf.
      apply andb_true_iff in Hexhausted as [Hsome _].
      apply bool_decide_eq_true in Hsome. auto. }
    destruct (filters.ToBlock (fc flt)) as [toBlock|] eqn:Hto.
    + destruct (_ >=? _).
      { injection Hcall as <- <-. left. rewrite Hf.
        repeat (split; [solve [auto] |]). right. now exists toBlock. }
      destruct (GetLogsByFilters _ _ _ _) as [[[logs E] [e|]]|]; simpl in Hcall;
        [discriminate | | discriminate].
      injection Hcall as <- <-. right. split; [reflexivity |]. exists logs, E. simpl.
      rewrite Hat, lookup_insert_eq, Htyp. auto.
    + destruct (GetLogsByFilters _ _ _ _) as [[[logs E] [e|]]|]; simpl in Hcall;
        [discriminate | | discriminate].
      injection Hcall as <- <-. right. split; [reflexivity |]. exists logs, E. simpl.
      rewrite Hat, lookup_insert_eq, Htyp. auto.
  - intros Hcall. left. split; [reflexivity |].
    destruct (getBlockHeadersAfter _ _ _) as [[[hashes cursor] [e|]]|]; simpl in Hcall;
      [discriminate | | discriminate].
    injection Hcall as <- <-. exists cursor. simpl. rewrite Hat, lookup_insert_eq.
    now rewrite Htyp.
Qed.

Lemma GetFilterLogs_success (fuel : nat) (f : LogFetcher) (now : Z)
  (a a' : FilterAPI) (filterID : N) (flt : filter) (logs : list ethtypes.Log) :
  filters a !! filterID = Some flt ->
  GetFilterLogs fuel f now a filterID = Some (logs, None, a') ->
  exists E,
    GetLogsByFilters fuel f (fc flt) 0 = Some (logs, E, None)
    /\ filters a' !! filterID
       = Some (mkFilter (typ flt) (fc flt) (deadline flt) (blockCursor flt) E).
Proof.
  intros Hflt. unfold GetFilterLogs. rewrite Hflt.
  destruct (resetDeadline now a flt) as [a1|] eqn:Hreset; simpl; [|discriminate].
  apply resetDeadline_spec in Hreset as (Hf & _).
  assert (Hat : filterAt a1 filterID = flt) by (unfold filterAt; now rewrite Hf, Hflt).
  destruct (GetLogsByFilters _ _ _ _) as [[[logs' E] [e|]]|]; simpl;
    [discriminate | | discriminate].
  intros [= <- <-]. exists E. simpl. rewrite Hat, lookup_insert_eq. auto.
Qed.
End Cursors.

Section Polls.
Context `{H : Helpers}.

(** C2, as the code has it.  A [GetFilterChanges] call that returns no
    error does not lower the stored [lastToHeight], provided the height
    [E] that its scan (if it makes one) resolves to is an [int64] below
    the largest one with [lastToHeight - 1 <= E]: the call stores
    [E + 1], or leaves the cursor alone.  A [GetFilterLogs] call that
    returns no error stores the resolved height itself, whatever the
    cursor was. *)
Theorem cursor_forward_on_GetFilterChanges (fuel : nat) (f : LogFetcher) (now : Z)
  (a : FilterAPI) (filterID : N) (flt : filter) :
  filters a !! filterID = Some flt ->
  (forall v a',
     GetFilterChanges fuel f now a filterID = Some (v, None, a') ->
     (forall logs E,
        GetLogsByFilters fuel f (fc flt) (lastToHeight flt) = Some (logs, E, None) ->
        lastToHeight flt - 1 <= E /\ Int64.InRange E /\ E < Int64.Max) ->
     lastToHeight flt <= lastToHeight (filterAt a' filterID))
  /\ (forall logs a',
        GetFilterLogs fuel f now a filterID = Some (logs, None, a') ->
        exists E,
          GetLogsByFilters fuel f (fc flt) 0 = Some (logs, E, None)
          /\ lastToHeight (filterAt a' filterID) = E).
Proof.
  intros Hflt. split.
  - intros v a' Hcall Hresolved. unfold filterAt.
    destruct (GetFilterChanges_success _ _ _ _ _ _ _ _ Hflt Hcall)
      as [(_ & cursor & ->) | [(_ & _ & -> & _) | (_ & logs & E & Hscan & _ & ->)]];
      simpl; try lia.
    destruct (Hresolved logs E Hscan) as (Hge & Hrange & Hmax).
    rewrite Int64_wrap_succ by assumption. lia.
  - intros logs a' Hcall.
    destruct (GetFilterLogs_success _ _ _ _ _ _ _ _ Hflt Hcall) as (E & Hscan & Hentry).
    exists E. split; [assumption |]. unfold filterAt. now rewrite Hentry.
Qed.

(** C4.  Take a logs filter with no [ToBlock] and no [BlockHash], and a
    [GetFilterChanges] call on it that returns no error, on a chain of
    latest height [E]: the call returns the logs of candidate heights
    that are all at most [E] and stores [lastToHeight = E + 1]; and the
    next [GetFilterChanges] call on the filter (on a registry that still
    holds the entry as the first call left it) that returns no error
    returns the logs of candidate heights that are all above [E]. *)
Theorem GetFilterChanges_polls_disjoint (fuel : nat) (f : LogFetcher) (now : Z)
  (a a1 : FilterAPI) (filterID : N) (flt : filter) (v1 : changes) :
  HelpersInt64 H ->
  Int64.InRange (BlockHeight f) ->
  Int64.InRange (lastToHeight flt) ->
  filters a !! filterID = Some flt ->
  typ flt = LogsSubscription ->
  filters.BlockHash (fc flt) = None ->
  filters.ToBlock (fc flt) = None ->
  GetFilterChanges fuel f now a filterID = Some (v1, None, a1) ->
  let E := BlockHeight f in
  let idx := EncodeFilters (filters.Addresses (fc flt)) (filters.Topics (fc flt)) in
  lastToHeight (filterAt a1 filterID) = E + 1
  /\ (exists begin1,
        v1 = Logs (candidateHeights f idx begin1 E ≫= blockLogs f (fc flt))
        /\ Forall (fun h => h <= E) (candidateHeights f idx begin1 E))
  /\ (forall a1' fuel2 f2 now2 v2 a2,
        filters a1' !! filterID = filters a1 !! filterID ->
        GetFilterChanges fuel2 f2 now2 a1' filterID = Some (v2, None, a2) ->
        exists begin2 end2,
          v2 = Logs (candidateHeights f2 idx begin2 end2 ≫= blockLogs f2 (fc flt))
          /\ Forall (fun h => E < h) (candidateHeights f2 idx begin2 end2)).
Proof.
  intros Hint HE Hlast Hflt Htyp Hhash Hto Hcall E idx. subst E idx.
  destruct (GetFilterChanges_success _ _ _ _ _ _ _ _ Hflt Hcall)
    as [(Hblocks & _) | [(_ & _ & _ & [Hsome|Hsome]) | (_ & logs & E & Hscan & Hv1 & Hentry)]].
  - congruence.
  - rewrite Hhash in Hsome. now destruct Hsome.
  - rewrite Hto in Hsome. now destruct Hsome.
  - pose proof (scanRange_begin_InRange f (fc flt) (lastToHeight flt) Hint Hlast) as Hbegin.
    destruct (GetLogsByFilters_range _ _ _ _ _ _ Hhash Hbegin Hscan) as (HE1 & Hlogs & Hmax).
    assert (Hend : (scanRange f (fc flt) (lastToHeight flt)).2 = BlockHeight f)
      by (unfold scanRange; simpl; now rewrite Hto).
    rewrite Hend in HE1. subst E.
    assert (HltMax : BlockHeight f < Int64.Max).
    { destruct (Z.le_gt_cases (scanRange f (fc flt) (lastToHeight flt)).1 (BlockHeight f))
        as [Hle|Hgt].
      - now apply Hmax.
      - unfold Int64.InRange in Hbegin, HE. lia. }
    assert (Hcursor : lastToHeight (filterAt a1 filterID) = BlockHeight f + 1).
    { unfold filterAt. rewrite Hentry. simpl. now apply Int64_wrap_succ. }
    split; [assumption |]. split.
    + exists (scanRange f (fc flt) (lastToHeight flt)).1. split; [congruence |].
      eapply Forall_impl; [apply candidateHeights_bounds |]. cbv beta.
      intros h Hh. lia.
    + intros a1' fuel2 f2 now2 v2 a2 Hsame Hcall2. rewrite Hentry in Hsame.
      destruct (GetFilterChanges_success _ _ _ _ _ _ _ _ Hsame Hcall2)
        as [(Hblocks & _) | [(_ & _ & _ & [Hsome|Hsome])
                            | (_ & logs2 & E2 & Hscan2 & Hv2 & _)]];
        cbn [fc typ lastToHeight] in *.
      * congruence.
      * rewrite Hhash in Hsome. now destruct Hsome.
      * rewrite Hto in Hsome. now destruct Hsome.
      * assert (Hlast2 : Int64.InRange (Int64.wrap (BlockHeight f + 1)))
          by apply Int64_wrap_InRange.
        pose proof (scanRange_begin_InRange f2 (fc flt) _ Hint Hlast2) as Hbegin2.
        destruct (GetLogsByFilters_range _ _ _ _ _ _ Hhash Hbegin2 Hscan2)
          as (_ & Hlogs2 & _).
        pose proof (scanRange_begin_ge f2 (fc flt) (Int64.wrap (BlockHeight f + 1))) as Hge.
        rewrite (Int64_wrap_succ _ HE HltMax) in Hge at 1.
        eexists _, E2. split; [rewrite Hv2, Hlogs2; reflexivity |].
        eapply Forall_impl; [apply candidateHeights_bounds |]. cbv beta.
        intros h Hh. lia.
Qed.
End Polls.

Lemma sampleHelpers_Int64 : HelpersInt64 sampleHelpers.
Proof.
  intros latest n. simpl. destruct (n <? 0); apply Int64_wrap_InRange.
Qed.

Lemma cursor_forward_on_GetFilterChanges_witness :
  filters oneFilter !! 1%N = Some oneFilterEntry
  /\ GetFilterChanges (H := sampleHelpers) 5 (sampleChain 0) 10 oneFilter 1
     = Some (Logs blockZeroLogs, None, polledOnce)
  /\ lastToHeight oneFilterEntry <= lastToHeight (filterAt polledOnce 1).
Proof.
  split; [reflexivity |]. split; [reflexivity |].
  apply (proj1 (cursor_forward_on_GetFilterChanges (H := sampleHelpers) 5 (sampleChain 0)
                  10 oneFilter 1 oneFilterEntry eq_refl)
           (Logs blockZeroLogs) polledOnce eq_refl).
  intros logs E Hscan. vm_compute in Hscan. injection Hscan as _ <-.
  int64_range.
Defined.

(** C2 fails: on the sample chain of height 0, [GetFilterChanges] returns
    no error and stores the cursor 1; [GetFilterLogs] then returns no error
    and stores the cursor 0. *)
Lemma cursor_lowered_by_GetFilterLogs :
  GetFilterChanges (H := sampleHelpers) 5 (sampleChain 0) 10 oneFilter 1
  = Some (Logs blockZeroLogs, None, polledOnce)
  /\ lastToHeight (filterAt polledOnce 1) = 1
  /\ (r ← GetFilterLogs (H := sampleHelpers) 5 (sampleChain 0) 20 polledOnce 1;
      Some (r.1, lastToHeight (filterAt r.2 1)))
     = Some (blockZeroLogs, None, 0).
Proof. repeat split. Qed.

(** The side condition of C2 on the resolved height: when the chain is
    reported shorter than before (5, then 2), [GetFilterChanges] alone
    lowers the cursor, from 6 to 3. *)
Example cursor_lowered_by_shorter_chain :
  (r1 ← GetFilterChanges (H := sampleHelpers) 9 (sampleChain 5) 10 oneFilter 1;
   r2 ← GetFilterChanges (H := sampleHelpers) 9 (sampleChain 2) 20 r1.2 1;
   Some (r1.1.2, lastToHeight (filterAt r1.2 1),
         r2.1.2, lastToHeight (filterAt r2.2 1)))
  = Some (None, 6, None, 3).
Proof. reflexivity. Qed.

Lemma GetFilterChanges_polls_disjoint_witness :
  GetFilterChanges (H := sampleHelpers) 5 (sampleChain 0) 10 oneFilter 1
  = Some (Logs blockZeroLogs, None, polledOnce)
  /\ lastToHeight (filterAt polledOnce 1) = BlockHeight (sampleChain 0) + 1
  /\ (exists begin1,
        Logs blockZeroLogs
        = Logs (candidateHeights (H := sampleHelpers) (sampleChain 0) [] begin1
                  (BlockHeight (sampleChain 0))
                ≫= blockLogs (H := sampleHelpers) (sampleChain 0) anyCriteria)
        /\ Forall (fun h => h <= BlockHeight (sampleChain 0))
             (candidateHeights (H := sampleHelpers) (sampleChain 0) [] begin1
                (BlockHeight (sampleChain 0))))
  /\ (forall a1' fuel2 f2 now2 v2 a2,
        filters a1' !! 1%N = filters polledOnce !! 1%N ->
        GetFilterChanges (H := sampleHelpers) fuel2 f2 now2 a1' 1
        = Some (v2, None, a2) ->
        exists begin2 end2,
          v2 = Logs (candidateHeights (H := sampleHelpers) f2 [] begin2 end2
                     ≫= blockLogs (H := sampleHelpers) f2 anyCriteria)
          /\ Forall (fun h => BlockHeight (sampleChain 0) < h)
               (candidateHeights (H := sampleHelpers) f2 [] begin2 end2)).
Proof.
  split; [reflexivity |].
  apply (GetFilterChanges_polls_disjoint (H := sampleHelpers) 5 (sampleChain 0) 10
           oneFilter polledOnce 1 oneFilterEntry (Logs blockZeroLogs)).
  - exact sampleHelpers_Int64.
  - int64_range.
  - int64_range.
  - reflexivity.
  - reflexivity.
  - reflexivity.
  - reflexivity.
  - reflexivity.
Defined.

(** C4 fails for a later poll that is not the next call on the filter.
    On the sample chain of height 0 a first [GetFilterChanges] returns the
    logs of height 0 and stores the cursor 1, so [E] is 0; a
    [GetFilterLogs] then stores the cursor 0; and the following
    [GetFilterChanges], with the chain at height 1, scans the heights 0
    and 1 and returns the logs of height 0 again. *)
Lemma polls_overlap_after_GetFilterLogs :
  (r1 ← GetFilterChanges (H := sampleHelpers) 5 (sampleChain 0) 10 oneFilter 1;
   r2 ← GetFilterLogs (H := sampleHelpers) 5 (sampleChain 0) 20 r1.2 1;
   r3 ← GetFilterChanges (H := sampleHelpers) 5 (sampleChain 1) 30 r2.2 1;
   Some (r1.1, lastToHeight (filterAt r1.2 1),
         r2.1.2, lastToHeight (filterAt r2.2 1), r3.1))
  = Some (Logs blockZeroLogs, None, 1, None, 0,
          (Logs (candidateHeights (H := sampleHelpers) (sampleChain 1) [] 0 1
                 ≫= blockLogs (H := sampleHelpers) (sampleChain 1) anyCriteria),
           None))
  /\ candidateHeights (H := sampleHelpers) (sampleChain 1) [] 0 1 = [0; 1]
  /\ blockLogs (H := sampleHelpers) (sampleChain 1) anyCriteria 0 = blockZeroLogs
  /\ ~ Forall (fun h => BlockHeight (sampleChain 0) < h)
        (candidateHeights (H := sampleHelpers) (sampleChain 1) [] 0 1).
Proof.
  do 3 (split; [reflexivity |]).
  intros Hall. apply Forall_cons in Hall as [Hlt _]. simpl in Hlt. lia.
Qed.

(** ** The registry: filter IDs *)

Lemma sweepFilter_nextFilterID (now : Z) (entries : list (N * filter))
  (a0 : option FilterAPI) (a' : FilterAPI) :
  foldl (sweepFilter now) a0 entries = Some a' ->
  exists a, a0 = Some a /\ nextFilterID a' = nextFilterID a.
Proof.
  revert a0. induction entries as [|entry rest IH]; intros a0; simpl.
  - intros ->. now exists a'.
  - intros Hfold. apply IH in Hfold as (a1 & Hstep & Hnext).
    unfold sweepFilter in Hstep.
    destruct a0 as [a|]; simpl in Hstep; [|discriminate]. exists a. split; [reflexivity|].
    rewrite Hnext.
    destruct (deadline entry.2) as [p|]; simpl in Hstep; [|discriminate].
    destruct (timers a !! p) as [t|]; simpl in Hstep; [|discriminate].
    destruct (timer.receive _); injection Hstep as <-; reflexivity.
Qed.

Section FilterIDs.
Context `{H : Helpers}.

(** Only the two creating calls move the counter, by one, and they
    return its value. *)
Lemma step_nextFilterID (fuel : nat) (c : call) (a a' : FilterAPI) (r : option N) :
  step fuel c a = Some (r, a') ->
  if isCreation c
  then r = Some (nextFilterID a)
       /\ nextFilterID a' = Uint64.wrap (nextFilterID a + 1)
  else r = None /\ nextFilterID a' = nextFilterID a.
Proof.
  destruct c as [now crit|now|f now filterID|f now filterID|filterID|now]; simpl.
  - intros [= <- <-]. split; reflexivity.
  - intros [= <- <-]. split; reflexivity.
  - destruct (GetFilterChanges _ _ _ _ _) as [[[v err] a1]|] eqn:Hcall;
      simpl; [|discriminate].
    intros [= <- <-]. split; [reflexivity|]. simpl.
    destruct (filters a !! filterID) as [flt|] eqn:Hflt.
    + destruct (GetFilterChanges_inv _ _ _ _ _ _ _ _ _ Hflt Hcall)
        as (a2 & Hreset & _ & Hnext & _).
      rewrite Hnext. now apply resetDeadline_spec in Hreset as (_ & -> & _).
    + unfold GetFilterChanges in Hcall. rewrite Hflt in Hcall.
      now injection Hcall as _ _ <-.
  - destruct (GetFilterLogs _ _ _ _ _) as [[[logs err] a1]|] eqn:Hcall;
      simpl; [|discriminate].
    intros [= <- <-]. split; [reflexivity|]. simpl.
    destruct (filters a !! filterID) as [flt|] eqn:Hflt.
    + destruct (GetFilterLogs_inv _ _ _ _ _ _ _ _ _ Hflt Hcall)
        as (a2 & Hreset & _ & Hnext & _).
      rewrite Hnext. now apply resetDeadline_spec in Hreset as (_ & -> & _).
    + unfold GetFilterLogs in Hcall. rewrite Hflt in Hcall.
      now injection Hcall as _ _ <-.
  - intros [= <- <-]. split; [reflexivity|].
    unfold UninstallFilter. now destruct (filters a !! filterID).
  - destruct (timeoutTick now a) as [a1|] eqn:Htick; simpl; [|discriminate].
    intros [= <- <-]. split; [reflexivity|].
    apply sweepFilter_nextFilterID in Htick as (a2 & [= <-] & ->). reflexivity.
Qed.

Lemma issued_without_creation (fuel : nat) (cs : list call) (a : FilterAPI) :
  creations cs = 0%nat -> issued fuel cs a = [].
Proof.
  revert a. induction cs as [|c rest IH]; intros a; simpl; [reflexivity|].
  unfold creations. simpl.
  destruct (step fuel c a) as [[r a']|] eqn:Hstep; [|reflexivity].
  apply step_nextFilterID in Hstep.
  destruct (isCreation c); simpl; [discriminate|].
  destruct Hstep as [-> _]. apply IH.
Qed.

(** As long as the counter does not pass [2^64], the IDs come out in
    increasing order, from the counter's value on. *)
Lemma issued_increasing (fuel : nat) (cs : list call) (a : FilterAPI) :
  (nextFilterID a + N.of_nat (creations cs) <= Uint64.modulus)%N ->
  StronglySorted N.lt (issued fuel cs a)
  /\ Forall (fun id => (nextFilterID a <= id)%N) (issued fuel cs a).
Proof.
  revert a. induction cs as [|c rest IH]; intros a; simpl.
  - intros _. split; constructor.
  - unfold creations. simpl.
    destruct (step fuel c a) as [[r a']|] eqn:Hstep; [|intros _; split; constructor].
    apply step_nextFilterID in Hstep.
    destruct (isCreation c); simpl.
    + destruct Hstep as [-> Hnext]. fold (creations rest). intros Hroom.
      destruct (creations rest) as [|k] eqn:Hk.
      { rewrite issued_without_creation by assumption.
        split; repeat constructor. lia. }
      assert (Hnext' : nextFilterID a' = (nextFilterID a + 1)%N).
      { rewrite Hnext. unfold Uint64.wrap. apply N.mod_small. lia. }
      destruct (IH a') as [Hsorted Hlower]; [try rewrite Hk; lia|].
      split.
      * constructor; [assumption|].
        eapply Forall_impl; [exact Hlower|]. simpl. intros id Hid. lia.
      * constructor; [lia|].
        eapply Forall_impl; [exact Hlower|]. simpl. intros id Hid. lia.
    + destruct Hstep as [-> Hnext]. fold (creations rest). rewrite <- Hnext. apply IH.
Qed.

(** C8, as the code has it.  On a registry that starts with its counter
    at 1, in any sequence of calls with fewer than [2^64] creations
    (whatever else it does: polls, uninstalls, sweeps), every ID
    returned is greater than all the IDs returned before it; so the IDs
    are pairwise distinct and none is 0. *)
Theorem filter_IDs_increasing (fuel : nat) (timeout_ : Z) (cs : list call) :
  (N.of_nat (creations cs) < Uint64.modulus)%N ->
  StronglySorted N.lt (issued fuel cs (NewFilterAPI timeout_))
  /\ Forall (fun id => id <> 0%N) (issued fuel cs (NewFilterAPI timeout_))
  /\ NoDup (issued fuel cs (NewFilterAPI timeout_)).
Proof.
  intros Hfew.
  destruct (issued_increasing fuel cs (NewFilterAPI timeout_)) as [Hsorted Hlower].
  { simpl. lia. }
  split; [assumption|]. split.
  - eapply Forall_impl; [exact Hlower|]. simpl. intros id Hid. lia.
  - clear Hlower. induction Hsorted as [|id ids Hsorted IH Hall]; constructor.
    + intros Hin. rewrite Forall_forall in Hall. specialize (Hall id Hin). lia.
    + assumption.
Qed.

Lemma issued_repeat_lookup (fuel : nat) (now : Z) (n : nat) (a : FilterAPI) (i : nat) :
  (nextFilterID a < Uint64.modulus)%N -> (i < n)%nat ->
  issued fuel (repeat (CallNewBlockFilter now) n) a !! i
  = Some (Uint64.wrap (nextFilterID a + N.of_nat i)).
Proof.
  revert a i. induction n as [|n IH]; intros a i Hsmall Hi; [lia|].
  simpl. destruct i as [|i]; simpl.
  - rewrite N.add_0_r. unfold Uint64.wrap. now rewrite N.mod_small.
  - rewrite IH; [| apply N.mod_lt; discriminate | lia]. simpl.
    unfold Uint64.wrap. rewrite N.Div0.add_mod_idemp_l. f_equal. f_equal. lia.
Qed.
End FilterIDs.

Lemma filter_IDs_increasing_witness :
  (N.of_nat (creations [CallNewFilter 0 anyCriteria; CallUninstallFilter 1;
                        CallNewBlockFilter 5; CallTimeoutTick 500;
                        CallNewFilter 600 anyCriteria]) < Uint64.modulus)%N
  /\ issued (H := sampleHelpers) 5
       [CallNewFilter 0 anyCriteria; CallUninstallFilter 1;
        CallNewBlockFilter 5; CallTimeoutTick 500;
        CallNewFilter 600 anyCriteria] (NewFilterAPI 100) = [1; 2; 3]%N
  /\ StronglySorted N.lt
       (issued (H := sampleHelpers) 5
          [CallNewFilter 0 anyCriteria; CallUninstallFilter 1;
           CallNewBlockFilter 5; CallTimeoutTick 500;
           CallNewFilter 600 anyCriteria] (NewFilterAPI 100))
  /\ Forall (fun id => id <> 0%N)
       (issued (H := sampleHelpers) 5
          [CallNewFilter 0 anyCriteria; CallUninstallFilter 1;
           CallNewBlockFilter 5; CallTimeoutTick 500;
           CallNewFilter 600 anyCriteria] (NewFilterAPI 100))
  /\ NoDup
       (issued (H := sampleHelpers) 5
          [CallNewFilter 0 anyCriteria; CallUninstallFilter 1;
           CallNewBlockFilter 5; CallTimeoutTick 500;
           CallNewFilter 600 anyCriteria] (NewFilterAPI 100)).
Proof.
  split; [reflexivity |]. split; [reflexivity |].
  apply (filter_IDs_increasing (H := sampleHelpers) 5 100).
  reflexivity.
Defined.

(** C8 fails when the counter wraps: of [2^64] creations in a row the last
    one returns the ID 0. *)
Lemma filter_ID_zero_after_wrap :
  0%N ∈ issued (H := sampleHelpers) 0
          (repeat (CallNewBlockFilter 0) (N.to_nat (2 ^ 64))) (NewFilterAPI 100).
Proof.
  apply list_elem_of_lookup. exists (N.to_nat (2 ^ 64 - 1)).
  rewrite issued_repeat_lookup.
  - rewrite N2Nat.id. reflexivity.
  - reflexivity.
  - lia.
Qed.

(** ** The registry: timers of reachable registries *)

Lemma wellFormed_NewFilterAPI (timeout_ : Z) : wellFormed (NewFilterAPI timeout_).
Proof.
  split.
  - intros id flt Hflt. simpl in Hflt. now rewrite lookup_empty in Hflt.
  - intros id1 id2 flt1 flt2 Hflt. simpl in Hflt. now rewrite lookup_empty in Hflt.
Qed.

Lemma wellFormed_ext (a a' : FilterAPI) :
  filters a' = filters a -> timers a' = timers a -> wellFormed a -> wellFormed a'.
Proof. unfold wellFormed. intros -> ->. trivial. Qed.

(** A new entry that points to a new, armed timer at the end of the heap. *)
Lemma wellFormed_create (a : FilterAPI) (next : N) (id : N) (flt : filter)
  (t : timer.Timer) :
  wellFormed a -> deadline flt = Some (length (timers a)) -> timer.active t = true ->
  wellFormed (mkFilterAPI next (<[id := flt]> (filters a)) (timers a ++ [t]) (timeout a)).
Proof.
  intros [Htimer Hinj] Hp Hactive. split; simpl.
  - intros id' flt' Hflt. rewrite lookup_insert in Hflt. case_decide as Hid.
    + injection Hflt as <-. exists (length (timers a)), t.
      split; [assumption |]. split; [now apply list_lookup_middle | now left].
    + destruct (Htimer id' flt' Hflt) as (p & t' & Hd & Ht & Hstate).
      exists p, t'. split; [assumption |]. split; [| assumption].
      now apply lookup_app_l_Some.
  - intros id1 id2 flt1 flt2 Hflt1 Hflt2 Hsame.
    destruct (decide (id = id1)) as [<-|Hid1]; destruct (decide (id = id2)) as [<-|Hid2];
      [reflexivity | | |].
    + rewrite lookup_insert_eq in Hflt1. rewrite lookup_insert_ne in Hflt2 by assumption.
      injection Hflt1 as <-.
      destruct (Htimer id2 flt2 Hflt2) as (p & t' & Hd & Ht & _).
      apply lookup_lt_Some in Ht. rewrite Hp, Hd in Hsame. injection Hsame as <-. lia.
    + rewrite lookup_insert_eq in Hflt2. rewrite lookup_insert_ne in Hflt1 by assumption.
      injection Hflt2 as <-.
      destruct (Htimer id1 flt1 Hflt1) as (p & t' & Hd & Ht & _).
      apply lookup_lt_Some in Ht. rewrite Hp, Hd in Hsame. injection Hsame as ->. lia.
    + rewrite lookup_insert_ne in Hflt1, Hflt2 by assumption.
      now apply (Hinj id1 id2 flt1 flt2).
Qed.

(** An entry rewritten with the same timer, as the cursor updates do. *)
Lemma wellFormed_update (a : FilterAPI) (id : N) (flt flt' : filter) :
  wellFormed a -> filters a !! id = Some flt -> deadline flt' = deadline flt ->
  wellFormed (setFilterMap (<[id := flt']> (filters a)) a).
Proof.
  intros [Htimer Hinj] Hflt Hsame. split; simpl.
  - intros id' flt'' Hlook. rewrite lookup_insert in Hlook. case_decide as Hid.
    + injection Hlook as <-. rewrite Hsame. now apply (Htimer id).
    + now apply (Htimer id').
  - assert (Hold : forall i fi, <[id := flt']> (filters a) !! i = Some fi ->
                     exists fi', filters a !! i = Some fi' /\ deadline fi' = deadline fi).
    { intros i fi Hlook. rewrite lookup_insert in Hlook. case_decide as Hid.
      - injection Hlook as <-. subst i. now exists flt.
      - now exists fi. }
    intros id1 id2 flt1 flt2 Hflt1 Hflt2 Hd.
    apply Hold in Hflt1 as (f1 & Hf1 & Hd1). apply Hold in Hflt2 as (f2 & Hf2 & Hd2).
    apply (Hinj id1 id2 f1 f2); congruence.
Qed.

Lemma wellFormed_delete (a : FilterAPI) (id : N) :
  wellFormed a -> wellFormed (setFilterMap (delete id (filters a)) a).
Proof.
  intros [Htimer Hinj]. split; simpl.
  - intros id' flt Hflt. apply lookup_delete_Some in Hflt as [_ Hflt].
    now apply (Htimer id').
  - intros id1 id2 flt1 flt2 Hflt1 Hflt2.
    apply lookup_delete_Some in Hflt1 as [_ Hflt1].
    apply lookup_delete_Some in Hflt2 as [_ Hflt2].
    now apply Hinj.
Qed.

(** On such a registry the stop, drain and reset of a registered filter's
    deadline goes through: the pointer is valid and the drain finds its
    value. *)
Lemma resetDeadline_returns (now : Z) (a : FilterAPI) (id : N) (flt : filter) :
  wellFormed a -> filters a !! id = Some flt ->
  exists a', resetDeadline now a flt = Some a' /\ wellFormed a'.
Proof.
  intros Hwf Hflt. pose proof Hwf as [Htimer Hinj].
  destruct (Htimer id flt Hflt) as (p & t & Hd & Ht & Hstate).
  assert (Hdrain : exists t',
             (if timer.active (timer.fire now t)
              then Some (timer.mkTimer false (timer.when (timer.fire now t))
                                       (timer.C (timer.fire now t)))
              else timer.receive
                     (timer.mkTimer false (timer.when (timer.fire now t))
                                    (timer.C (timer.fire now t)))) = Some t').
  { unfold timer.fire.
    destruct (timer.active t) eqn:Hactive; simpl.
    - destruct (timer.when t <=? now); simpl.
      + unfold timer.receive; simpl. destruct (timer.C t); eauto.
      + rewrite Hactive. eauto.
    - rewrite Hactive. unfold timer.receive; simpl.
      destruct Hstate as [Hact|[v Hv]]; [congruence |]. rewrite Hv. eauto. }
  destruct Hdrain as [t' Hdrain].
  unfold resetDeadline. rewrite Hd. simpl. rewrite Ht. simpl. rewrite Hdrain. simpl.
  eexists. split; [reflexivity |].
  apply lookup_lt_Some in Ht as Hlt. split; simpl.
  - intros id' flt' Hflt'.
    destruct (Htimer id' flt' Hflt') as (p' & t'' & Hd' & Ht' & Hstate').
    exists p'. destruct (decide (p' = p)) as [->|Hne].
    + eexists. split; [assumption |].
      rewrite list_lookup_insert_eq by assumption. split; [reflexivity | now left].
    + exists t''. split; [assumption |].
      rewrite list_lookup_insert_ne by congruence. auto.
  - exact Hinj.
Qed.

(** One sweep goes through and keeps the shape: a filter whose timer has
    fired is removed together with the only pointer to that timer. *)
Lemma sweep_wellFormed (now : Z) (entries : list (N * filter)) (a : FilterAPI) :
  wellFormed a -> NoDup entries.*1 ->
  (forall id flt, (id, flt) ∈ entries -> filters a !! id = Some flt) ->
  exists a', foldl (sweepFilter now) (Some a) entries = Some a' /\ wellFormed a'.
Proof.
  revert a. induction entries as [|[id flt] rest IH]; intros a Hwf Hnodup Hin; simpl.
  - now exists a.
  - apply NoDup_cons in Hnodup as [Hfresh Hnodup]. simpl in Hfresh.
    pose proof Hwf as [Htimer Hinj].
    assert (Hflt : filters a !! id = Some flt) by (apply Hin; left).
    destruct (Htimer id flt Hflt) as (p & t & Hd & Ht & _).
    rewrite Hd. simpl. rewrite Ht. simpl.
    destruct (timer.receive (timer.fire now t)) as [t'|].
    + apply IH; [| assumption |].
      * apply lookup_lt_Some in Ht as Hlt. split; simpl.
        -- intros id' flt' Hlook. apply lookup_delete_Some in Hlook as [Hne Hlook].
           destruct (Htimer id' flt' Hlook) as (p' & t'' & Hd' & Ht' & Hstate).
           exists p', t''. split; [assumption |]. split; [| assumption].
           rewrite list_lookup_insert_ne; [assumption |].
           intros <-. apply Hne. apply (Hinj id id' flt flt'); congruence.
        -- intros id1 id2 flt1 flt2 Hflt1 Hflt2.
           apply lookup_delete_Some in Hflt1 as [_ Hflt1].
           apply lookup_delete_Some in Hflt2 as [_ Hflt2].
           now apply Hinj.
      * intros id' flt' Hin'. simpl. rewrite lookup_delete_ne.
        -- apply Hin. now right.
        -- intros <-. apply Hfresh. apply list_elem_of_fmap. now exists (id, flt').
    + apply IH; [assumption | assumption |].
      intros id' flt' Hin'. apply Hin. now right.
Qed.

Lemma timeoutTick_returns (now : Z) (a : FilterAPI) :
  wellFormed a -> exists a', timeoutTick now a = Some a' /\ wellFormed a'.
Proof.
  intros Hwf. unfold timeoutTick. apply sweep_wellFormed; [assumption | |].
  - apply NoDup_fst_map_to_list.
  - intros id flt Hin. now apply elem_of_map_to_list in Hin.
Qed.

(** A registry that differs from [a2] by one rewritten entry. *)
Ltac same_timer_update Hins Htimers :=
  match type of Hins with
  | filters _ = <[?id := ?flt]> (filters ?a2) =>
      apply (wellFormed_ext (setFilterMap (<[id := flt]> (filters a2)) a2));
      [exact Hins | exact Htimers |]
  end.

Section Reachable.
Context `{H : Helpers}.

(** Every call that returns keeps the shape of the registry. *)
Lemma step_wellFormed (fuel : nat) (c : call) (a a' : FilterAPI) (r : option N) :
  wellFormed a -> step fuel c a = Some (r, a') -> wellFormed a'.
Proof.
  intros Hwf.
  destruct c as [now crit|now|f now filterID|f now filterID|filterID|now]; simpl.
  - intros [= _ <-]. now apply wellFormed_create.
  - intros [= _ <-]. now apply wellFormed_create.
  - destruct (GetFilterChanges _ _ _ _ _) as [[[v err] a1]|] eqn:Hcall;
      simpl; [|discriminate].
    intros [= _ <-].
    destruct (filters a !! filterID) as [flt|] eqn:Hflt.
    + destruct (GetFilterChanges_inv _ _ _ _ _ _ _ _ _ Hflt Hcall)
        as (a2 & Hreset & Htimers & _ & Hmap).
      destruct (resetDeadline_returns now a filterID flt Hwf Hflt) as (a2' & Hreset' & Hwf2).
      rewrite Hreset in Hreset'. injection Hreset' as <-.
      apply resetDeadline_spec in Hreset as (Hf2 & _).
      destruct Hmap as [Hsame|[-> [flt' Hins]]].
      * now apply (wellFormed_ext a2).
      * destruct (GetFilterChanges_success _ _ _ _ _ _ _ _ Hflt Hcall)
          as [(_ & cursor & Hentry) | [(_ & _ & Hentry & _) | (_ & logs & E & _ & _ & Hentry)]];
          rewrite Hins, lookup_insert_eq in Hentry; injection Hentry as ->;
          same_timer_update Hins Htimers;
          (eapply wellFormed_update; [exact Hwf2 | rewrite Hf2; exact Hflt | reflexivity]).
    + unfold GetFilterChanges in Hcall. rewrite Hflt in Hcall.
      now injection Hcall as _ _ <-.
  - destruct (GetFilterLogs _ _ _ _ _) as [[[logs err] a1]|] eqn:Hcall;
      simpl; [|discriminate].
    intros [= _ <-].
    destruct (filters a !! filterID) as [flt|] eqn:Hflt.
    + destruct (GetFilterLogs_inv _ _ _ _ _ _ _ _ _ Hflt Hcall)
        as (a2 & Hreset & Htimers & _ & Hmap).
      destruct (resetDeadline_returns now a filterID flt Hwf Hflt) as (a2' & Hreset' & Hwf2).
      rewrite Hreset in Hreset'. injection Hreset' as <-.
      apply resetDeadline_spec in Hreset as (Hf2 & _).
      destruct Hmap as [Hsame|[-> [flt' Hins]]].
      * now apply (wellFormed_ext a2).
      * destruct (GetFilterLogs_success _ _ _ _ _ _ _ _ Hflt Hcall) as (E & _ & Hentry).
        rewrite Hins, lookup_insert_eq in Hentry. injection Hentry as ->.
        same_timer_update Hins Htimers.
        eapply wellFormed_update; [exact Hwf2 | rewrite Hf2; exact Hflt | reflexivity].
    + unfold GetFilterLogs in Hcall. rewrite Hflt in Hcall.
      now injection Hcall as _ _ <-.
  - intros [= _ <-]. unfold UninstallFilter.
    destruct (filters a !! filterID); [now apply wellFormed_delete | assumption].
  - destruct (timeoutTick_returns now a Hwf) as (a1 & -> & Hwf1). simpl.
    now intros [= _ <-].
Qed.

(** The registries that sequences of calls build from [NewFilterAPI]. *)
Lemma runCalls_wellFormed (fuel : nat) (cs : list call) (timeout_ : Z) (a : FilterAPI) :
  runCalls fuel cs (NewFilterAPI timeout_) = Some a -> wellFormed a.
Proof.
  generalize (wellFormed_NewFilterAPI timeout_).
  generalize (NewFilterAPI timeout_) as a0.
  induction cs as [|c rest IH]; intros a0 Hwf; simpl.
  - now intros [= <-].
  - destruct (step fuel c a0) as [[r a1]|] eqn:Hstep; simpl; [|discriminate].
    apply IH. now apply (step_wellFormed fuel c a0 a1 r).
Qed.

(** On them, the polls return whenever the scan or the paging of the
    block stream returns: the registry itself never blocks. *)
Lemma GetFilterLogs_returns (fuel : nat) (f : LogFetcher) (now : Z)
  (a : FilterAPI) (filterID : N) :
  wellFormed a ->
  (forall flt, filters a !! filterID = Some flt ->
               is_Some (GetLogsByFilters fuel f (fc flt) 0)) ->
  is_Some (GetFilterLogs fuel f now a filterID).
Proof.
  intros Hwf Hscan. unfold GetFilterLogs.
  destruct (filters a !! filterID) as [flt|] eqn:Hflt; [| eauto].
  destruct (resetDeadline_returns now a filterID flt Hwf Hflt) as (a1 & -> & _).
  destruct (Hscan flt eq_refl) as [[[logs E] [err|]] ->]; simpl; eauto.
Qed.

Lemma GetFilterChanges_returns (fuel : nat) (f : LogFetcher) (now : Z)
  (a : FilterAPI) (filterID : N) :
  wellFormed a ->
  (forall flt, filters a !! filterID = Some flt ->
               is_Some (GetLogsByFilters fuel f (fc flt) (lastToHeight flt))
               /\ is_Some (getBlockHeadersAfter fuel f (blockCursor flt))) ->
  is_Some (GetFilterChanges fuel f now a filterID).
Proof.
  intros Hwf Hscan. unfold GetFilterChanges.
  destruct (filters a !! filterID) as [flt|] eqn:Hflt; [| eauto].
  destruct (resetDeadline_returns now a filterID flt Hwf Hflt) as (a1 & -> & _).
  destruct (Hscan flt eq_refl) as [[[[logs E] err] ->] [[[hashes cursor] err'] ->]]; simpl.
  destruct (typ flt); [eauto | | destruct err'; eauto].
  destruct (_ && _); [eauto |].
  destruct (match filters.ToBlock (fc flt) with Some _ => _ | None => _ end); [eauto |].
  destruct err; eauto.
Qed.
End Reachable.

(** * Further properties of the registry and of the fetcher *)

(** ** Uninstalling *)

(** X1.  [UninstallFilter] answers true exactly when the ID is registered;
    afterwards the ID is gone and stays gone (a second call answers false
    and changes nothing), every other entry, the counter and the timers
    are as before, and both polls on the ID answer "filter does not exist"
    without touching the registry. *)
Theorem UninstallFilter_removes `{H : Helpers} (a : FilterAPI) (filterID : N) :
  let a' := (UninstallFilter a filterID).2 in
  ((UninstallFilter a filterID).1 = true <-> is_Some (filters a !! filterID))
  /\ filters a' !! filterID = None
  /\ (forall id, id <> filterID -> filters a' !! id = filters a !! id)
  /\ nextFilterID a' = nextFilterID a /\ timers a' = timers a
  /\ UninstallFilter a' filterID = (false, a')
  /\ (forall fuel f now,
        GetFilterChanges fuel f now a' filterID
        = Some (Nil, Some "filter does not exist", a')
        /\ GetFilterLogs fuel f now a' filterID
           = Some ([], Some "filter does not exist", a')).
Proof.
  assert (Hgone : filters (UninstallFilter a filterID).2 !! filterID = None).
  { unfold UninstallFilter. destruct (filters a !! filterID) eqn:Hflt; simpl.
    - apply lookup_delete_eq.
    - assumption. }
  cbv zeta. split; [| repeat apply conj].
  - unfold UninstallFilter. destruct (filters a !! filterID); simpl.
    + split; [intros _; now eexists | reflexivity].
    + split; [discriminate | intros [flt Hflt]; discriminate].
  - exact Hgone.
  - intros id Hne. unfold UninstallFilter. destruct (filters a !! filterID); simpl.
    + now apply lookup_delete_ne.
    + reflexivity.
  - unfold UninstallFilter. now destruct (filters a !! filterID).
  - unfold UninstallFilter. now destruct (filters a !! filterID).
  - unfold UninstallFilter at 1. now rewrite Hgone.
  - intros fuel f now. unfold GetFilterChanges, GetFilterLogs. now rewrite Hgone.
Qed.

(** X2.  Creating a filter under an ID that is free and uninstalling it
    again gives back the map of filters; the counter stays advanced and
    the timer of the filter stays in the heap, armed. *)
Theorem create_then_uninstall (now : Z) (a : FilterAPI) (crit : filters.FilterCriteria) :
  filters a !! nextFilterID a = None ->
  (let a1 := (NewFilter now a crit).2 in
   UninstallFilter a1 (nextFilterID a)
   = (true, mkFilterAPI (Uint64.wrap (nextFilterID a + 1)) (filters a)
              (timers a ++ [timer.NewTimer now (timeout a)]) (timeout a)))
  /\ (let a1 := (NewBlockFilter now a).2 in
      UninstallFilter a1 (nextFilterID a)
      = (true, mkFilterAPI (Uint64.wrap (nextFilterID a + 1)) (filters a)
                 (timers a ++ [timer.NewTimer now (timeout a)]) (timeout a))).
Proof.
  intros Hfree. split; cbv zeta; unfold UninstallFilter; simpl;
    rewrite lookup_insert_eq; unfold setFilterMap; simpl;
    now rewrite delete_insert_id.
Qed.

Lemma create_then_uninstall_witness :
  filters (NewFilterAPI 100) !! nextFilterID (NewFilterAPI 100) = None
  /\ UninstallFilter (NewFilter 7 (NewFilterAPI 100) hashAndRange).2 1
     = (true, mkFilterAPI 2 ∅ [timer.mkTimer true 107 None] 100).
Proof.
  split; [reflexivity |].
  apply (proj1 (create_then_uninstall 7 (NewFilterAPI 100) hashAndRange eq_refl)).
Defined.

(** ** The registered IDs *)

Lemma sweep_keeps_no_new_id (now : Z) (entries : list (N * filter))
  (a0 : option FilterAPI) (a' : FilterAPI) :
  foldl (sweepFilter now) a0 entries = Some a' ->
  exists a, a0 = Some a
            /\ forall id, is_Some (filters a' !! id) -> is_Some (filters a !! id).
Proof.
  revert a0. induction entries as [|entry rest IH]; intros a0; simpl.
  - intros ->. now exists a'.
  - intros Hfold. apply IH in Hfold as (a1 & Hstep & Hsub).
    unfold sweepFilter in Hstep.
    destruct a0 as [a|]; simpl in Hstep; [|discriminate]. exists a. split; [reflexivity|].
    destruct (deadline entry.2) as [p|]; simpl in Hstep; [|discriminate].
    destruct (timers a !! p) as [t|]; simpl in Hstep; [|discriminate].
    destruct (timer.receive _); injection Hstep as <-; [| exact Hsub].
    intros id Hid. apply Hsub in Hid. simpl in Hid.
    destruct Hid as [flt Hflt]. apply lookup_delete_Some in Hflt as [_ Hflt]. eauto.
Qed.

Section RegisteredIDs.
Context `{H : Helpers}.

(** A call registers no ID but the one it returns. *)
Lemma step_registers (fuel : nat) (c : call) (a a' : FilterAPI) (r : option N) (id : N) :
  step fuel c a = Some (r, a') -> is_Some (filters a' !! id) ->
  is_Some (filters a !! id) \/ (isCreation c = true /\ id = nextFilterID a).
Proof.
  destruct c as [now crit|now|f now filterID|f now filterID|filterID|now]; simpl.
  - intros [= _ <-]. simpl. rewrite lookup_insert. case_decide; auto.
  - intros [= _ <-]. simpl. rewrite lookup_insert. case_decide; auto.
  - destruct (GetFilterChanges _ _ _ _ _) as [[[v err] a1]|] eqn:Hcall;
      simpl; [|discriminate].
    intros [= _ <-] Hid. left.
    destruct (filters a !! filterID) as [flt|] eqn:Hflt.
    + destruct (GetFilterChanges_inv _ _ _ _ _ _ _ _ _ Hflt Hcall)
        as (a2 & Hreset & _ & _ & Hmap).
      apply resetDeadline_spec in Hreset as (Hf2 & _). rewrite Hf2 in Hmap.
      destruct Hmap as [Hsame|[_ [flt' Hins]]].
      * now rewrite <- Hsame.
      * rewrite Hins, lookup_insert in Hid. case_decide; [subst; eauto | assumption].
    + unfold GetFilterChanges in Hcall. rewrite Hflt in Hcall.
      injection Hcall as _ _ <-. assumption.
  - destruct (GetFilterLogs _ _ _ _ _) as [[[logs err] a1]|] eqn:Hcall;
      simpl; [|discriminate].
    intros [= _ <-] Hid. left.
    destruct (filters a !! filterID) as [flt|] eqn:Hflt.
    + destruct (GetFilterLogs_inv _ _ _ _ _ _ _ _ _ Hflt Hcall)
        as (a2 & Hreset & _ & _ & Hmap).
      apply resetDeadline_spec in Hreset as (Hf2 & _). rewrite Hf2 in Hmap.
      destruct Hmap as [Hsame|[_ [flt' Hins]]].
      * now rewrite <- Hsame.
      * rewrite Hins, lookup_insert in Hid. case_decide; [subst; eauto | assumption].
    + unfold GetFilterLogs in Hcall. rewrite Hflt in Hcall.
      injection Hcall as _ _ <-. assumption.
  - intros [= _ <-] Hid. left. unfold UninstallFilter in Hid.
    destruct (filters a !! filterID); [| assumption]. simpl in Hid.
    destruct Hid as [flt Hflt]. apply lookup_delete_Some in Hflt as [_ Hflt]. eauto.
  - destruct (timeoutTick now a) as [a1|] eqn:Htick; simpl; [|discriminate].
    intros [= _ <-] Hid. left.
    apply sweep_keeps_no_new_id in Htick as (a2 & [= <-] & Hsub). now apply Hsub.
Qed.

Lemma runCalls_ids (fuel : nat) (cs : list call) (a a' : FilterAPI) :
  (1 <= nextFilterID a)%N -> idsBelowCounter a ->
  (nextFilterID a + N.of_nat (creations cs) < Uint64.modulus)%N ->
  runCalls fuel cs a = Some a' ->
  nextFilterID a' = (nextFilterID a + N.of_nat (creations cs))%N
  /\ idsBelowCounter a'.
Proof.
  revert a. induction cs as [|c rest IH]; intros a Hone Hids Hroom; simpl.
  - intros [= <-]. unfold creations. simpl. split; [lia | assumption].
  - destruct (step fuel c a) as [[r a1]|] eqn:Hstep; simpl; [|discriminate].
    pose proof (step_nextFilterID _ _ _ _ _ Hstep) as Hnext.
    assert (Hreg := fun id => step_registers _ _ _ _ _ id Hstep).
    unfold creations in *. simpl in *.
    destruct (isCreation c); simpl in *.
    + destruct Hnext as [_ Hnext].
      assert (Hnext' : nextFilterID a1 = (nextFilterID a + 1)%N).
      { rewrite Hnext. unfold Uint64.wrap. apply N.mod_small. lia. }
      intros Hrun. apply IH in Hrun as [-> Hids']; [split; [lia | assumption] | lia | | lia].
      intros id Hid. destruct (Hreg id Hid) as [Hold|[_ ->]].
      * apply Hids in Hold. lia.
      * lia.
    + destruct Hnext as [_ Hnext].
      intros Hrun. apply IH in Hrun as [-> Hids']; [split; [lia | assumption] | lia | | lia].
      intros id Hid. destruct (Hreg id Hid) as [Hold|[Hc _]]; [| discriminate].
      apply Hids in Hold. lia.
Qed.

(** X3.  On a registry built from [NewFilterAPI] by calls with fewer than
    2^64 - 1 creations among them, the counter is one more than the number
    of creations, every registered ID lies between 1 and the counter, and
    so the ID that the next creation takes is free: a creation does not
    overwrite a registered filter. *)
Theorem next_filter_ID_is_free (fuel : nat) (timeout_ : Z) (cs : list call)
  (a : FilterAPI) :
  (N.of_nat (creations cs) < Uint64.modulus - 1)%N ->
  runCalls fuel cs (NewFilterAPI timeout_) = Some a ->
  nextFilterID a = (1 + N.of_nat (creations cs))%N
  /\ idsBelowCounter a
  /\ filters a !! nextFilterID a = None.
Proof.
  intros Hfew Hrun.
  destruct (runCalls_ids fuel cs (NewFilterAPI timeout_) a) as [Hnext Hids];
    [simpl; lia | | simpl; unfold Uint64.modulus in *; lia | assumption |].
  - intros id [flt Hflt]. simpl in Hflt. now rewrite lookup_empty in Hflt.
  - split; [exact Hnext |]. split; [exact Hids |].
    destruct (filters a !! nextFilterID a) eqn:Hlook; [| reflexivity].
    assert (Hin : is_Some (filters a !! nextFilterID a)) by eauto.
    apply Hids in Hin. lia.
Qed.
End RegisteredIDs.

Lemma next_filter_ID_is_free_witness :
  (N.of_nat (creations [CallNewFilter 0 anyCriteria; CallNewBlockFilter 5;
                        CallUninstallFilter 1]) < Uint64.modulus - 1)%N
  /\ runCalls (H := sampleHelpers) 5
       [CallNewFilter 0 anyCriteria; CallNewBlockFilter 5; CallUninstallFilter 1]
       (NewFilterAPI 100)
     = Some (mkFilterAPI 3
               {[ 2%N := mkFilter BlocksSubscription anyCriteria (Some 1%nat) "" 0 ]}
               [timer.mkTimer true 100 None; timer.mkTimer true 105 None] 100)
  /\ filters (mkFilterAPI 3
               {[ 2%N := mkFilter BlocksSubscription anyCriteria (Some 1%nat) "" 0 ]}
               [timer.mkTimer true 100 None; timer.mkTimer true 105 None] 100) !! 3%N
     = None.
Proof.
  split; [reflexivity |]. split; [reflexivity |].
  apply (next_filter_ID_is_free (H := sampleHelpers) 5 100
           [CallNewFilter 0 anyCriteria; CallNewBlockFilter 5; CallUninstallFilter 1]);
    reflexivity.
Defined.

(** ** The paging of the block stream *)

Lemma appendHeaders_inl (items : list (common.Hash + error))
  (headers out : list common.Hash) :
  appendHeaders items headers = inl out ->
  exists hashes, items = inl <$> hashes /\ out = headers ++ hashes.
Proof.
  revert headers. induction items as [|[hash|err] rest IH]; intros headers; simpl.
  - intros [= <-]. exists []. now rewrite app_nil_r.
  - intros Hrest. apply IH in Hrest as (hashes & -> & ->).
    exists (hash :: hashes). now rewrite <- app_assoc.
  - discriminate.
Qed.

Lemma appendHeaders_fmap (hashes headers : list common.Hash) :
  appendHeaders (inl <$> hashes) headers = inl (headers ++ hashes).
Proof.
  revert headers. induction hashes as [|hash rest IH]; intros headers; simpl.
  - now rewrite app_nil_r.
  - rewrite IH. now rewrite <- app_assoc.
Qed.

Lemma appendHeaders_inr (items : list (common.Hash + error))
  (headers : list common.Hash) (err : error) :
  appendHeaders items headers = inr err -> inr err ∈ items.
Proof.
  revert headers. induction items as [|[hash|err'] rest IH]; intros headers; simpl.
  - discriminate.
  - intros Hrest. right. now apply (IH (headers ++ [hash])).
  - intros [= ->]. left.
Qed.

Lemma pagesFrom_nonempty (f : LogFetcher) (cursor : string)
  (pages : list coretypes.ResultEvents) :
  pagesFrom f cursor pages -> pages <> [].
Proof. now destruct 1. Qed.

Lemma lastCursor_cons (cursor : string) (res : coretypes.ResultEvents)
  (rest : list coretypes.ResultEvents) :
  rest <> [] -> lastCursor cursor (res :: rest) = lastCursor (coretypes.Newest res) rest.
Proof.
  intros Hne. unfold lastCursor. rewrite last_cons.
  destruct rest as [|res' rest'] using rev_ind; [congruence |].
  now rewrite last_snoc.
Qed.

Lemma getBlockHeadersLoop_pages (fuel : nat) (f : LogFetcher) (cursor cursor' : string)
  (headers out : list common.Hash) :
  getBlockHeadersLoop fuel f cursor headers = Some (out, cursor', None) ->
  exists pages hashes,
    pagesFrom f cursor pages /\ pages ≫= coretypes.Items = inl <$> hashes
    /\ out = headers ++ hashes /\ cursor' = lastCursor cursor pages
    /\ (length pages <= fuel)%nat.
Proof.
  revert cursor headers. induction fuel as [|fuel IH]; intros cursor headers; simpl.
  - discriminate.
  - destruct (Events f cursor) as [res|err] eqn:Hpage; [|discriminate].
    destruct (appendHeaders (coretypes.Items res) headers) as [headers'|err] eqn:Happ;
      [|discriminate].
    apply appendHeaders_inl in Happ as (hashes1 & Hitems & ->).
    destruct (coretypes.More res) eqn:Hmore.
    + intros Hloop. apply IH in Hloop as (pages & hashes2 & Hpages & Hrest & -> & -> & Hlen).
      exists (res :: pages), (hashes1 ++ hashes2). repeat split.
      * now apply pagesMore.
      * now rewrite bind_cons, Hitems, Hrest, fmap_app.
      * now rewrite app_assoc.
      * symmetry. apply lastCursor_cons. eapply pagesFrom_nonempty; eassumption.
      * simpl. lia.
    + intros [= <- <-]. exists [res], hashes1. repeat split.
      * now apply pagesLast.
      * now rewrite bind_cons, app_nil_r.
      * simpl. lia.
Qed.

Lemma getBlockHeadersLoop_reads (fuel : nat) (f : LogFetcher) (cursor : string)
  (pages : list coretypes.ResultEvents) (headers hashes : list common.Hash) :
  pagesFrom f cursor pages -> pages ≫= coretypes.Items = inl <$> hashes ->
  (length pages <= fuel)%nat ->
  getBlockHeadersLoop fuel f cursor headers
  = Some (headers ++ hashes, lastCursor cursor pages, None).
Proof.
  intros Hpages. revert fuel headers hashes.
  induction Hpages as [cursor res Hpage Hmore|cursor res rest Hpage Hmore Hrest IH];
    intros fuel headers hashes Hitems Hlen; destruct fuel as [|fuel]; simpl in Hlen;
    try lia; simpl; rewrite Hpage.
  - rewrite bind_cons, app_nil_r in Hitems.
    now rewrite Hitems, appendHeaders_fmap, Hmore.
  - rewrite bind_cons in Hitems. symmetry in Hitems.
    apply fmap_app_inv in Hitems as (hashes1 & hashes2 & Hitems1 & Hitems2 & ->).
    rewrite Hitems1, appendHeaders_fmap, Hmore.
    rewrite (IH fuel (headers ++ hashes1) hashes2); [| now symmetry | lia].
    rewrite lastCursor_cons by (eapply pagesFrom_nonempty; eassumption).
    now rewrite app_assoc.
Qed.

(** X4.  [getBlockHeadersAfter] returns without an error exactly when the
    stream has a finite run of pages from the cursor on (each page but the
    last saying that there is more, each asked for after the newest
    cursor of the one before) whose items all decode: it then returns the
    block hashes of these pages in order and the newest cursor of the last
    page. *)
Theorem getBlockHeadersAfter_pages (fuel : nat) (f : LogFetcher) (cursor : string)
  (hashes : list common.Hash) :
  (forall cursor',
     getBlockHeadersAfter fuel f cursor = Some (hashes, cursor', None) ->
     exists pages,
       pagesFrom f cursor pages /\ pages ≫= coretypes.Items = inl <$> hashes
       /\ cursor' = lastCursor cursor pages /\ (length pages <= fuel)%nat)
  /\ (forall pages,
        pagesFrom f cursor pages -> pages ≫= coretypes.Items = inl <$> hashes ->
        (length pages <= fuel)%nat ->
        getBlockHeadersAfter fuel f cursor
        = Some (hashes, lastCursor cursor pages, None)).
Proof.
  split.
  - intros cursor' Hcall. unfold getBlockHeadersAfter in Hcall.
    apply getBlockHeadersLoop_pages in Hcall as (pages & hashes' & Hpages & Hitems & -> & -> & Hlen).
    exists pages. auto.
  - intros pages Hpages Hitems Hlen. unfold getBlockHeadersAfter.
    now rewrite (getBlockHeadersLoop_reads fuel f cursor pages [] hashes).
Qed.

Lemma getBlockHeadersAfter_pages_witness :
  pagesFrom twoPageChain ""
    [coretypes.mkResultEvents [inl 5%N; inl 6%N] true "p1";
     coretypes.mkResultEvents [inl 7%N] false "p2"]
  /\ getBlockHeadersAfter 2 twoPageChain "" = Some ([5; 6; 7]%N, "p2", None).
Proof.
  assert (Hpages : pagesFrom twoPageChain ""
            [coretypes.mkResultEvents [inl 5%N; inl 6%N] true "p1";
             coretypes.mkResultEvents [inl 7%N] false "p2"]).
  { apply pagesMore; [reflexivity | reflexivity |]. now apply pagesLast. }
  split; [exact Hpages |].
  apply (proj2 (getBlockHeadersAfter_pages 2 twoPageChain "" [5; 6; 7]%N)
           _ Hpages); [reflexivity | simpl; lia].
Defined.

Lemma getBlockHeadersLoop_error (fuel : nat) (f : LogFetcher) (cursor cursor' : string)
  (headers out : list common.Hash) (err : error) :
  getBlockHeadersLoop fuel f cursor headers = Some (out, cursor', Some err) ->
  out = [] /\ cursor' = ""
  /\ ((exists c, Events f c = inr err)
      \/ (exists c res, Events f c = inl res /\ inr err ∈ coretypes.Items res)).
Proof.
  revert cursor headers. induction fuel as [|fuel IH]; intros cursor headers; simpl.
  - discriminate.
  - destruct (Events f cursor) as [res|err0] eqn:Hpage.
    + destruct (appendHeaders (coretypes.Items res) headers) as [headers'|err0] eqn:Happ.
      * destruct (coretypes.More res); [apply IH | discriminate].
      * intros [= <- <- <-]. repeat split. right. exists cursor, res.
        split; [assumption |]. eapply appendHeaders_inr; eassumption.
    + intros [= <- <- <-]. repeat split. left. now exists cursor.
Qed.

(** X5.  An error of [getBlockHeadersAfter] is the error of a request to
    the stream or of the decoding of an item of a page, and comes with
    no hash and the empty cursor: the hashes of the pages read before it
    are dropped. *)
Theorem getBlockHeadersAfter_error (fuel : nat) (f : LogFetcher) (cursor cursor' : string)
  (hashes : list common.Hash) (err : error) :
  getBlockHeadersAfter fuel f cursor = Some (hashes, cursor', Some err) ->
  hashes = [] /\ cursor' = ""
  /\ ((exists c, Events f c = inr err)
      \/ (exists c res, Events f c = inl res /\ inr err ∈ coretypes.Items res)).
Proof. apply getBlockHeadersLoop_error. Qed.

Lemma getBlockHeadersAfter_error_witness :
  getBlockHeadersAfter 3 (brokenChain 3) "" = Some ([], "", Some "events unavailable")
  /\ ([] : list common.Hash) = [] /\ "" = ""
  /\ ((exists c, Events (brokenChain 3) c = inr "events unavailable")
      \/ (exists c res, Events (brokenChain 3) c = inl res
                        /\ inr "events unavailable" ∈ coretypes.Items res)).
Proof.
  split; [reflexivity |].
  apply (getBlockHeadersAfter_error 3 (brokenChain 3) "" "" [] "events unavailable").
  reflexivity.
Defined.

Lemma getBlockHeadersLoop_endless (fuel : nat) (f : LogFetcher) (cursor : string)
  (headers : list common.Hash) :
  (forall c, exists res hashes,
     Events f c = inl res /\ coretypes.More res = true
     /\ coretypes.Items res = inl <$> hashes) ->
  getBlockHeadersLoop fuel f cursor headers = None.
Proof.
  intros Hmore. revert cursor headers.
  induction fuel as [|fuel IH]; intros cursor headers; simpl; [reflexivity |].
  destruct (Hmore cursor) as (res & hashes & -> & -> & ->).
  rewrite appendHeaders_fmap. apply IH.
Qed.

(** X6.  On a stream that answers every cursor with a page that decodes
    and says that there is more, [getBlockHeadersAfter] never returns,
    and so neither does [GetFilterChanges] on a blocks filter. *)
Theorem block_poll_never_returns_on_endless_stream `{H : Helpers}
  (fuel : nat) (f : LogFetcher) :
  (forall c, exists res hashes,
     Events f c = inl res /\ coretypes.More res = true
     /\ coretypes.Items res = inl <$> hashes) ->
  (forall cursor, getBlockHeadersAfter fuel f cursor = None)
  /\ (forall now a filterID flt,
        filters a !! filterID = Some flt -> typ flt = BlocksSubscription ->
        GetFilterChanges fuel f now a filterID = None).
Proof.
  intros Hmore. split.
  - intros cursor. now apply getBlockHeadersLoop_endless.
  - intros now a filterID flt Hflt Htyp. unfold GetFilterChanges.
    rewrite Hflt, Htyp. destruct (resetDeadline now a flt); simpl; [| reflexivity].
    unfold getBlockHeadersAfter. now rewrite getBlockHeadersLoop_endless.
Qed.

Lemma block_poll_never_returns_on_endless_stream_witness :
  GetFilterChanges (H := sampleHelpers) 1000 endlessChain 10 oneBlockFilter 1 = None.
Proof.
  apply (proj2 (block_poll_never_returns_on_endless_stream (H := sampleHelpers)
                  1000 endlessChain
                  (fun c => ex_intro _ (coretypes.mkResultEvents [inl 5%N] true c)
                              (ex_intro _ [5%N] (conj eq_refl (conj eq_refl eq_refl)))))
           10 oneBlockFilter 1%N
           (mkFilter BlocksSubscription anyCriteria (Some 0%nat) "" 0));
    reflexivity.
Defined.

(** ** Polls of a blocks filter *)

Section BlockPolls.
Context `{H : Helpers}.

Lemma GetFilterChanges_blocks (fuel : nat) (f : LogFetcher) (now : Z)
  (a a' : FilterAPI) (filterID : N) (flt : filter)
  (v : changes) (err : option error) :
  filters a !! filterID = Some flt -> typ flt = BlocksSubscription ->
  GetFilterChanges fuel f now a filterID = Some (v, err, a') ->
  exists hashes cursor err',
    getBlockHeadersAfter fuel f (blockCursor flt) = Some (hashes, cursor, err')
    /\ err = err'
    /\ match err' with
       | None =>
           v = Hashes hashes
           /\ filters a' !! filterID
              = Some (mkFilter (typ flt) (fc flt) (deadline flt) cursor (lastToHeight flt))
       | Some _ => v = Nil /\ filters a' !! filterID = Some flt
       end.
Proof.
  intros Hflt Htyp. unfold GetFilterChanges. rewrite Hflt, Htyp.
  destruct (resetDeadline now a flt) as [a1|] eqn:Hreset; simpl; [|discriminate].
  apply resetDeadline_spec in Hreset as (Hf & _).
  assert (Hat : filterAt a1 filterID = flt) by (unfold filterAt; now rewrite Hf, Hflt).
  destruct (getBlockHeadersAfter _ _ _) as [[[hashes cursor] [e|]]|]; simpl;
    [| | discriminate]; intros [= <- <- <-]; exists hashes, cursor; eexists;
    (split; [reflexivity |]); (split; [reflexivity |]); simpl.
  - split; [reflexivity |]. rewrite Hf. exact Hflt.
  - split; [reflexivity |]. now rewrite Hat, lookup_insert_eq, Htyp.
Qed.

(** X7.  A [GetFilterChanges] call on a blocks filter that returns no
    error returns the hashes that [getBlockHeadersAfter] reads from the
    stored cursor on and stores the cursor it ends at, leaving the rest of
    the entry alone; the next call on the filter reads the stream from
    that cursor on. *)
Theorem block_polls_resume (fuel : nat) (f : LogFetcher) (now : Z)
  (a a1 : FilterAPI) (filterID : N) (flt : filter) (v1 : changes) :
  filters a !! filterID = Some flt -> typ flt = BlocksSubscription ->
  GetFilterChanges fuel f now a filterID = Some (v1, None, a1) ->
  exists hashes1 cursor1,
    getBlockHeadersAfter fuel f (blockCursor flt) = Some (hashes1, cursor1, None)
    /\ v1 = Hashes hashes1
    /\ filters a1 !! filterID
       = Some (mkFilter (typ flt) (fc flt) (deadline flt) cursor1 (lastToHeight flt))
    /\ (forall a1' fuel2 f2 now2 v2 err2 a2,
          filters a1' !! filterID = filters a1 !! filterID ->
          GetFilterChanges fuel2 f2 now2 a1' filterID = Some (v2, err2, a2) ->
          exists hashes2 cursor2,
            getBlockHeadersAfter fuel2 f2 cursor1 = Some (hashes2, cursor2, err2)
            /\ v2 = match err2 with None => Hashes hashes2 | Some _ => Nil end).
Proof.
  intros Hflt Htyp Hcall.
  destruct (GetFilterChanges_blocks _ _ _ _ _ _ _ _ _ Hflt Htyp Hcall)
    as (hashes1 & cursor1 & err' & Hread & <- & -> & Hentry).
  exists hashes1, cursor1. repeat split; try assumption.
  intros a1' fuel2 f2 now2 v2 err2 a2 Hsame Hcall2. rewrite Hentry in Hsame.
  destruct (GetFilterChanges_blocks _ _ _ _ _ _ _ _ _ Hsame Htyp Hcall2)
    as (hashes2 & cursor2 & err'' & Hread2 & <- & Hres).
  exists hashes2, cursor2. split; [exact Hread2 |].
  destruct err2; now destruct Hres.
Qed.
End BlockPolls.

Lemma block_polls_resume_witness :
  GetFilterChanges (H := sampleHelpers) 2 twoPageChain 10 oneBlockFilter 1
  = Some (Hashes [5; 6; 7]%N, None,
          mkFilterAPI 2
            {[ 1%N := mkFilter BlocksSubscription anyCriteria (Some 0%nat) "p2" 0 ]}
            [timer.mkTimer true 110 None] 100)
  /\ exists hashes1 cursor1,
       getBlockHeadersAfter 2 twoPageChain "" = Some (hashes1, cursor1, None)
       /\ Hashes [5; 6; 7]%N = Hashes hashes1
       /\ ({[ 1%N := mkFilter BlocksSubscription anyCriteria (Some 0%nat) "p2" 0 ]}
            : gmap N filter) !! 1%N
          = Some (mkFilter BlocksSubscription anyCriteria (Some 0%nat) cursor1 0).
Proof.
  split; [reflexivity |].
  destruct (block_polls_resume (H := sampleHelpers) 2 twoPageChain 10 oneBlockFilter
              (mkFilterAPI 2
                 {[ 1%N := mkFilter BlocksSubscription anyCriteria (Some 0%nat) "p2" 0 ]}
                 [timer.mkTimer true 110 None] 100)
              1 (mkFilter BlocksSubscription anyCriteria (Some 0%nat) "" 0)
              (Hashes [5; 6; 7]%N) eq_refl eq_refl eq_refl)
    as (hashes1 & cursor1 & Hread & Hv & Hentry & _).
  exists hashes1, cursor1. auto.
Defined.

(** ** Polls of a logs filter *)

Section LogPolls.
Context `{H : Helpers}.

(** X8.  A poll of a logs filter that has nothing new to look for, because
    it is by block hash and has been polled ([lastToHeight > 0]) or
    because its cursor has reached its [ToBlock], returns nil and no
    error whatever the chain and however little it may run: it reads
    nothing from the chain, resets the deadline and leaves the filters as
    they are. *)
Theorem GetFilterChanges_nothing_new (fuel : nat) (f : LogFetcher) (now : Z)
  (a : FilterAPI) (filterID : N) (flt : filter) :
  wellFormed a ->
  filters a !! filterID = Some flt -> typ flt = LogsSubscription ->
  (is_Some (filters.BlockHash (fc flt)) /\ 0 < lastToHeight flt)
  \/ (exists toBlock, filters.ToBlock (fc flt) = Some toBlock
                      /\ BigInt_Int64 toBlock <= lastToHeight flt) ->
  exists a',
    GetFilterChanges fuel f now a filterID = Some (Nil, None, a')
    /\ filters a' = filters a
    /\ (exists p, deadline flt = Some p /\ armedAt a' p (now + timeout a)).
Proof.
  intros Hwf Hflt Htyp Hdone.
  destruct (resetDeadline_returns now a filterID flt Hwf Hflt) as (a1 & Hreset & _).
  exists a1. unfold GetFilterChanges. rewrite Hflt, Hreset. simpl. rewrite Htyp.
  apply resetDeadline_spec in Hreset as (Hf & _ & _ & Harmed).
  split; [| auto].
  destruct Hdone as [[Hhash Hpolled]|(toBlock & Hto & Hreached)].
  - rewrite bool_decide_eq_true_2 by assumption.
    now replace (lastToHeight flt >? 0) with true by (symmetry; apply Z.gtb_lt; lia).
  - destruct (bool_decide _ && _); [reflexivity |]. rewrite Hto.
    now replace (lastToHeight flt >=? BigInt_Int64 toBlock) with true
      by (symmetry; apply Z.geb_le; lia).
Qed.

(** X9.  A logs filter created with a [ToBlock] that is zero or negative
    gets nothing from [GetFilterChanges]: the cursor starts at 0, which
    has already reached such a [ToBlock], so the first poll returns nil
    with no error on any chain, and it leaves the registry well formed
    with the entry as created, so that the same holds of every poll after
    it. *)
Theorem GetFilterChanges_after_creation_with_low_ToBlock (fuel : nat) (f : LogFetcher)
  (now now' : Z) (a : FilterAPI) (crit : filters.FilterCriteria) (toBlock : Z) :
  wellFormed a ->
  filters.ToBlock crit = Some toBlock -> Int64.InRange toBlock -> toBlock <= 0 ->
  exists a',
    GetFilterChanges fuel f now' (NewFilter now a crit).2 (nextFilterID a)
    = Some (Nil, None, a')
    /\ filters a' = filters (NewFilter now a crit).2
    /\ wellFormed a'.
Proof.
  intros Hwf Hto Hrange Hlow.
  assert (Hwf1 : wellFormed (NewFilter now a crit).2) by now apply wellFormed_create.
  assert (Hflt : filters (NewFilter now a crit).2 !! nextFilterID a
                 = Some (mkFilter LogsSubscription crit (Some (length (timers a))) "" 0))
    by (simpl; apply lookup_insert_eq).
  destruct (resetDeadline_returns now' _ _ _ Hwf1 Hflt) as (a1 & Hreset & Hwf').
  exists a1. unfold GetFilterChanges. rewrite Hflt, Hreset.
  apply resetDeadline_spec in Hreset as (Hf & _).
  split; [| auto]. cbn [mbind option_bind typ fc lastToHeight].
  destruct (bool_decide _ && _); [reflexivity |]. rewrite Hto.
  unfold BigInt_Int64. rewrite Int64_wrap_id by assumption.
  now replace (0 >=? toBlock) with true by (symmetry; apply Z.geb_le; lia).
Qed.

Lemma GetLogsByFilters_error_nil (fuel : nat) (f : LogFetcher)
  (crit : filters.FilterCriteria) (lastToHeight_ : Z)
  (logs : list ethtypes.Log) (E : Z) (err : error) :
  GetLogsByFilters fuel f crit lastToHeight_ = Some (logs, E, Some err) ->
  logs = [] /\ E = 0.
Proof.
  unfold GetLogsByFilters. destruct (filters.BlockHash crit) as [blockHash|].
  - destruct (blockByHashWithRetry f blockHash); [discriminate |].
    now intros [= <- <- _].
  - destruct (FindBlockesByBloom _ _ _ _ _) as [blockHeights|]; simpl; [|discriminate].
    intros [= Hloop]. now apply GetLogsByFiltersLoop_error in Hloop as (-> & -> & _).
Qed.

(** X10.  [GetFilterLogs] answers what [GetLogs] answers for the criteria
    of the filter: the logs and the error do not depend on the cursor of
    the filter, nor on its type, nor on the time of the call. *)
Theorem GetFilterLogs_as_GetLogs (fuel : nat) (f : LogFetcher) (now : Z)
  (a : FilterAPI) (filterID : N) (flt : filter) :
  wellFormed a -> filters a !! filterID = Some flt ->
  (fun r => (r.1.1, r.1.2)) <$> GetFilterLogs fuel f now a filterID
  = GetLogs fuel f (fc flt).
Proof.
  intros Hwf Hflt.
  destruct (resetDeadline_returns now a filterID flt Hwf Hflt) as (a1 & Hreset & _).
  unfold GetFilterLogs, GetLogs. rewrite Hflt, Hreset. simpl.
  destruct (GetLogsByFilters fuel f (fc flt) 0) as [[[logs E] [err|]]|] eqn:Hscan;
    simpl; [| reflexivity | reflexivity].
  apply GetLogsByFilters_error_nil in Hscan as [-> _]. reflexivity.
Qed.
End LogPolls.

Lemma oneFilter_wellFormed : wellFormed oneFilter.
Proof.
  apply (runCalls_wellFormed (H := sampleHelpers) 0 [CallNewFilter 0 anyCriteria] 100).
  reflexivity.
Qed.

Lemma hashFilterPolled_wellFormed : wellFormed hashFilterPolled.
Proof.
  apply (runCalls_wellFormed (H := sampleHelpers) 0
           [CallNewFilter 0 byHashFive; CallGetFilterChanges (sampleChain 9) 5 1] 100).
  reflexivity.
Qed.

Lemma GetFilterChanges_nothing_new_witness :
  filters hashFilterPolled !! 1%N
  = Some (mkFilter LogsSubscription byHashFive (Some 0%nat) "" 6)
  /\ exists a',
       GetFilterChanges (H := sampleHelpers) 0 (brokenChain 9) 50 hashFilterPolled 1
       = Some (Nil, None, a')
       /\ filters a' = filters hashFilterPolled
       /\ (exists p, Some 0%nat = Some p /\ armedAt a' p (50 + timeout hashFilterPolled)).
Proof.
  split; [reflexivity |].
  apply (GetFilterChanges_nothing_new (H := sampleHelpers) 0 (brokenChain 9) 50
           hashFilterPolled 1 (mkFilter LogsSubscription byHashFive (Some 0%nat) "" 6)
           hashFilterPolled_wellFormed eq_refl eq_refl).
  left. split; [now exists 5%N | reflexivity].
Defined.

Lemma GetFilterChanges_after_creation_with_low_ToBlock_witness :
  filters.ToBlock upToTag = Some (-2)
  /\ exists a',
       GetFilterChanges (H := sampleHelpers) 20 (sampleChain 9) 5
         (NewFilter 0 (NewFilterAPI 100) upToTag).2 (nextFilterID (NewFilterAPI 100))
       = Some (Nil, None, a')
       /\ filters a' = filters (NewFilter 0 (NewFilterAPI 100) upToTag).2
       /\ wellFormed a'.
Proof.
  split; [reflexivity |].
  apply (GetFilterChanges_after_creation_with_low_ToBlock (H := sampleHelpers)
           20 (sampleChain 9) 0 5 (NewFilterAPI 100) upToTag (-2)
           (wellFormed_NewFilterAPI 100) eq_refl).
  - int64_range.
  - lia.
Defined.

Lemma GetFilterLogs_as_GetLogs_witness :
  filters polledOnce !! 1%N = Some (mkFilter LogsSubscription anyCriteria (Some 0%nat) "" 1)
  /\ (fun r => (r.1.1, r.1.2))
       <$> GetFilterLogs (H := sampleHelpers) 5 (sampleChain 0) 30 polledOnce 1
     = GetLogs (H := sampleHelpers) 5 (sampleChain 0) anyCriteria.
Proof.
  split; [reflexivity |].
  apply (GetFilterLogs_as_GetLogs (H := sampleHelpers) 5 (sampleChain 0) 30 polledOnce 1
           (mkFilter LogsSubscription anyCriteria (Some 0%nat) "" 1)).
  - apply (runCalls_wellFormed (H := sampleHelpers) 5
             [CallNewFilter 0 anyCriteria; CallGetFilterChanges (sampleChain 0) 10 1] 100).
    reflexivity.
  - reflexivity.
Defined.

(** ** What a scan returns *)

Section Scans.
Context `{H : Helpers}.

Lemma GetLogsForBlock_matches (f : LogFetcher) (block : coretypes.ResultBlock)
  (crit : filters.FilterCriteria) (idx : list (list bloomIndexes)) :
  FilterSound H ->
  Forall (fun l => IsLogExactMatch l crit = true) (GetLogsForBlock f block crit idx).
Proof.
  intros Hsound. unfold GetLogsForBlock.
  generalize (Hsound (FindLogsByBloom f (coretypes.Block_Height block) idx)
                (fun l => IsLogExactMatch l crit)).
  generalize (Filter (FindLogsByBloom f (coretypes.Block_Height block) idx)
                (fun l => IsLogExactMatch l crit)).
  generalize 0%nat.
  intros i matchedLogs Hall. revert i.
  induction Hall as [|l rest Hl Hrest IH]; intros i; simpl; constructor.
  - exact Hl.
  - apply IH.
Qed.

Lemma GetLogsByFiltersLoop_matches (f : LogFetcher) (crit : filters.FilterCriteria)
  (idx : list (list bloomIndexes)) (end_ : Z) (blockHeights : list Z)
  (res : list ethtypes.Log) :
  FilterSound H ->
  Forall (fun l => IsLogExactMatch l crit = true) res ->
  Forall (fun l => IsLogExactMatch l crit = true)
         (GetLogsByFiltersLoop f crit idx end_ blockHeights res).1.1.
Proof.
  intros Hsound. revert res.
  induction blockHeights as [|height rest IH]; intros res Hres; simpl.
  - exact Hres.
  - destruct (blockWithRetry f height) as [block|err]; simpl; [| constructor].
    apply IH. apply Forall_app. split; [assumption |].
    now apply GetLogsForBlock_matches.
Qed.

(** X11.  When [utils.Filter] returns only elements that its predicate
    accepts, every log that [GetLogsByFilters] returns, and so every log
    of [GetLogs], matches the criteria exactly: the bloom stage lets no
    false positive through to the caller. *)
Theorem returned_logs_match_exactly (fuel : nat) (f : LogFetcher)
  (crit : filters.FilterCriteria) :
  FilterSound H ->
  (forall lastToHeight_ logs E err,
     GetLogsByFilters fuel f crit lastToHeight_ = Some (logs, E, err) ->
     Forall (fun l => IsLogExactMatch l crit = true) logs)
  /\ (forall logs err,
        GetLogs fuel f crit = Some (logs, err) ->
        Forall (fun l => IsLogExactMatch l crit = true) logs).
Proof.
  intros Hsound.
  assert (Hscan : forall lastToHeight_ logs E err,
             GetLogsByFilters fuel f crit lastToHeight_ = Some (logs, E, err) ->
             Forall (fun l => IsLogExactMatch l crit = true) logs).
  { intros lastToHeight_ logs E err. unfold GetLogsByFilters.
    destruct (filters.BlockHash crit) as [blockHash|].
    - destruct (blockByHashWithRetry f blockHash) as [block|err'].
      + intros [= <- _ _]. now apply GetLogsForBlock_matches.
      + intros [= <- _ _]. constructor.
    - destruct (FindBlockesByBloom _ _ _ _ _) as [blockHeights|]; simpl; [|discriminate].
      intros [= Hloop].
      pose proof (GetLogsByFiltersLoop_matches f crit
                    (EncodeFilters (filters.Addresses crit) (filters.Topics crit))
                    (match filters.ToBlock crit with
                     | Some toBlock => getHeightFromBigIntBlockNumber (BlockHeight f) toBlock
                     | None => BlockHeight f
                     end) blockHeights [] Hsound (Forall_nil_2 _)) as Hall.
      now rewrite Hloop in Hall. }
  split; [exact Hscan |].
  intros logs err. unfold GetLogs.
  destruct (GetLogsByFilters fuel f crit 0) as [[[logs' E] err']|] eqn:Hcall;
    simpl; [|discriminate].
  intros [= <- <-]. eapply Hscan; eassumption.
Qed.

Lemma GetLogsByFiltersLoop_fetched (f : LogFetcher) (crit : filters.FilterCriteria)
  (end_ : Z) (blockHeights : list Z) (res : list ethtypes.Log) :
  (forall h, h ∈ blockHeights -> exists block, blockWithRetry f h = inl block) ->
  GetLogsByFiltersLoop f crit
    (EncodeFilters (filters.Addresses crit) (filters.Topics crit))
    end_ blockHeights res
  = (res ++ (blockHeights ≫= blockLogs f crit), end_, None).
Proof.
  revert res. induction blockHeights as [|height rest IH]; intros res Hall;
    cbn [GetLogsByFiltersLoop].
  - simpl. now rewrite app_nil_r.
  - rewrite bind_cons. unfold blockLogs at 1.
    destruct (Hall height) as [block Hblock]; [left |]. rewrite Hblock.
    rewrite IH; [now rewrite app_assoc |]. intros h Hin. apply Hall. now right.
Qed.

(** X12.  A scan by range whose upper end is below the largest [int64]
    returns, given fuel for one test per height and one more: when the
    blocks at the candidate heights can all be fetched it returns the
    end of the range and the logs of the candidate heights of the range,
    block after block in strictly increasing height. *)
Theorem range_scan_returns (fuel : nat) (f : LogFetcher)
  (crit : filters.FilterCriteria) (lastToHeight_ : Z) :
  let begin := (scanRange f crit lastToHeight_).1 in
  let end_ := (scanRange f crit lastToHeight_).2 in
  let heights :=
    candidateHeights f (EncodeFilters (filters.Addresses crit) (filters.Topics crit))
      begin end_ in
  filters.BlockHash crit = None ->
  Int64.InRange begin -> end_ < Int64.Max ->
  (Z.to_nat (end_ - begin + 1) < fuel)%nat ->
  (forall h, h ∈ heights -> exists block, blockWithRetry f h = inl block) ->
  GetLogsByFilters fuel f crit lastToHeight_
  = Some (heights ≫= blockLogs f crit, end_, None)
  /\ StronglySorted Z.lt heights
  /\ Forall (fun h => begin <= h <= end_) heights.
Proof.
  intros begin end_ heights Hhash Hbegin Hend Hfuel Hfetched.
  split; [| split; [apply candidateHeights_sorted | apply candidateHeights_bounds]].
  unfold GetLogsByFilters. rewrite Hhash.
  change (if lastToHeight_ >? _ then lastToHeight_ else _) with begin.
  change (match filters.ToBlock crit with Some _ => _ | None => _ end) with end_.
  unfold FindBlockesByBloom.
  rewrite FindBlockesByBloomLoop_returns by assumption.
  cbn [mbind option_bind app].
  fold heights. now rewrite (GetLogsByFiltersLoop_fetched f crit end_ heights []).
Qed.
End Scans.

Lemma sampleHelpers_FilterSound : FilterSound sampleHelpers.
Proof.
  intros l p. simpl. apply Forall_forall. intros x Hin.
  now apply list_elem_of_In, filter_In in Hin as [_ Hp].
Qed.

Lemma returned_logs_match_exactly_witness :
  GetLogs (H := sampleHelpers) 5 (sampleChain 0)
    (filters.mkCriteria None None None [18%N] [[291%N]])
  = Some ([ethtypes.mkLog 18 [291] [] 0 0 0 0 0 false]%N, None)
  /\ Forall (fun l => IsLogExactMatch l
                        (filters.mkCriteria None None None [18%N] [[291%N]]) = true)
       [ethtypes.mkLog 18 [291] [] 0 0 0 0 0 false]%N.
Proof.
  split; [reflexivity |].
  apply (proj2 (returned_logs_match_exactly (H := sampleHelpers) 5 (sampleChain 0)
                  (filters.mkCriteria None None None [18%N] [[291%N]])
                  sampleHelpers_FilterSound)
           _ None).
  reflexivity.
Defined.

Lemma range_scan_returns_witness :
  GetLogsByFilters (H := sampleHelpers) 3 (sampleChain 0) anyCriteria 0
  = Some (candidateHeights (H := sampleHelpers) (sampleChain 0) [] 0 0
            ≫= blockLogs (H := sampleHelpers) (sampleChain 0) anyCriteria, 0, None)
  /\ StronglySorted Z.lt (candidateHeights (H := sampleHelpers) (sampleChain 0) [] 0 0)
  /\ Forall (fun h => 0 <= h <= 0)
       (candidateHeights (H := sampleHelpers) (sampleChain 0) [] 0 0).
Proof.
  apply (range_scan_returns (H := sampleHelpers) 3 (sampleChain 0) anyCriteria 0).
  - reflexivity.
  - int64_range.
  - reflexivity.
  - simpl. lia.
  - intros h _. now eexists.
Defined.

(** ** Polls that scan *)

Section ScanningPolls.
Context `{H : Helpers}.

(** A poll of a logs filter that takes neither early exit is the scan
    from the stored height on, followed by the write of the new height. *)
Lemma GetFilterChanges_scan (fuel : nat) (f : LogFetcher) (now : Z)
  (a a1 : FilterAPI) (filterID : N) (flt : filter) :
  filters a !! filterID = Some flt -> typ flt = LogsSubscription ->
  (is_Some (filters.BlockHash (fc flt)) -> lastToHeight flt <= 0) ->
  (forall toBlock, filters.ToBlock (fc flt) = Some toBlock ->
                   lastToHeight flt < BigInt_Int64 toBlock) ->
  resetDeadline now a flt = Some a1 ->
  GetFilterChanges fuel f now a filterID
  = r ← GetLogsByFilters fuel f (fc flt) (lastToHeight flt);
    match r.2 with
    | Some err => Some (Nil, Some err, a1)
    | None =>
        Some (Logs r.1.1, None,
              setFilterMap
                (<[filterID := mkFilter LogsSubscription (fc flt) (deadline flt)
                                 (blockCursor flt) (Int64.wrap (r.1.2 + 1))]> (filters a))
                a1)
    end.
Proof.
  intros Hflt Htyp Hhash Hto Hreset.
  unfold GetFilterChanges. rewrite Hflt, Hreset. simpl. rewrite Htyp.
  apply resetDeadline_spec in Hreset as (Hf & _).
  assert (Hat : filterAt a1 filterID = flt) by (unfold filterAt; now rewrite Hf, Hflt).
  rewrite Hat, Hf, Htyp.
  replace (bool_decide (is_Some (filters.BlockHash (fc flt))) && (lastToHeight flt >? 0))
    with false.
  2:{ symmetry. apply andb_false_iff.
      destruct (decide (is_Some (filters.BlockHash (fc flt)))) as [Hsome|Hnone].
      - right. rewrite Z.gtb_ltb. apply Z.ltb_ge. auto.
      - left. now apply bool_decide_eq_false_2. }
  replace (match filters.ToBlock (fc flt) with
           | Some toBlock => lastToHeight flt >=? BigInt_Int64 toBlock
           | None => false
           end) with false.
  2:{ destruct (filters.ToBlock (fc flt)) as [toBlock|]; [| reflexivity].
      symmetry. rewrite Z.geb_leb. apply Z.leb_gt. auto. }
  destruct (GetLogsByFilters _ _ _ _) as [[[logs E] [err|]]|]; reflexivity.
Qed.

(** The early exits of a poll of a logs filter. *)
Lemma GetFilterChanges_exit (fuel : nat) (f : LogFetcher) (now : Z)
  (a : FilterAPI) (filterID : N) (flt : filter) :
  wellFormed a ->
  filters a !! filterID = Some flt -> typ flt = LogsSubscription ->
  (is_Some (filters.BlockHash (fc flt)) /\ 0 < lastToHeight flt)
  \/ (exists toBlock, filters.ToBlock (fc flt) = Some toBlock
                      /\ BigInt_Int64 toBlock <= lastToHeight flt) ->
  exists a',
    GetFilterChanges fuel f now a filterID = Some (Nil, None, a')
    /\ filters a' = filters a.
Proof.
  intros Hwf Hflt Htyp Hdone.
  destruct (resetDeadline_returns now a filterID flt Hwf Hflt) as (a1 & Hreset & _).
  exists a1. unfold GetFilterChanges. rewrite Hflt, Hreset. simpl. rewrite Htyp.
  apply resetDeadline_spec in Hreset as (Hf & _).
  split; [| assumption].
  destruct Hdone as [[Hhash Hpolled]|(toBlock & Hto & Hreached)].
  - rewrite bool_decide_eq_true_2 by assumption.
    now replace (lastToHeight flt >? 0) with true by (symmetry; apply Z.gtb_lt; lia).
  - destruct (bool_decide _ && _); [reflexivity |]. rewrite Hto.
    now replace (lastToHeight flt >=? BigInt_Int64 toBlock) with true
      by (symmetry; apply Z.geb_le; lia).
Qed.

(** X13.  A poll of a logs filter without block hash and upper bound
    whose stored height is above the latest height returns, with fuel
    for one test, an empty list of logs and no error, whatever the block
    client answers: no block is fetched.  It stores the latest height
    plus one, so a filter polled again at the same chain height keeps
    its entry. *)
Theorem poll_without_new_block (fuel : nat) (f : LogFetcher) (now : Z)
  (a : FilterAPI) (filterID : N) (flt : filter) :
  wellFormed a ->
  filters a !! filterID = Some flt -> typ flt = LogsSubscription ->
  filters.BlockHash (fc flt) = None -> filters.ToBlock (fc flt) = None ->
  BlockHeight f < lastToHeight flt ->
  exists a',
    GetFilterChanges (S fuel) f now a filterID = Some (Logs [], None, a')
    /\ filters a'
       = <[filterID := mkFilter LogsSubscription (fc flt) (deadline flt) (blockCursor flt)
                         (Int64.wrap (BlockHeight f + 1))]> (filters a)
    /\ (lastToHeight flt = BlockHeight f + 1 -> Int64.InRange (lastToHeight flt) ->
        filters a' = filters a).
Proof.
  intros Hwf Hflt Htyp Hhash Hto Hpast.
  destruct (resetDeadline_returns now a filterID flt Hwf Hflt) as (a1 & Hreset & _).
  rewrite (GetFilterChanges_scan (S fuel) f now a a1 filterID flt Hflt Htyp); try assumption.
  2:{ rewrite Hhash. intros [x Hx]. discriminate. }
  2:{ rewrite Hto. discriminate. }
  assert (Hscan : GetLogsByFilters (S fuel) f (fc flt) (lastToHeight flt)
                  = Some ([], BlockHeight f, None)).
  { unfold GetLogsByFilters. rewrite Hhash, Hto. unfold FindBlockesByBloom. simpl.
    replace (_ <=? BlockHeight f) with false; [reflexivity |].
    symmetry. apply Z.leb_gt.
    destruct (Z.gtb_spec (lastToHeight flt)
                (match filters.FromBlock (fc flt) with
                 | Some fromBlock => getHeightFromBigIntBlockNumber (BlockHeight f) fromBlock
                 | None => 0
                 end)); lia. }
  rewrite Hscan. simpl. eexists. split; [reflexivity |]. simpl. split; [reflexivity |].
  intros Hnext Hrange. rewrite <- Hnext, Int64_wrap_id by assumption.
  apply insert_id. rewrite Hflt. f_equal. destruct flt; simpl in *. now subst.
Qed.

(** X14.  A logs filter by block hash delivers its block once to
    [GetFilterChanges].  Take such a filter with a cursor at or below 0
    and no [ToBlock] at or below the cursor: a poll returns the logs of
    the block, when the block can be fetched and its height is an [int64]
    from 0 on below the largest, and stores the height plus one.  From
    then on a [GetFilterChanges] on any well-formed registry that holds
    the entry as this poll left it returns nil without an error,
    whatever the chain then holds, and leaves the entries as they are,
    so that this goes on from poll to poll; a [GetFilterLogs] on the
    filter rewrites the cursor and ends it. *)
Theorem by_hash_filter_delivers_once (fuel : nat) (f : LogFetcher) (now : Z)
  (a : FilterAPI) (filterID : N) (flt : filter)
  (blockHash : common.Hash) (block : coretypes.ResultBlock) :
  wellFormed a ->
  filters a !! filterID = Some flt -> typ flt = LogsSubscription ->
  filters.BlockHash (fc flt) = Some blockHash ->
  (forall toBlock, filters.ToBlock (fc flt) = Some toBlock ->
                   lastToHeight flt < BigInt_Int64 toBlock) ->
  lastToHeight flt <= 0 ->
  blockByHashWithRetry f blockHash = inl block ->
  0 <= coretypes.Block_Height block < Int64.Max ->
  exists a1,
    GetFilterChanges fuel f now a filterID
    = Some (Logs (GetLogsForBlock f block (fc flt)
                    (EncodeFilters (filters.Addresses (fc flt)) (filters.Topics (fc flt)))),
            None, a1)
    /\ filters a1 !! filterID
       = Some (mkFilter LogsSubscription (fc flt) (deadline flt) (blockCursor flt)
                 (coretypes.Block_Height block + 1))
    /\ wellFormed a1
    /\ forall a1' fuel' f' now',
         wellFormed a1' -> filters a1' !! filterID = filters a1 !! filterID ->
         exists a2,
           GetFilterChanges fuel' f' now' a1' filterID = Some (Nil, None, a2)
           /\ filters a2 = filters a1'.
Proof.
  intros Hwf Hflt Htyp Hhash Hto Hfresh Hblock Hheight.
  destruct (resetDeadline_returns now a filterID flt Hwf Hflt) as (a1 & Hreset & Hwf1).
  pose proof (GetFilterChanges_scan fuel f now a a1 filterID flt Hflt Htyp
                (fun _ => Hfresh) Hto Hreset) as Hcall.
  assert (Hscan : GetLogsByFilters fuel f (fc flt) (lastToHeight flt)
                  = Some (GetLogsForBlock f block (fc flt)
                            (EncodeFilters (filters.Addresses (fc flt))
                                           (filters.Topics (fc flt))),
                          coretypes.Block_Height block, None)).
  { unfold GetLogsByFilters. now rewrite Hhash, Hblock. }
  rewrite Hscan in Hcall. simpl in Hcall.
  rewrite Int64_wrap_succ in Hcall
    by (unfold Int64.InRange, Int64.Min, Int64.Max in *; lia).
  eexists. split; [exact Hcall |].
  apply resetDeadline_spec in Hreset as (Hf & _).
  split; [simpl; apply lookup_insert_eq |].
  split.
  { rewrite <- Hf.
    eapply wellFormed_update; [exact Hwf1 | rewrite Hf; exact Hflt | reflexivity]. }
  intros a1' fuel' f' now' Hwf' Hsame.
  eapply GetFilterChanges_exit.
  - exact Hwf'.
  - rewrite Hsame. simpl. apply lookup_insert_eq.
  - reflexivity.
  - left. simpl. rewrite Hhash. split; [eauto | lia].
Qed.

End ScanningPolls.

Lemma polledOnce_wellFormed : wellFormed polledOnce.
Proof.
  apply (runCalls_wellFormed (H := sampleHelpers) 5
           [CallNewFilter 0 anyCriteria; CallGetFilterChanges (sampleChain 0) 10 1] 100).
  reflexivity.
Qed.

Lemma hashFilter_wellFormed : wellFormed hashFilter.
Proof.
  apply (runCalls_wellFormed (H := sampleHelpers) 0 [CallNewFilter 0 byHashFive] 100).
  reflexivity.
Qed.


Lemma poll_without_new_block_witness :
  BlockHeight (brokenChain 0) < 1
  /\ exists a',
       GetFilterChanges (H := sampleHelpers) 1 (brokenChain 0) 20 polledOnce 1
       = Some (Logs [], None, a')
       /\ filters a'
          = <[1%N := mkFilter LogsSubscription anyCriteria (Some 0%nat) ""
                       (Int64.wrap (BlockHeight (brokenChain 0) + 1))]> (filters polledOnce)
       /\ (1 = BlockHeight (brokenChain 0) + 1 -> Int64.InRange 1 ->
           filters a' = filters polledOnce).
Proof.
  split; [reflexivity |].
  apply (poll_without_new_block (H := sampleHelpers) 0 (brokenChain 0) 20 polledOnce 1
           (mkFilter LogsSubscription anyCriteria (Some 0%nat) "" 1)
           polledOnce_wellFormed eq_refl eq_refl eq_refl eq_refl).
  reflexivity.
Defined.

Lemma by_hash_filter_delivers_once_witness :
  blockByHashWithRetry (sampleChain 9) 5%N = inl (coretypes.mkResultBlock 5%N 5)
  /\ exists a1,
       GetFilterChanges (H := sampleHelpers) 0 (sampleChain 9) 5 hashFilter 1
       = Some (Logs (GetLogsForBlock (H := sampleHelpers) (sampleChain 9)
                       (coretypes.mkResultBlock 5%N 5) byHashFive []),
               None, a1)
       /\ filters a1 !! 1%N
          = Some (mkFilter LogsSubscription byHashFive (Some 0%nat) "" (5 + 1))
       /\ wellFormed a1
       /\ forall a1' fuel' f' now',
            wellFormed a1' -> filters a1' !! 1%N = filters a1 !! 1%N ->
            exists a2,
              GetFilterChanges (H := sampleHelpers) fuel' f' now' a1' 1
              = Some (Nil, None, a2)
              /\ filters a2 = filters a1'.
Proof.
  split; [reflexivity |].
  apply (by_hash_filter_delivers_once (H := sampleHelpers) 0 (sampleChain 9) 5 hashFilter 1
           (mkFilter LogsSubscription byHashFive (Some 0%nat) "" 0) 5%N
           (coretypes.mkResultBlock 5%N 5)
           hashFilter_wellFormed eq_refl eq_refl eq_refl).
  - discriminate.
  - simpl. lia.
  - reflexivity.
  - unfold Int64.Max. simpl. lia.
Defined.


(** ** Deadlines and the sweep *)

Lemma allArmed_wellFormed (a : FilterAPI) : allArmed a -> wellFormed a.
Proof.
  intros [Htimer Hinj]. split; [| exact Hinj].
  intros id flt Hflt. destruct (Htimer id flt Hflt) as (p & t & Hd & Ht & Hactive & _).
  exists p, t. auto.
Qed.

Lemma allArmed_NewFilterAPI (timeout_ : Z) : allArmed (NewFilterAPI timeout_).
Proof.
  split.
  - intros id flt Hflt. simpl in Hflt. now rewrite lookup_empty in Hflt.
  - intros id1 id2 flt1 flt2 Hflt. simpl in Hflt. now rewrite lookup_empty in Hflt.
Qed.

Lemma allArmed_ext (a a' : FilterAPI) :
  filters a' = filters a -> timers a' = timers a -> allArmed a -> allArmed a'.
Proof. unfold allArmed. intros -> ->. trivial. Qed.

Lemma allArmed_deadlineAt (a : FilterAPI) (id : N) (flt : filter) :
  allArmed a -> filters a !! id = Some flt ->
  exists p t, deadline flt = Some p /\ timers a !! p = Some t
              /\ timer.active t = true /\ timer.C t = None
              /\ deadlineAt a flt = Some (timer.when t).
Proof.
  intros [Htimer _] Hflt.
  destruct (Htimer id flt Hflt) as (p & t & Hd & Ht & Hactive & HC).
  exists p, t. repeat (split; [assumption |]).
  unfold deadlineAt. rewrite Hd. simpl. now rewrite Ht.
Qed.

Lemma allArmed_create (a : FilterAPI) (next : N) (id : N) (flt : filter) (now : Z) :
  allArmed a -> deadline flt = Some (length (timers a)) ->
  allArmed (mkFilterAPI next (<[id := flt]> (filters a))
              (timers a ++ [timer.NewTimer now (timeout a)]) (timeout a)).
Proof.
  intros [Htimer Hinj] Hp. split; simpl.
  - intros id' flt' Hflt. rewrite lookup_insert in Hflt. case_decide as Hid.
    + injection Hflt as <-. exists (length (timers a)), (timer.NewTimer now (timeout a)).
      split; [assumption |]. split; [now apply list_lookup_middle | now split].
    + destruct (Htimer id' flt' Hflt) as (p & t' & Hd & Ht & Hstate).
      exists p, t'. split; [assumption |]. split; [| assumption].
      now apply lookup_app_l_Some.
  - intros id1 id2 flt1 flt2 Hflt1 Hflt2 Hsame.
    destruct (decide (id = id1)) as [<-|Hid1]; destruct (decide (id = id2)) as [<-|Hid2];
      [reflexivity | | |].
    + rewrite lookup_insert_eq in Hflt1. rewrite lookup_insert_ne in Hflt2 by assumption.
      injection Hflt1 as <-.
      destruct (Htimer id2 flt2 Hflt2) as (p & t' & Hd & Ht & _).
      apply lookup_lt_Some in Ht. rewrite Hp, Hd in Hsame. injection Hsame as <-. lia.
    + rewrite lookup_insert_eq in Hflt2. rewrite lookup_insert_ne in Hflt1 by assumption.
      injection Hflt2 as <-.
      destruct (Htimer id1 flt1 Hflt1) as (p & t' & Hd & Ht & _).
      apply lookup_lt_Some in Ht. rewrite Hp, Hd in Hsame. injection Hsame as ->. lia.
    + rewrite lookup_insert_ne in Hflt1, Hflt2 by assumption.
      now apply (Hinj id1 id2 flt1 flt2).
Qed.

Lemma allArmed_update (a : FilterAPI) (id : N) (flt flt' : filter) :
  allArmed a -> filters a !! id = Some flt -> deadline flt' = deadline flt ->
  allArmed (setFilterMap (<[id := flt']> (filters a)) a).
Proof.
  intros [Htimer Hinj] Hflt Hsame. split; simpl.
  - intros id' flt'' Hlook. rewrite lookup_insert in Hlook. case_decide as Hid.
    + injection Hlook as <-. rewrite Hsame. now apply (Htimer id).
    + now apply (Htimer id').
  - assert (Hold : forall i fi, <[id := flt']> (filters a) !! i = Some fi ->
                     exists fi', filters a !! i = Some fi' /\ deadline fi' = deadline fi).
    { intros i fi Hlook. rewrite lookup_insert in Hlook. case_decide as Hid.
      - injection Hlook as <-. subst i. now exists flt.
      - now exists fi. }
    intros id1 id2 flt1 flt2 Hflt1 Hflt2 Hd.
    apply Hold in Hflt1 as (f1 & Hf1 & Hd1). apply Hold in Hflt2 as (f2 & Hf2 & Hd2).
    apply (Hinj id1 id2 f1 f2); congruence.
Qed.

Lemma allArmed_delete (a : FilterAPI) (id : N) :
  allArmed a -> allArmed (setFilterMap (delete id (filters a)) a).
Proof.
  intros [Htimer Hinj]. split; simpl.
  - intros id' flt Hflt. apply lookup_delete_Some in Hflt as [_ Hflt].
    now apply (Htimer id').
  - intros id1 id2 flt1 flt2 Hflt1 Hflt2.
    apply lookup_delete_Some in Hflt1 as [_ Hflt1].
    apply lookup_delete_Some in Hflt2 as [_ Hflt2].
    now apply Hinj.
Qed.

(** The stop, drain and reset leaves the timer of the filter armed with an
    empty channel, to fire one timeout after [now]; the other timers are
    not touched. *)
Lemma resetDeadline_allArmed (now : Z) (a : FilterAPI) (id : N) (flt : filter) :
  allArmed a -> filters a !! id = Some flt ->
  exists a', resetDeadline now a flt = Some a' /\ allArmed a'
    /\ filters a' = filters a
    /\ deadlineAt a' flt = Some (now + timeout a)
    /\ (forall id' flt', filters a !! id' = Some flt' -> id' <> id ->
                         deadlineAt a' flt' = deadlineAt a flt').
Proof.
  intros Harmed Hflt. pose proof Harmed as [Htimer Hinj].
  destruct (Htimer id flt Hflt) as (p & t & Hd & Ht & Hactive & HC).
  apply lookup_lt_Some in Ht as Hlt.
  assert (Hreset : exists t', resetDeadline now a flt
                              = Some (setTimers (<[p := t']> (timers a)) a)
                              /\ timer.active t' = true /\ timer.C t' = None
                              /\ timer.when t' = now + timeout a).
  { unfold resetDeadline. rewrite Hd. simpl. rewrite Ht. simpl.
    unfold timer.Stop, timer.fire. rewrite Hactive, HC. simpl.
    destruct (timer.when t <=? now); simpl.
    - unfold timer.receive. simpl. eexists. split; [reflexivity |].
      unfold timer.Reset, timer.fire. simpl. auto.
    - rewrite Hactive. eexists. split; [reflexivity |].
      unfold timer.Reset, timer.fire. simpl. rewrite HC. auto. }
  destruct Hreset as (t' & -> & Hactive' & HC' & Hwhen').
  eexists. split; [reflexivity |]. split; [| split; [reflexivity | split]].
  - split; simpl; [| exact Hinj].
    intros id' flt' Hflt'.
    destruct (Htimer id' flt' Hflt') as (p' & t'' & Hd' & Ht' & Hstate').
    exists p'. destruct (decide (p' = p)) as [->|Hne].
    + exists t'. split; [assumption |].
      rewrite list_lookup_insert_eq by assumption. auto.
    + exists t''. split; [assumption |].
      rewrite list_lookup_insert_ne by congruence. auto.
  - unfold deadlineAt. rewrite Hd. simpl.
    rewrite list_lookup_insert_eq by assumption. simpl. now rewrite Hwhen'.
  - intros id' flt' Hflt' Hne.
    destruct (Htimer id' flt' Hflt') as (p' & t'' & Hd' & Ht' & _).
    unfold deadlineAt. rewrite Hd'. simpl.
    rewrite list_lookup_insert_ne; [reflexivity |].
    intros <-. apply Hne. apply (Hinj id' id flt' flt); congruence.
Qed.

(** The sweep over [entries]: the entries whose timer has fired by [now]
    are removed, everything else stays, timers included. *)
Lemma sweep_allArmed (now : Z) (entries : list (N * filter)) (a : FilterAPI) :
  allArmed a -> NoDup entries.*1 ->
  (forall id flt, (id, flt) ∈ entries -> filters a !! id = Some flt) ->
  exists a',
    foldl (sweepFilter now) (Some a) entries = Some a' /\ allArmed a'
    /\ nextFilterID a' = nextFilterID a /\ timeout a' = timeout a
    /\ (forall id flt,
          filters a' !! id = Some flt
          <-> filters a !! id = Some flt
              /\ ((id, flt) ∈ entries -> exists w, deadlineAt a flt = Some w /\ now < w))
    /\ (forall id flt, filters a' !! id = Some flt -> deadlineAt a' flt = deadlineAt a flt).
Proof.
  revert a. induction entries as [|[id flt] rest IH]; intros a Harmed Hnodup Hin; simpl.
  - exists a. do 4 (split; [easy |]). split; [| easy].
    intros id flt. split; [intros Hflt; split; [assumption | intros Hel; inversion Hel]
                          | now intros [Hflt _]].
  - apply NoDup_cons in Hnodup as [Hfresh Hnodup]. simpl in Hfresh.
    pose proof Harmed as [Htimer Hinj].
    assert (Hflt : filters a !! id = Some flt) by (apply Hin; left).
    destruct (allArmed_deadlineAt a id flt Harmed Hflt)
      as (p & t & Hd & Ht & Hactive & HC & Hat).
    rewrite Hd. simpl. rewrite Ht. simpl.
    unfold timer.fire, timer.receive. rewrite Hactive, HC. simpl.
    destruct (Z.leb_spec (timer.when t) now) as [Hfired|Hlater]; simpl.
    + apply lookup_lt_Some in Ht as Hlt.
      assert (Hother : forall i fi, filters a !! i = Some fi -> i <> id ->
                 deadlineAt
                   (setFilterMap (delete id (filters a))
                      (setTimers (<[p := timer.mkTimer false (timer.when t) None]> (timers a))
                         a)) fi
                 = deadlineAt a fi).
      { intros i fi Hfi Hne.
        destruct (Htimer i fi Hfi) as (p' & t' & Hd' & Ht' & _).
        unfold deadlineAt. rewrite Hd'. simpl.
        rewrite list_lookup_insert_ne; [reflexivity |].
        intros <-. apply Hne. apply (Hinj i id fi flt); congruence. }
      destruct (IH (setFilterMap (delete id (filters a))
                      (setTimers (<[p := timer.mkTimer false (timer.when t) None]> (timers a))
                         a)))
        as (a' & Hrun & Harmed' & Hnext & Htimeout & Hmap & Hkept).
      * split; simpl.
        -- intros id' flt' Hlook. apply lookup_delete_Some in Hlook as [Hne Hlook].
           destruct (Htimer id' flt' Hlook) as (p' & t'' & Hd' & Ht' & Hstate).
           exists p', t''. split; [assumption |]. split; [| assumption].
           rewrite list_lookup_insert_ne; [assumption |].
           intros <-. apply Hne. apply (Hinj id id' flt flt'); congruence.
        -- intros id1 id2 flt1 flt2 Hflt1 Hflt2.
           apply lookup_delete_Some in Hflt1 as [_ Hflt1].
           apply lookup_delete_Some in Hflt2 as [_ Hflt2].
           now apply Hinj.
      * assumption.
      * intros id' flt' Hin'. simpl. rewrite lookup_delete_ne.
        -- apply Hin. now right.
        -- intros <-. apply Hfresh. apply list_elem_of_fmap. now exists (id, flt').
      * exists a'. split; [exact Hrun |]. split; [assumption |].
        split; [assumption |]. split; [assumption |]. split.
        -- intros i fi. rewrite Hmap. simpl. rewrite lookup_delete_Some. split.
           ++ intros [[Hne Hfi] Hrest]. split; [assumption |].
              intros Hel. apply elem_of_cons in Hel as [[= -> ->]|Hel]; [congruence |].
              rewrite <- (Hother i fi Hfi) by congruence. auto.
           ++ intros [Hfi Hcond].
              assert (Hne : id <> i).
              { intros <-. rewrite Hflt in Hfi. injection Hfi as <-.
                destruct Hcond as (w & Hw & Hnow); [left |].
                rewrite Hat in Hw. injection Hw as <-. lia. }
              split; [now split |]. intros Hel.
              rewrite (Hother i fi Hfi) by congruence. apply Hcond. now right.
        -- intros i fi Hfi. rewrite (Hkept i fi Hfi).
           apply Hmap in Hfi as [Hfi _]. simpl in Hfi.
           apply lookup_delete_Some in Hfi as [Hne Hfi]. apply (Hother i); congruence.
    + rewrite HC.
      destruct (IH a Harmed Hnodup) as (a' & Hrun & Harmed' & Hnext & Htimeout & Hmap & Hkept).
      { intros id' flt' Hin'. apply Hin. now right. }
      exists a'. split; [exact Hrun |]. repeat (split; [assumption |]). split; [| assumption].
      intros i fi. rewrite Hmap. split.
      * intros [Hfi Hrest]. split; [assumption |].
        intros Hel. apply elem_of_cons in Hel as [[= -> ->]|Hel]; [| auto].
        exists (timer.when t). split; [assumption | lia].
      * intros [Hfi Hcond]. split; [assumption |]. intros Hel. apply Hcond. now right.
Qed.

Lemma timeoutTick_allArmed (now : Z) (a : FilterAPI) :
  allArmed a ->
  exists a',
    timeoutTick now a = Some a' /\ allArmed a'
    /\ nextFilterID a' = nextFilterID a /\ timeout a' = timeout a
    /\ (forall id flt,
          filters a' !! id = Some flt
          <-> filters a !! id = Some flt
              /\ exists w, deadlineAt a flt = Some w /\ now < w)
    /\ (forall id flt, filters a' !! id = Some flt -> deadlineAt a' flt = deadlineAt a flt).
Proof.
  intros Harmed. unfold timeoutTick.
  destruct (sweep_allArmed now (map_to_list (filters a)) a Harmed)
    as (a' & Hrun & Harmed' & Hnext & Htimeout & Hmap & Hkept).
  - apply NoDup_fst_map_to_list.
  - intros id flt Hin. now apply elem_of_map_to_list in Hin.
  - exists a'. do 4 (split; [assumption |]). split; [| assumption].
    intros id flt. rewrite Hmap. split.
    + intros [Hflt Hcond]. split; [assumption |]. apply Hcond.
      now apply elem_of_map_to_list.
    + intros [Hflt Hcond]. auto.
Qed.

(** X16.  One tick of the timeout loop on a registry whose filters each
    have an armed timer of their own returns, and removes the filters
    whose deadline is at or before the tick and no others: filters, ID
    counter and the deadlines of the remaining filters stay as they
    are. *)
Theorem timeoutTick_removes_expired (now : Z) (a : FilterAPI) :
  allArmed a ->
  exists a',
    timeoutTick now a = Some a'
    /\ nextFilterID a' = nextFilterID a
    /\ (forall id flt,
          filters a' !! id = Some flt
          <-> filters a !! id = Some flt
              /\ exists w, deadlineAt a flt = Some w /\ now < w)
    /\ (forall id flt, filters a' !! id = Some flt -> deadlineAt a' flt = deadlineAt a flt).
Proof.
  intros Harmed.
  destruct (timeoutTick_allArmed now a Harmed) as (a' & Hrun & _ & Hnext & _ & Hmap & Hkept).
  exists a'. auto.
Qed.

Section Deadlines.
Context `{H : Helpers}.

(** What a poll that finds its filter leaves behind, with or without an
    error. *)
Lemma GetFilterChanges_allArmed (fuel : nat) (f : LogFetcher) (now : Z)
  (a : FilterAPI) (filterID : N) (flt : filter) (r : changes * option error * FilterAPI) :
  allArmed a -> filters a !! filterID = Some flt ->
  GetFilterChanges fuel f now a filterID = Some r ->
  allArmed r.2 /\ timeout r.2 = timeout a
  /\ exists flt', filters r.2 !! filterID = Some flt'
                  /\ deadlineAt r.2 flt' = Some (now + timeout a).
Proof.
  intros Harmed Hflt.
  destruct (resetDeadline_allArmed now a filterID flt Harmed Hflt)
    as (a1 & Hreset & Harmed1 & Hf & Hat & _).
  pose proof (resetDeadline_spec now a a1 flt Hreset) as (_ & _ & Htimeout & _).
  assert (Hentry : filterAt a1 filterID = flt) by (unfold filterAt; now rewrite Hf, Hflt).
  assert (Hsame : allArmed a1 /\ timeout a1 = timeout a
                  /\ exists flt', filters a1 !! filterID = Some flt'
                                  /\ deadlineAt a1 flt' = Some (now + timeout a)).
  { split; [assumption |]. split; [assumption |]. exists flt. now rewrite Hf. }
  assert (Hupdate : forall cursor height,
             let a' := setFilterMap
                         (<[filterID := mkFilter (typ flt) (fc flt) (deadline flt)
                                          cursor height]> (filters a1)) a1 in
             allArmed a' /\ timeout a' = timeout a
             /\ exists flt', filters a' !! filterID = Some flt'
                             /\ deadlineAt a' flt' = Some (now + timeout a)).
  { intros cursor height a'. split; [| split; [assumption |]].
    - eapply allArmed_update; [exact Harmed1 | rewrite Hf; exact Hflt | reflexivity].
    - eexists. split; [apply lookup_insert_eq | exact Hat]. }
  unfold GetFilterChanges. rewrite Hflt, Hreset. simpl. rewrite Hentry.
  destruct (typ flt) eqn:Htyp.
  - now intros [= <-].
  - destruct (_ && _); [now intros [= <-] |].
    destruct (match filters.ToBlock (fc flt) with Some _ => _ | None => _ end);
      [now intros [= <-] |].
    destruct (GetLogsByFilters _ _ _ _) as [[[logs E] [err|]]|]; simpl;
      [now intros [= <-] | | discriminate].
    intros [= <-]. apply Hupdate.
  - destruct (getBlockHeadersAfter _ _ _) as [[[hashes cursor] [err|]]|]; simpl;
      [now intros [= <-] | | discriminate].
    intros [= <-]. apply Hupdate.
Qed.

Lemma GetFilterLogs_allArmed (fuel : nat) (f : LogFetcher) (now : Z)
  (a : FilterAPI) (filterID : N) (flt : filter)
  (r : list ethtypes.Log * option error * FilterAPI) :
  allArmed a -> filters a !! filterID = Some flt ->
  GetFilterLogs fuel f now a filterID = Some r ->
  allArmed r.2 /\ timeout r.2 = timeout a
  /\ exists flt', filters r.2 !! filterID = Some flt'
                  /\ deadlineAt r.2 flt' = Some (now + timeout a).
Proof.
  intros Harmed Hflt.
  destruct (resetDeadline_allArmed now a filterID flt Harmed Hflt)
    as (a1 & Hreset & Harmed1 & Hf & Hat & _).
  pose proof (resetDeadline_spec now a a1 flt Hreset) as (_ & _ & Htimeout & _).
  assert (Hentry : filterAt a1 filterID = flt) by (unfold filterAt; now rewrite Hf, Hflt).
  unfold GetFilterLogs. rewrite Hflt, Hreset. simpl. rewrite Hentry.
  destruct (GetLogsByFilters _ _ _ _) as [[[logs E] [err|]]|]; simpl;
    [| | discriminate]; intros [= <-]; simpl.
  - split; [assumption |]. split; [assumption |]. exists flt. now rewrite Hf.
  - split; [| split; [assumption |]].
    + eapply allArmed_update; [exact Harmed1 | rewrite Hf; exact Hflt | reflexivity].
    + eexists. split; [apply lookup_insert_eq | exact Hat].
Qed.

(** Every call that returns leaves each filter with an armed timer of its
    own, and the timeout as it was. *)
Lemma step_allArmed (fuel : nat) (c : call) (a a' : FilterAPI) (r : option N) :
  allArmed a -> step fuel c a = Some (r, a') -> allArmed a' /\ timeout a' = timeout a.
Proof.
  intros Harmed.
  destruct c as [now crit|now|f now filterID|f now filterID|filterID|now]; simpl.
  - intros [= _ <-]. split; [now apply allArmed_create | reflexivity].
  - intros [= _ <-]. split; [now apply allArmed_create | reflexivity].
  - destruct (GetFilterChanges _ _ _ _ _) as [res|] eqn:Hcall; simpl; [|discriminate].
    intros [= _ <-].
    destruct (filters a !! filterID) as [flt|] eqn:Hflt.
    + destruct (GetFilterChanges_allArmed _ _ _ _ _ _ _ Harmed Hflt Hcall) as (? & ? & _).
      auto.
    + unfold GetFilterChanges in Hcall. rewrite Hflt in Hcall.
      injection Hcall as <-. auto.
  - destruct (GetFilterLogs _ _ _ _ _) as [res|] eqn:Hcall; simpl; [|discriminate].
    intros [= _ <-].
    destruct (filters a !! filterID) as [flt|] eqn:Hflt.
    + destruct (GetFilterLogs_allArmed _ _ _ _ _ _ _ Harmed Hflt Hcall) as (? & ? & _).
      auto.
    + unfold GetFilterLogs in Hcall. rewrite Hflt in Hcall.
      injection Hcall as <-. auto.
  - intros [= _ <-]. unfold UninstallFilter.
    destruct (filters a !! filterID); [| auto].
    split; [now apply allArmed_delete | reflexivity].
  - destruct (timeoutTick_allArmed now a Harmed) as (a1 & -> & Harmed1 & _ & Htimeout & _).
    simpl. intros [= _ <-]. auto.
Qed.

Lemma runCalls_allArmed (fuel : nat) (cs : list call) (a0 a : FilterAPI) :
  allArmed a0 -> runCalls fuel cs a0 = Some a -> allArmed a /\ timeout a = timeout a0.
Proof.
  revert a0. induction cs as [|c rest IH]; intros a0 Harmed; simpl.
  - now intros [= <-].
  - destruct (step fuel c a0) as [[r a1]|] eqn:Hstep; simpl; [|discriminate].
    apply step_allArmed in Hstep as [Harmed1 Htimeout]; [| assumption].
    intros Hrun. apply IH in Hrun as [? ?]; [| assumption]. split; [assumption | congruence].
Qed.

(** X17.  In every registry that a sequence of calls builds from
    [NewFilterAPI] (creations, polls with or without errors, uninstalls,
    ticks of the timeout loop), each registered filter has a timer of
    its own that has been neither stopped nor drained: at any time
    before its deadline the timer is armed with an empty channel, and
    from its deadline on it has fired and its value is still in the
    channel, for the timeout loop to find.  The timeout is the configured
    one. *)
Theorem registered_filters_have_pending_timers (fuel : nat) (cs : list call)
  (timeout_ : Z) (a : FilterAPI) :
  runCalls fuel cs (NewFilterAPI timeout_) = Some a ->
  timeout a = timeout_
  /\ (forall id flt,
        filters a !! id = Some flt ->
        exists p t, deadline flt = Some p /\ timers a !! p = Some t
                    /\ forall now, pending now t)
  /\ (forall id1 id2 flt1 flt2,
        filters a !! id1 = Some flt1 -> filters a !! id2 = Some flt2 ->
        deadline flt1 = deadline flt2 -> id1 = id2).
Proof.
  intros Hrun.
  apply (runCalls_allArmed fuel cs (NewFilterAPI timeout_) a (allArmed_NewFilterAPI timeout_))
    in Hrun as [[Htimer Hinj] Htimeout].
  split; [exact Htimeout |]. split; [| exact Hinj].
  intros id flt Hflt.
  destruct (Htimer id flt Hflt) as (p & t & Hd & Ht & Hactive & HC).
  exists p, t. split; [assumption |]. split; [assumption |].
  intros now. unfold pending, timer.fire. rewrite Hactive, HC. simpl.
  destruct (Z.leb_spec (timer.when t) now) as [Hfired|Hlater].
  - right. split; [assumption | reflexivity].
  - left. split; [assumption |]. destruct t; simpl in *. now subst.
Qed.

(** X18.  A poll keeps its filter alive for one timeout.  After a
    [GetFilterChanges] or [GetFilterLogs] at time [t] that finds the
    filter and returns, with or without an error, a tick of the timeout
    loop before [t + timeout] leaves the filter in the registry as the
    poll left it, and a tick at or after [t + timeout] removes it. *)
Theorem poll_keeps_filter_alive (fuel : nat) (f : LogFetcher) (t now : Z)
  (a a1 : FilterAPI) (filterID : N) :
  allArmed a -> is_Some (filters a !! filterID) ->
  snd <$> GetFilterChanges fuel f t a filterID = Some a1
  \/ snd <$> GetFilterLogs fuel f t a filterID = Some a1 ->
  exists a2,
    timeoutTick now a1 = Some a2
    /\ (now < t + timeout a ->
        is_Some (filters a1 !! filterID) /\ filters a2 !! filterID = filters a1 !! filterID)
    /\ (t + timeout a <= now -> filters a2 !! filterID = None).
Proof.
  intros Harmed [flt Hflt] Hcall.
  assert (Hpolled : allArmed a1
                    /\ exists flt', filters a1 !! filterID = Some flt'
                                    /\ deadlineAt a1 flt' = Some (t + timeout a)).
  { destruct Hcall as [Hcall|Hcall].
    - destruct (GetFilterChanges fuel f t a filterID) as [r|] eqn:Hr; [|discriminate].
      injection Hcall as <-.
      destruct (GetFilterChanges_allArmed _ _ _ _ _ _ _ Harmed Hflt Hr) as (? & _ & ?). auto.
    - destruct (GetFilterLogs fuel f t a filterID) as [r|] eqn:Hr; [|discriminate].
      injection Hcall as <-.
      destruct (GetFilterLogs_allArmed _ _ _ _ _ _ _ Harmed Hflt Hr) as (? & _ & ?). auto. }
  destruct Hpolled as (Harmed1 & flt' & Hflt' & Hat).
  destruct (timeoutTick_allArmed now a1 Harmed1) as (a2 & Hrun & _ & _ & _ & Hmap & _).
  exists a2. split; [assumption |]. split.
  - intros Hearly. split; [eauto |]. rewrite Hflt'. apply Hmap. eauto.
  - intros Hlate. destruct (filters a2 !! filterID) as [flt2|] eqn:Hflt2; [| reflexivity].
    apply Hmap in Hflt2 as (Hflt2 & w & Hw & Hnow).
    rewrite Hflt' in Hflt2. injection Hflt2 as <-. rewrite Hat in Hw. injection Hw as <-. lia.
Qed.
End Deadlines.

(** X19.  A new filter lives for one timeout unless it is polled.  After
    a [NewFilter] or [NewBlockFilter] at time [t], a tick of the timeout
    loop before [t + timeout] leaves the new filter in the registry as
    it was created, and a tick at or after [t + timeout] removes it. *)
Theorem new_filter_expires_after_timeout (t now : Z) (a : FilterAPI)
  (r : N * option error * FilterAPI) :
  allArmed a ->
  (exists crit, r = NewFilter t a crit) \/ r = NewBlockFilter t a ->
  exists a2,
    timeoutTick now r.2 = Some a2
    /\ r.1.1 = nextFilterID a
    /\ (now < t + timeout a ->
        is_Some (filters r.2 !! r.1.1) /\ filters a2 !! r.1.1 = filters r.2 !! r.1.1)
    /\ (t + timeout a <= now -> filters a2 !! r.1.1 = None).
Proof.
  intros Harmed Hcall.
  assert (Hnew : r.1.1 = nextFilterID a /\ allArmed r.2
                 /\ exists flt, filters r.2 !! r.1.1 = Some flt
                                /\ deadlineAt r.2 flt = Some (t + timeout a)).
  { destruct Hcall as [[crit ->]| ->]; simpl.
    - split; [reflexivity |]. split; [now apply allArmed_create |].
      eexists. split; [apply lookup_insert_eq |].
      unfold deadlineAt. simpl. now rewrite list_lookup_middle.
    - split; [reflexivity |]. split; [now apply allArmed_create |].
      eexists. split; [apply lookup_insert_eq |].
      unfold deadlineAt. simpl. now rewrite list_lookup_middle. }
  destruct Hnew as (Hid & Harmed1 & flt & Hflt & Hat).
  destruct (timeoutTick_allArmed now r.2 Harmed1) as (a2 & Hrun & _ & _ & _ & Hmap & _).
  exists a2. split; [assumption |]. split; [assumption |]. split.
  - intros Hearly. split; [eauto |]. rewrite Hflt. apply Hmap. eauto.
  - intros Hlate. destruct (filters a2 !! r.1.1) as [flt2|] eqn:Hflt2; [| reflexivity].
    apply Hmap in Hflt2 as (Hflt2 & w & Hw & Hnow).
    rewrite Hflt in Hflt2. injection Hflt2 as <-. rewrite Hat in Hw. injection Hw as <-. lia.
Qed.

Lemma oneFilter_allArmed : allArmed oneFilter.
Proof.
  apply (runCalls_allArmed (H := sampleHelpers) 0 [CallNewFilter 0 anyCriteria]
           (NewFilterAPI 100) oneFilter (allArmed_NewFilterAPI 100)).
  reflexivity.
Qed.

Lemma timeoutTick_removes_expired_witness :
  exists a',
    timeoutTick 100 oneFilter = Some a'
    /\ nextFilterID a' = nextFilterID oneFilter
    /\ (forall id flt,
          filters a' !! id = Some flt
          <-> filters oneFilter !! id = Some flt
              /\ exists w, deadlineAt oneFilter flt = Some w /\ 100 < w)
    /\ (forall id flt,
          filters a' !! id = Some flt -> deadlineAt a' flt = deadlineAt oneFilter flt).
Proof.
  apply (timeoutTick_removes_expired 100 oneFilter oneFilter_allArmed).
Defined.

(** Filter 1 is created at time 30 and not polled; at time 160, when
    filter 2 is polled, it is past its deadline of 130 and still
    registered, as no tick has come. *)
Lemma registered_filters_have_pending_timers_witness :
  exists a,
    runCalls (H := sampleHelpers) 5
      [CallNewFilter 30 anyCriteria; CallNewBlockFilter 150;
       CallGetFilterChanges (sampleChain 0) 160 2]
      (NewFilterAPI 100) = Some a
    /\ is_Some (filters a !! 1%N) /\ is_Some (filters a !! 2%N)
    /\ timeout a = 100
    /\ (forall id flt,
          filters a !! id = Some flt ->
          exists p t, deadline flt = Some p /\ timers a !! p = Some t
                      /\ forall now, pending now t)
    /\ (forall id1 id2 flt1 flt2,
          filters a !! id1 = Some flt1 -> filters a !! id2 = Some flt2 ->
          deadline flt1 = deadline flt2 -> id1 = id2).
Proof.
  eexists. split; [reflexivity |].
  split; [now eexists |]. split; [now eexists |].
  apply (registered_filters_have_pending_timers (H := sampleHelpers) 5
           [CallNewFilter 30 anyCriteria; CallNewBlockFilter 150;
            CallGetFilterChanges (sampleChain 0) 160 2] 100).
  reflexivity.
Defined.

Lemma poll_keeps_filter_alive_witness :
  snd <$> GetFilterChanges (H := sampleHelpers) 5 (sampleChain 0) 10 oneFilter 1
  = Some polledOnce
  /\ exists a2,
       timeoutTick 109 polledOnce = Some a2
       /\ (109 < 10 + timeout oneFilter ->
           is_Some (filters polledOnce !! 1%N)
           /\ filters a2 !! 1%N = filters polledOnce !! 1%N)
       /\ (10 + timeout oneFilter <= 109 -> filters a2 !! 1%N = None).
Proof.
  split; [reflexivity |].
  apply (poll_keeps_filter_alive (H := sampleHelpers) 5 (sampleChain 0) 10 109
           oneFilter polledOnce 1 oneFilter_allArmed).
  - now eexists.
  - left. reflexivity.
Defined.

Lemma new_filter_expires_after_timeout_witness :
  exists a2,
    timeoutTick 100 (NewBlockFilter 0 (NewFilterAPI 100)).2 = Some a2
    /\ (NewBlockFilter 0 (NewFilterAPI 100)).1.1 = nextFilterID (NewFilterAPI 100)
    /\ (100 < 0 + timeout (NewFilterAPI 100) ->
        is_Some (filters (NewBlockFilter 0 (NewFilterAPI 100)).2
                   !! (NewBlockFilter 0 (NewFilterAPI 100)).1.1)
        /\ filters a2 !! (NewBlockFilter 0 (NewFilterAPI 100)).1.1
           = filters (NewBlockFilter 0 (NewFilterAPI 100)).2
               !! (NewBlockFilter 0 (NewFilterAPI 100)).1.1)
    /\ (0 + timeout (NewFilterAPI 100) <= 100 ->
        filters a2 !! (NewBlockFilter 0 (NewFilterAPI 100)).1.1 = None).
Proof.
  apply (new_filter_expires_after_timeout 0 100 (NewFilterAPI 100)
           (NewBlockFilter 0 (NewFilterAPI 100)) (allArmed_NewFilterAPI 100)).
  now right.
Defined.

(** ** Wider criteria *)

(** X20.  Widening the criteria loses no log.  When the addresses of
    [crit'] are none or include those of [crit] (which then names some),
    and every position at which [crit'] names topics is a position at
    which [crit] names some of the same topics, every log that matches
    [crit] exactly matches [crit'] exactly. *)
Theorem IsLogExactMatch_wider_criteria (log : ethtypes.Log)
  (crit crit' : filters.FilterCriteria) :
  filters.Addresses crit' = []
  \/ (filters.Addresses crit <> []
      /\ filters.Addresses crit ⊆ filters.Addresses crit') ->
  (forall (i : nat) (topicList' : list common.Hash),
     filters.Topics crit' !! i = Some topicList' -> topicList' <> [] ->
     exists topicList, filters.Topics crit !! i = Some topicList
                       /\ topicList <> [] /\ topicList ⊆ topicList') ->
  IsLogExactMatch log crit = true -> IsLogExactMatch log crit' = true.
Proof.
  intros Haddr Htopics. unfold IsLogExactMatch, matchTopics.
  rewrite !andb_true_iff, !addressLoop_elem_of, !matchTopicsFrom_positions.
  intros [Hlog Hpos]. split.
  - destruct Haddr as [->|[Hsome Hsub]]; [now left |]. right. apply Hsub.
    destruct Hlog as [Hnone|Hin]; [| assumption].
    destruct (filters.Addresses crit); [congruence | discriminate].
  - intros j topicList' Hj Hne.
    destruct (Htopics j topicList' Hj Hne) as (topicList & Hj0 & Hne0 & Hsub).
    destruct (Hpos j topicList Hj0 Hne0) as (eventTopic & Hevent & Hin).
    exists eventTopic. split; [assumption | now apply Hsub].
Qed.

Lemma IsLogExactMatch_wider_criteria_witness :
  IsLogExactMatch (ethtypes.mkLog 18 [291; 1110] [] 0 0 0 0 0 false)%N narrowCriteria = true
  /\ IsLogExactMatch (ethtypes.mkLog 18 [291; 1110] [] 0 0 0 0 0 false)%N wideCriteria = true.
Proof.
  split; [reflexivity |].
  apply (IsLogExactMatch_wider_criteria
           (ethtypes.mkLog 18 [291; 1110] [] 0 0 0 0 0 false)%N narrowCriteria wideCriteria).
  - right. split; [discriminate |]. simpl.
    intros x Hx. apply list_elem_of_In. apply list_elem_of_In in Hx. simpl in *. tauto.
  - intros [|[|i]] topicList'; simpl; [| discriminate | discriminate].
    intros [= <-] _. exists [291%N]. split; [reflexivity |].
    split; [discriminate |].
    intros x Hx. apply list_elem_of_In. apply list_elem_of_In in Hx. simpl in *. tauto.
  - reflexivity.
Defined.

(** ** The kinds of the registered filters *)

Section Kinds.
Context `{H : Helpers}.

Lemma wellTyped_update (flt : filter) (deadline_ : option nat) (cursor : string)
  (height : Z) :
  wellTyped flt -> (typ flt = LogsSubscription -> cursor = blockCursor flt) ->
  wellTyped (mkFilter (typ flt) (fc flt) deadline_ cursor height).
Proof.
  intros [[Htyp Hcursor]|[Htyp Hfc]] Hkept; [left | right]; simpl.
  - split; [assumption |]. now rewrite Hkept.
  - now split.
Qed.

(** The entries of the registry after a poll that finds its filter: the
    entry of the filter keeps type and criteria, and its block cursor
    unless it is a block filter; the other entries are not touched. *)
Lemma GetFilterChanges_entries (fuel : nat) (f : LogFetcher) (now : Z)
  (a : FilterAPI) (filterID : N) (flt : filter) (r : changes * option error * FilterAPI) :
  filters a !! filterID = Some flt ->
  GetFilterChanges fuel f now a filterID = Some r ->
  filters r.2 = filters a
  \/ exists cursor height,
       filters r.2 = <[filterID := mkFilter (typ flt) (fc flt) (deadline flt)
                                    cursor height]> (filters a)
       /\ (typ flt = LogsSubscription -> cursor = blockCursor flt).
Proof.
  intros Hflt. unfold GetFilterChanges. rewrite Hflt.
  destruct (resetDeadline now a flt) as [a1|] eqn:Hreset; simpl; [|discriminate].
  apply resetDeadline_spec in Hreset as (Hf & _).
  assert (Hentry : filterAt a1 filterID = flt) by (unfold filterAt; now rewrite Hf, Hflt).
  rewrite Hentry, Hf.
  destruct (typ flt) eqn:Htyp.
  - intros [= <-]. now left.
  - destruct (_ && _); [intros [= <-]; now left |].
    destruct (match filters.ToBlock (fc flt) with Some _ => _ | None => _ end);
      [intros [= <-]; now left |].
    destruct (GetLogsByFilters _ _ _ _) as [[[logs E] [err|]]|]; simpl;
      [intros [= <-]; now left | | discriminate].
    intros [= <-]. right. simpl. eauto.
  - destruct (getBlockHeadersAfter _ _ _) as [[[hashes cursor] [err|]]|]; simpl;
      [intros [= <-]; now left | | discriminate].
    intros [= <-]. right. simpl. eexists _, _. split; [reflexivity | discriminate].
Qed.

Lemma GetFilterLogs_entries (fuel : nat) (f : LogFetcher) (now : Z)
  (a : FilterAPI) (filterID : N) (flt : filter)
  (r : list ethtypes.Log * option error * FilterAPI) :
  filters a !! filterID = Some flt ->
  GetFilterLogs fuel f now a filterID = Some r ->
  filters r.2 = filters a
  \/ exists height,
       filters r.2 = <[filterID := mkFilter (typ flt) (fc flt) (deadline flt)
                                    (blockCursor flt) height]> (filters a).
Proof.
  intros Hflt. unfold GetFilterLogs. rewrite Hflt.
  destruct (resetDeadline now a flt) as [a1|] eqn:Hreset; simpl; [|discriminate].
  apply resetDeadline_spec in Hreset as (Hf & _).
  assert (Hentry : filterAt a1 filterID = flt) by (unfold filterAt; now rewrite Hf, Hflt).
  rewrite Hentry, Hf.
  destruct (GetLogsByFilters _ _ _ _) as [[[logs E] [err|]]|]; simpl;
    [intros [= <-]; now left | | discriminate].
  intros [= <-]. right. simpl. eauto.
Qed.

Lemma step_wellTyped (fuel : nat) (c : call) (a a' : FilterAPI) (r : option N) :
  allArmed a ->
  (forall id flt, filters a !! id = Some flt -> wellTyped flt) ->
  step fuel c a = Some (r, a') ->
  forall id flt, filters a' !! id = Some flt -> wellTyped flt.
Proof.
  intros Harmed Hall.
  assert (Hinsert : forall (m : gmap N filter) filterID flt0 cursor height,
             filters a !! filterID = Some flt0 ->
             (typ flt0 = LogsSubscription -> cursor = blockCursor flt0) ->
             m = <[filterID := mkFilter (typ flt0) (fc flt0) (deadline flt0)
                                 cursor height]> (filters a) ->
             forall id flt, m !! id = Some flt -> wellTyped flt).
  { intros m filterID flt0 cursor height Hflt0 Hkept -> id flt.
    rewrite lookup_insert. case_decide as Hid.
    - intros [= <-]. apply wellTyped_update; [now apply (Hall filterID) | assumption].
    - apply Hall. }
  destruct c as [now crit|now|f now filterID|f now filterID|filterID|now]; simpl.
  - intros [= _ <-] id flt. simpl. rewrite lookup_insert. case_decide as Hid.
    + intros [= <-]. now left.
    + apply Hall.
  - intros [= _ <-] id flt. simpl. rewrite lookup_insert. case_decide as Hid.
    + intros [= <-]. now right.
    + apply Hall.
  - destruct (GetFilterChanges _ _ _ _ _) as [res|] eqn:Hcall; simpl; [|discriminate].
    intros [= _ <-].
    destruct (filters a !! filterID) as [flt0|] eqn:Hflt0.
    + destruct (GetFilterChanges_entries _ _ _ _ _ _ _ Hflt0 Hcall)
        as [->|(cursor & height & Hmap & Hkept)]; [exact Hall |].
      now apply (Hinsert _ filterID flt0 cursor height).
    + unfold GetFilterChanges in Hcall. rewrite Hflt0 in Hcall.
      injection Hcall as <-. exact Hall.
  - destruct (GetFilterLogs _ _ _ _ _) as [res|] eqn:Hcall; simpl; [|discriminate].
    intros [= _ <-].
    destruct (filters a !! filterID) as [flt0|] eqn:Hflt0.
    + destruct (GetFilterLogs_entries _ _ _ _ _ _ _ Hflt0 Hcall)
        as [->|(height & Hmap)]; [exact Hall |].
      now apply (Hinsert _ filterID flt0 (blockCursor flt0) height).
    + unfold GetFilterLogs in Hcall. rewrite Hflt0 in Hcall.
      injection Hcall as <-. exact Hall.
  - intros [= _ <-] id flt. unfold UninstallFilter.
    destruct (filters a !! filterID); simpl; [| apply Hall].
    intros Hflt. apply lookup_delete_Some in Hflt as [_ Hflt]. now apply (Hall id).
  - destruct (timeoutTick_allArmed now a Harmed) as (a1 & -> & _ & _ & _ & Hmap & _).
    simpl. intros [= _ <-] id flt Hflt. apply Hmap in Hflt as [Hflt _].
    now apply (Hall id).
Qed.

Lemma runCalls_wellTyped (fuel : nat) (cs : list call) (a0 a : FilterAPI) :
  allArmed a0 ->
  (forall id flt, filters a0 !! id = Some flt -> wellTyped flt) ->
  runCalls fuel cs a0 = Some a ->
  forall id flt, filters a !! id = Some flt -> wellTyped flt.
Proof.
  revert a0. induction cs as [|c rest IH]; intros a0 Harmed Hall; simpl.
  - now intros [= <-].
  - destruct (step fuel c a0) as [[r a1]|] eqn:Hstep; simpl; [|discriminate].
    apply IH.
    + now apply (step_allArmed fuel c a0 a1 r).
    + now apply (step_wellTyped fuel c a0 a1 r).
Qed.


(** X22.  [GetFilterLogs] does not turn down a block filter.  On a block
    filter of a registry built from [NewFilterAPI] it answers what
    [GetLogs] answers for criteria with no block hash, no range, no
    address and no topic: the scan of all the heights up to the latest
    one. *)
Theorem GetFilterLogs_on_block_filter (fuel fuel' : nat) (cs : list call)
  (timeout_ : Z) (f : LogFetcher) (now : Z) (a : FilterAPI) (filterID : N)
  (flt : filter) :
  runCalls fuel cs (NewFilterAPI timeout_) = Some a ->
  filters a !! filterID = Some flt -> typ flt = BlocksSubscription ->
  (fun r => (r.1.1, r.1.2)) <$> GetFilterLogs fuel' f now a filterID
  = GetLogs fuel' f (filters.mkCriteria None None None [] []).
Proof.
  intros Hrun Hflt Htyp.
  assert (Hfc : fc flt = filters.mkCriteria None None None [] []).
  { assert (Htyped : wellTyped flt).
    { apply (runCalls_wellTyped fuel cs (NewFilterAPI timeout_) a
               (allArmed_NewFilterAPI timeout_)) with (id := filterID); try assumption.
      intros id flt0 Hflt0. simpl in Hflt0. now rewrite lookup_empty in Hflt0. }
    destruct Htyped as [[Hlogs _]|[_ Hfc]]; [congruence | assumption]. }
  apply runCalls_wellFormed in Hrun as Hwf.
  destruct (resetDeadline_returns now a filterID flt Hwf Hflt) as (a1 & Hreset & _).
  unfold GetFilterLogs, GetLogs. rewrite Hflt, Hreset. simpl. rewrite Hfc.
  destruct (GetLogsByFilters fuel' f _ 0) as [[[logs E] [err|]]|] eqn:Hscan;
    simpl; [| reflexivity | reflexivity].
  apply GetLogsByFilters_error_nil in Hscan as [-> _]. reflexivity.
Qed.
End Kinds.


Lemma GetFilterLogs_on_block_filter_witness :
  (fun r => (r.1.1, r.1.2))
    <$> GetFilterLogs (H := sampleHelpers) 5 (sampleChain 0) 30 oneBlockFilter 1
  = GetLogs (H := sampleHelpers) 5 (sampleChain 0) (filters.mkCriteria None None None [] [])
  /\ GetLogs (H := sampleHelpers) 5 (sampleChain 0) (filters.mkCriteria None None None [] [])
     = Some (blockZeroLogs, None).
Proof.
  split; [| reflexivity].
  apply (GetFilterLogs_on_block_filter (H := sampleHelpers) 0 5 [CallNewBlockFilter 0] 100
           (sampleChain 0) 30 oneBlockFilter 1
           (mkFilter BlocksSubscription (filters.mkCriteria None None None [] [])
              (Some 0%nat) "" 0)); reflexivity.
Defined.

(** ** A poll for changes after a poll for all the logs *)

Section Rescan.
Context `{H : Helpers}.

(** X23.  [GetFilterLogs] leaves the cursor on the last height it has
    scanned, not one above.  For a logs filter without block hash and
    upper bound, after a [GetFilterLogs] that succeeds at latest height
    [E], a [GetFilterChanges] that succeeds scans from
    [max(fromBlock, E)] on, so that it returns the logs of height [E]
    again when [E] is at or above [fromBlock]. *)
Theorem GetFilterChanges_after_GetFilterLogs (fuel fuel' : nat) (f f' : LogFetcher)
  (now now' : Z) (a a1 a2 : FilterAPI) (filterID : N) (flt : filter)
  (logs : list ethtypes.Log) (v : changes) :
  HelpersInt64 H -> Int64.InRange (BlockHeight f) ->
  filters a !! filterID = Some flt -> typ flt = LogsSubscription ->
  filters.BlockHash (fc flt) = None -> filters.ToBlock (fc flt) = None ->
  GetFilterLogs fuel f now a filterID = Some (logs, None, a1) ->
  GetFilterChanges fuel' f' now' a1 filterID = Some (v, None, a2) ->
  lastToHeight (filterAt a1 filterID) = BlockHeight f
  /\ v = Logs (candidateHeights f'
                (EncodeFilters (filters.Addresses (fc flt)) (filters.Topics (fc flt)))
                (scanRange f' (fc flt) (BlockHeight f)).1 (BlockHeight f')
              ≫= blockLogs f' (fc flt))
  /\ BlockHeight f <= (scanRange f' (fc flt) (BlockHeight f)).1
  /\ ((forall fromBlock, filters.FromBlock (fc flt) = Some fromBlock ->
                         getHeightFromBigIntBlockNumber (BlockHeight f') fromBlock
                         <= BlockHeight f) ->
      0 <= BlockHeight f ->
      (scanRange f' (fc flt) (BlockHeight f)).1 = BlockHeight f).
Proof.
  intros Hint Hrange Hflt Htyp Hhash Hto Hlogs Hchanges.
  destruct (GetFilterLogs_success _ _ _ _ _ _ _ _ Hflt Hlogs) as (E & Hscan & Hentry).
  assert (HE : E = BlockHeight f).
  { apply GetLogsByFilters_range in Hscan as (HE & _); [| assumption |].
    - rewrite HE. unfold scanRange. simpl. now rewrite Hto.
    - apply scanRange_begin_InRange; [assumption | int64_range]. }
  subst E.
  split; [unfold filterAt; now rewrite Hentry |].
  destruct (GetFilterChanges_success _ _ _ _ _ _ _ _ Hentry Hchanges)
    as [(Hblocks & _) | [(_ & _ & _ & [[x Hx]|[x Hx]]) | (_ & logs2 & E2 & Hscan2 & -> & _)]];
    simpl in *; try congruence.
  apply GetLogsByFilters_range in Hscan2 as (HE2 & -> & _); [| assumption |].
  2:{ now apply scanRange_begin_InRange. }
  assert (HE2' : E2 = BlockHeight f').
  { rewrite HE2. unfold scanRange. simpl. now rewrite Hto. }
  subst E2. rewrite HE2'. split; [reflexivity |].
  split; [apply scanRange_begin_ge |].
  intros Hfrom Hpos. unfold scanRange. simpl.
  destruct (filters.FromBlock (fc flt)) as [fromBlock|].
  - specialize (Hfrom fromBlock eq_refl).
    destruct (Z.gtb_spec (BlockHeight f)
                (getHeightFromBigIntBlockNumber (BlockHeight f') fromBlock)); lia.
  - destruct (Z.gtb_spec (BlockHeight f) 0); lia.
Qed.
End Rescan.

Lemma GetFilterChanges_after_GetFilterLogs_witness :
  exists logs a1 v a2,
    GetFilterLogs (H := sampleHelpers) 5 (sampleChain 0) 10 oneFilter 1
    = Some (logs, None, a1)
    /\ GetFilterChanges (H := sampleHelpers) 5 (sampleChain 0) 20 a1 1 = Some (v, None, a2)
    /\ lastToHeight (filterAt a1 1) = BlockHeight (sampleChain 0)
    /\ v = Logs (candidateHeights (H := sampleHelpers) (sampleChain 0) []
                   (scanRange (H := sampleHelpers) (sampleChain 0) anyCriteria
                      (BlockHeight (sampleChain 0))).1
                   (BlockHeight (sampleChain 0))
                 ≫= blockLogs (H := sampleHelpers) (sampleChain 0) anyCriteria)
    /\ BlockHeight (sampleChain 0)
       <= (scanRange (H := sampleHelpers) (sampleChain 0) anyCriteria
             (BlockHeight (sampleChain 0))).1
    /\ ((forall fromBlock, filters.FromBlock anyCriteria = Some fromBlock ->
                           getHeightFromBigIntBlockNumber (Helpers := sampleHelpers)
                             (BlockHeight (sampleChain 0)) fromBlock
                           <= BlockHeight (sampleChain 0)) ->
        0 <= BlockHeight (sampleChain 0) ->
        (scanRange (H := sampleHelpers) (sampleChain 0) anyCriteria
           (BlockHeight (sampleChain 0))).1 = BlockHeight (sampleChain 0)).
Proof.
  eexists _, _, _, _. split; [reflexivity |]. split; [reflexivity |].
  eapply (GetFilterChanges_after_GetFilterLogs (H := sampleHelpers) 5 5
            (sampleChain 0) (sampleChain 0) 10 20 oneFilter _ _ 1 oneFilterEntry _ _
            sampleHelpers_Int64).
  - int64_range.
  - reflexivity.
  - reflexivity.
  - reflexivity.
  - reflexivity.
  - reflexivity.
  - reflexivity.
Defined.
